(** * Mob Hunters: a shallow embedding of the per-frame game logic of main.py

    The development follows the layout of the source file: configuration
    constants, helpers, data tables, entities, projectiles, the virtual
    pad, and the [Game] class with its spawning, combat, healing, archery,
    theme-transition, update and event-handling methods.

    Conventions.
    - Python integers are [Z].
    - Python floats ([pygame.math.Vector2] components, speeds, the slash
      and direction timers) are rationals [Q]; rounding of IEEE doubles is
      not modelled.  The square root behind [Vector2.length] is taken to
      fifteen decimal places.
    - [pygame.Rect] is a record of four integers; its derived attributes
      ([center], [right], [bottom]) and [colliderect]/[collidepoint] follow
      pygame's definitions.
    - The module-level [random] generator is a stream of raw draws with a
      cursor, threaded explicitly through every function that draws.
    - Mutable objects held in lists are updated in place by position; where
      the source iterates over a snapshot while mutating the live list, the
      live list carries the snapshot index of each object so that both
      views of one object stay the same object.
    - A Python [IndexError] escaping a method is the [IndexError] outcome,
      carrying the state as mutated up to the raise.
    - Sprites, fonts and drawing have no effect on the game state and are
      left out. *)

From Stdlib Require Import ZArith QArith Qround Qabs List String Ascii Bool Lia.
Import ListNotations.
Open Scope Z_scope.

(* ------------------------------------------------------------------ *)
(** ** Floats and vectors *)

(** Python's [int(x)] on a float: truncation toward zero. *)
Definition int_of_float (q : Q) : Z := Z.quot (Qnum q) (Zpos (Qden q)).

Definition Qlt_bool (a b : Q) : bool := negb (Qle_bool b a).

Definition SQRT_DIGITS : Z := 10 ^ 15.

(** Square root of a non-negative float, to fifteen decimal places. *)
Definition sqrt_float (q : Q) : Q :=
  Qred (Qmake (Z.sqrt (Qfloor (q * inject_Z (SQRT_DIGITS * SQRT_DIGITS))))
              (Z.to_pos SQRT_DIGITS)).

Record Vector2 : Type := mkVector2 { vx : Q; vy : Q }.

Definition vec (x y : Q) : Vector2 := mkVector2 (Qred x) (Qred y).
Definition vec_of_point (p : Z * Z) : Vector2 :=
  mkVector2 (inject_Z (fst p)) (inject_Z (snd p)).
Definition vadd (a b : Vector2) : Vector2 := vec (vx a + vx b) (vy a + vy b).
Definition vsub (a b : Vector2) : Vector2 := vec (vx a - vx b) (vy a - vy b).
Definition vscale (a : Vector2) (k : Q) : Vector2 := vec (vx a * k) (vy a * k).
Definition length_squared (a : Vector2) : Q := Qred (vx a * vx a + vy a * vy a).
Definition vlength (a : Vector2) : Q := sqrt_float (length_squared a).

(** [Vector2.normalize]; every call in the source is guarded against the
    zero vector, on which pygame raises. *)
Definition normalize (a : Vector2) : Vector2 :=
  let l := vlength a in vec (vx a / l) (vy a / l).

(** [Vector2.scale_to_length]. *)
Definition scale_to_length (a : Vector2) (k : Q) : Vector2 :=
  vscale (normalize a) k.

(** [a.distance_to(b) <= r] and [a.distance_to(b) > r] for integer points
    and an integer radius: the comparison of the square root with [r] is
    the comparison of the squares. *)
Definition dist_sq (a b : Z * Z) : Z :=
  (fst a - fst b) * (fst a - fst b) + (snd a - snd b) * (snd a - snd b).
Definition distance_le (a b : Z * Z) (r : Z) : bool :=
  (0 <=? r) && (dist_sq a b <=? r * r).
Definition distance_gt (a b : Z * Z) (r : Z) : bool := negb (distance_le a b r).

(* ------------------------------------------------------------------ *)
(** ** pygame.Rect *)

Record Rect : Type := mkRect { rx : Z; ry : Z; rw : Z; rh : Z }.

Definition rect_left (r : Rect) : Z := rx r.
Definition rect_top (r : Rect) : Z := ry r.
Definition rect_right (r : Rect) : Z := rx r + rw r.
Definition rect_bottom (r : Rect) : Z := ry r + rh r.
Definition centerx (r : Rect) : Z := rx r + Z.quot (rw r) 2.
Definition centery (r : Rect) : Z := ry r + Z.quot (rh r) 2.
Definition center (r : Rect) : Z * Z := (centerx r, centery r).

Definition set_x (r : Rect) (x : Z) : Rect := mkRect x (ry r) (rw r) (rh r).
Definition set_y (r : Rect) (y : Z) : Rect := mkRect (rx r) y (rw r) (rh r).
Definition set_size (r : Rect) (w h : Z) : Rect := mkRect (rx r) (ry r) w h.
Definition set_center (r : Rect) (c : Z * Z) : Rect :=
  mkRect (fst c - Z.quot (rw r) 2) (snd c - Z.quot (rh r) 2) (rw r) (rh r).
Definition move_by (r : Rect) (dx dy : Z) : Rect :=
  mkRect (rx r + dx) (ry r + dy) (rw r) (rh r).

(** [Rect.colliderect]: rectangles of zero size collide with nothing,
    touching edges do not collide. *)
Definition colliderect (a b : Rect) : bool :=
  if (rw a =? 0) || (rh a =? 0) || (rw b =? 0) || (rh b =? 0) then false
  else (Z.min (rx a) (rx a + rw a) <? Z.max (rx b) (rx b + rw b))
    && (Z.min (ry a) (ry a + rh a) <? Z.max (ry b) (ry b + rh b))
    && (Z.min (rx b) (rx b + rw b) <? Z.max (rx a) (rx a + rw a))
    && (Z.min (ry b) (ry b + rh b) <? Z.max (ry a) (ry a + rh a)).

(** [Rect.collidepoint]. *)
Definition collidepoint (r : Rect) (p : Z * Z) : bool :=
  (rx r <=? fst p) && (fst p <? rx r + rw r)
  && (ry r <=? snd p) && (snd p <? ry r + rh r).

(* ------------------------------------------------------------------ *)
(** ** Config *)

Definition WIDTH : Z := 1000.
Definition HEIGHT : Z := 640.
Definition FPS : Z := 60.

Inductive Theme : Type := OVERWORLD | NETHER | END.

Definition Theme_eqb (a b : Theme) : bool :=
  match a, b with
  | OVERWORLD, OVERWORLD | NETHER, NETHER | END, END => true
  | _, _ => false
  end.

Definition MAX_LIVE_MOBS : Z := 25.
Definition MAX_ALIVE_ANIMALS : Z := 7.

(** [1000 / FPS], the float subtracted from the timers each frame. *)
Definition FRAME_MS : Q := Qred (inject_Z 1000 / inject_Z FPS).

(* ------------------------------------------------------------------ *)
(** ** Helpers *)

Definition clamp (v lo hi : Z) : Z := Z.max lo (Z.min hi v).

(** [1 if pressed[key] else 0]. *)
Definition is_down (pressed : bool) : Z := if pressed then 1 else 0.

(** [sum(1 for x in l if f x)]. *)
Definition count_if {A : Type} (f : A -> bool) (l : list A) : Z :=
  Z.of_nat (List.length (filter f l)).

(** [l.pop(i)] for [i >= 0]: [None] stands for the [IndexError] raised when
    the index is out of range. *)
Fixpoint pop {A : Type} (l : list A) (i : nat) : option (list A) :=
  match l, i with
  | [], _ => None
  | _ :: t, O => Some t
  | h :: t, S j => option_map (cons h) (pop t j)
  end.

(** In-place mutation of the object at position [i] of a list. *)
Fixpoint set_nth {A : Type} (l : list A) (i : nat) (x : A) : list A :=
  match l, i with
  | [], _ => []
  | _ :: t, O => x :: t
  | h :: t, S j => h :: set_nth t j x
  end.

(** The outcome of a method that may let an [IndexError] escape. *)
Inductive Outcome (A : Type) : Type :=
| Ok (a : A)
| IndexError (a : A).
Arguments Ok {A} a.
Arguments IndexError {A} a.

Definition outcome_state {A : Type} (o : Outcome A) : A :=
  match o with Ok a => a | IndexError a => a end.

Definition raised {A : Type} (o : Outcome A) : bool :=
  match o with Ok _ => false | IndexError _ => true end.

(* ------------------------------------------------------------------ *)
(** ** The random module *)

Record Rng : Type := mkRng { draws : nat -> Z; cursor : nat }.

(** Computations that draw random numbers. *)
Definition R (A : Type) : Type := Rng -> A * Rng.

Definition ret {A : Type} (a : A) : R A := fun r => (a, r).
Definition bind {A B : Type} (m : R A) (k : A -> R B) : R B :=
  fun r => let (a, r') := m r in k a r'.

Notation "x <- m ;; k" := (bind m (fun x => k))
  (at level 61, m at next level, right associativity).

Definition draw : R Z := fun r => (draws r (cursor r), mkRng (draws r) (S (cursor r))).

(** [random.choice(l)]; [None] stands for the [IndexError] on an empty
    sequence. *)
Definition choice {A : Type} (l : list A) : R (option A) :=
  z <- draw ;; ret (nth_error l (Z.to_nat (z mod Z.of_nat (List.length l)))).

(** [random.randint(a, b)]. *)
Definition randint (a b : Z) : R Z :=
  z <- draw ;; ret (a + z mod (b - a + 1)).

(** [random.random()], a float in [[0, 1)], at a resolution of 1e-6. *)
Definition random_unit : R Q :=
  z <- draw ;; ret (Qred (Qmake (z mod 1000000) 1000000)).

(** [random.uniform(-1, 1)], at a resolution of 1e-6. *)
Definition uniform_pm1 : R Q :=
  z <- draw ;; ret (Qred (Qmake (z mod 2000001 - 1000000) 1000000)).

(* ------------------------------------------------------------------ *)
(** ** Strings: [str.lower] and the [in] test on strings *)

Definition lower_ascii (c : ascii) : ascii :=
  let n := nat_of_ascii c in
  if Nat.leb 65 n && Nat.leb n 90 then ascii_of_nat (n + 32) else c.

Fixpoint lower (s : string) : string :=
  match s with
  | EmptyString => EmptyString
  | String c t => String (lower_ascii c) (lower t)
  end.

(** [sub in s]. *)
Fixpoint contains (sub s : string) : bool :=
  String.prefix sub s
  || match s with
     | EmptyString => false
     | String _ t => contains sub t
     end.

(* ------------------------------------------------------------------ *)
(** ** Data *)

Record Weapon : Type := mkWeapon {
  w_name : string;
  w_dmg : Z;
  w_range_px : Z;
  w_cooldown_ms : Z
}.

Definition SWORD : Weapon := mkWeapon "Sword" 28 85 280.
Definition ELITE_SWORD : Weapon := mkWeapon "Diamond Sword" 36 95 260.
Definition BOSS_LOOT : Weapon := mkWeapon "End Sword" 50 110 240.

Record MobKind : Type := mkMobKind {
  mk_name : string;
  mk_hp : Z;
  mk_speed : Q;
  mk_score : Z;
  mk_color_key : string;
  mk_contact_dmg : Z
}.

Definition MOB_KINDS_OVER : list MobKind := [
  mkMobKind "Zombie Chicken Jockey" 50 (16 # 10) 18 "mob" 9;
  mkMobKind "Skeleton Spider Jockey" 65 (18 # 10) 24 "elite" 10;
  mkMobKind "Zombie" 45 (14 # 10) 12 "mob" 8;
  mkMobKind "Skeleton" 42 (16 # 10) 14 "mob" 9;
  mkMobKind "Spider" 36 (20 # 10) 16 "mob" 8;
  mkMobKind "Pigman" 60 (17 # 10) 20 "elite" 11
].

Definition MOB_KINDS_NETH : list MobKind := [
  mkMobKind "Wither Skeleton" 90 (19 # 10) 26 "elite" 12;
  mkMobKind "Blaze" 80 (18 # 10) 24 "elite" 11;
  mkMobKind "Ghast (mini)" 75 (12 # 10) 30 "elite" 12
].

Definition BOSS_ENDER : MobKind :=
  mkMobKind "Ender Dragon (tiny)" 400 (14 # 10) 250 "boss" 16.

Definition is_boss_kind (k : MobKind) : bool :=
  String.eqb (mk_color_key k) "boss".

Record AnimalKind : Type := mkAnimalKind {
  ak_name : string;
  ak_hp : Z;
  ak_speed : Q;
  ak_heal_amount : Z;
  ak_color : Z * Z * Z
}.

Definition ANIMALS : list AnimalKind := [
  mkAnimalKind "Chicken" 20 (16 # 10) 15 (250, 250, 210);
  mkAnimalKind "Pig" 35 (12 # 10) 25 (255, 170, 170);
  mkAnimalKind "Cow" 50 (10 # 10) 35 (170, 150, 130)
].

(* ------------------------------------------------------------------ *)
(** ** Entities *)

(** *** Player *)

Record Player : Type := mkPlayer {
  p_rect : Rect;
  p_max_hp : Z;
  p_hp : Z;
  p_spd : Q;
  p_dash_spd : Q;
  p_weapon : Weapon;
  p_last_attack : Z;
  p_score : Z;
  p_alive : bool;
  p_slash_timer : Q;
  p_slash_radius : Z
}.

Definition p_with_rect (p : Player) (r : Rect) : Player :=
  mkPlayer r (p_max_hp p) (p_hp p) (p_spd p) (p_dash_spd p) (p_weapon p)
           (p_last_attack p) (p_score p) (p_alive p) (p_slash_timer p)
           (p_slash_radius p).
Definition p_with_hp (p : Player) (h : Z) : Player :=
  mkPlayer (p_rect p) (p_max_hp p) h (p_spd p) (p_dash_spd p) (p_weapon p)
           (p_last_attack p) (p_score p) (p_alive p) (p_slash_timer p)
           (p_slash_radius p).
Definition p_with_alive (p : Player) (a : bool) : Player :=
  mkPlayer (p_rect p) (p_max_hp p) (p_hp p) (p_spd p) (p_dash_spd p)
           (p_weapon p) (p_last_attack p) (p_score p) a (p_slash_timer p)
           (p_slash_radius p).
Definition p_with_weapon (p : Player) (w : Weapon) : Player :=
  mkPlayer (p_rect p) (p_max_hp p) (p_hp p) (p_spd p) (p_dash_spd p) w
           (p_last_attack p) (p_score p) (p_alive p) (p_slash_timer p)
           (p_slash_radius p).
Definition p_with_score (p : Player) (s : Z) : Player :=
  mkPlayer (p_rect p) (p_max_hp p) (p_hp p) (p_spd p) (p_dash_spd p)
           (p_weapon p) (p_last_attack p) s (p_alive p) (p_slash_timer p)
           (p_slash_radius p).
Definition p_with_slash_timer (p : Player) (t : Q) : Player :=
  mkPlayer (p_rect p) (p_max_hp p) (p_hp p) (p_spd p) (p_dash_spd p)
           (p_weapon p) (p_last_attack p) (p_score p) (p_alive p) t
           (p_slash_radius p).
Definition p_with_attack (p : Player) (now : Z) (t : Q) (radius : Z) : Player :=
  mkPlayer (p_rect p) (p_max_hp p) (p_hp p) (p_spd p) (p_dash_spd p)
           (p_weapon p) now (p_score p) (p_alive p) t radius.

(** [Player(x, y, color)]. *)
Definition Player_init (x y : Z) : Player :=
  mkPlayer (mkRect x y 26 26) 100 100 (32 # 10) (55 # 10) SWORD 0 0 true 0 0.

(** The indices [i] of the rects of [targets_rects] within weapon range,
    counted from [i0]. *)
Fixpoint hits_from (c : Z * Z) (range : Z) (i0 : nat)
         (targets_rects : list (option Rect)) : list nat :=
  match targets_rects with
  | [] => []
  | None :: t => hits_from c range (S i0) t
  | Some r :: t =>
      if distance_le c (center r) range
      then i0 :: hits_from c range (S i0) t
      else hits_from c range (S i0) t
  end.

(** [Player.try_attack]; [now] is [pygame.time.get_ticks()]. *)
Definition try_attack (p : Player) (now : Z) (targets_rects : list (option Rect))
  : Player * list nat :=
  if now - p_last_attack p <? w_cooldown_ms (p_weapon p) then (p, [])
  else
    let hits_idx := hits_from (center (p_rect p)) (w_range_px (p_weapon p)) 0
                              targets_rects in
    match hits_idx with
    | [] => (p, [])
    | _ :: _ => (p_with_attack p now 120 (w_range_px (p_weapon p)), hits_idx)
    end.

(** The clamping of an entity's rect to the arena. *)
Definition clamp_to_arena (r : Rect) : Rect :=
  let r1 := set_x r (clamp (rx r) 4 (WIDTH - 4 - rw r)) in
  set_y r1 (clamp (ry r1) 64 (HEIGHT - 4 - rh r1)).

(** [Player.move(dx, dy, dash)]. *)
Definition Player_move (p : Player) (dx dy : Q) (dash : bool) : Player :=
  if negb (p_alive p) then p
  else
    let v := mkVector2 dx dy in
    let spd := if dash then p_dash_spd p else p_spd p in
    let v := if Qlt_bool 0 (length_squared v) then vscale (normalize v) spd else v in
    let r := move_by (p_rect p) (int_of_float (vx v)) 0 in
    let r := move_by r 0 (int_of_float (vy v)) in
    let p := p_with_rect p (clamp_to_arena r) in
    if Qlt_bool 0 (p_slash_timer p) then
      let t := Qred (p_slash_timer p - FRAME_MS) in
      p_with_slash_timer p (if Qlt_bool t 0 then 0 else t)
    else p.

(** *** Mob *)

Record Mob : Type := mkMob {
  m_rect : Rect;
  m_kind : MobKind;
  m_hp : Z;
  m_max_hp : Z;
  m_alive : bool;
  m_knockback : Vector2;
  m_is_archer : bool;
  m_shots_left : Z;
  m_last_shot_time : Z;
  m_shot_cooldown_ms : Z;
  m_shot_range : Z
}.

Definition m_with_rect (m : Mob) (r : Rect) : Mob :=
  mkMob r (m_kind m) (m_hp m) (m_max_hp m) (m_alive m) (m_knockback m)
        (m_is_archer m) (m_shots_left m) (m_last_shot_time m)
        (m_shot_cooldown_ms m) (m_shot_range m).
Definition m_with_hp (m : Mob) (h : Z) : Mob :=
  mkMob (m_rect m) (m_kind m) h (m_max_hp m) (m_alive m) (m_knockback m)
        (m_is_archer m) (m_shots_left m) (m_last_shot_time m)
        (m_shot_cooldown_ms m) (m_shot_range m).
Definition m_with_alive (m : Mob) (a : bool) : Mob :=
  mkMob (m_rect m) (m_kind m) (m_hp m) (m_max_hp m) a (m_knockback m)
        (m_is_archer m) (m_shots_left m) (m_last_shot_time m)
        (m_shot_cooldown_ms m) (m_shot_range m).
Definition m_with_knockback (m : Mob) (k : Vector2) : Mob :=
  mkMob (m_rect m) (m_kind m) (m_hp m) (m_max_hp m) (m_alive m) k
        (m_is_archer m) (m_shots_left m) (m_last_shot_time m)
        (m_shot_cooldown_ms m) (m_shot_range m).
Definition m_with_shot (m : Mob) (now : Z) (shots : Z) : Mob :=
  mkMob (m_rect m) (m_kind m) (m_hp m) (m_max_hp m) (m_alive m)
        (m_knockback m) (m_is_archer m) shots now
        (m_shot_cooldown_ms m) (m_shot_range m).

(** [Mob(kind, x, y)]. *)
Definition Mob_init (kind : MobKind) (x y : Z) : Mob :=
  let is_archer := contains "skeleton" (lower (mk_name kind)) in
  mkMob (mkRect x y 24 24) kind (mk_hp kind) (mk_hp kind) true
        (mkVector2 0 0) is_archer (if is_archer then 3 else 0) 0 950 380.

(** [Mob.ai(target_pos)]. *)
Definition Mob_ai (m : Mob) (target_pos : Z * Z) : Mob :=
  if negb (m_alive m) then m
  else
    let d := vsub (vec_of_point target_pos) (vec_of_point (center (m_rect m))) in
    let d := if Qlt_bool 0 (length_squared d)
             then vscale (normalize d) (mk_speed (m_kind m)) else d in
    let kb := m_knockback m in
    let r := move_by (m_rect m) (int_of_float (vx d + vx kb)) 0 in
    let r := move_by r 0 (int_of_float (vy d + vy kb)) in
    let m := m_with_rect m (clamp_to_arena r) in
    let kb := vscale kb (85 # 100) in
    m_with_knockback m (if Qlt_bool (vlength kb) (2 # 10) then mkVector2 0 0 else kb).

(** *** Animal *)

Record Animal : Type := mkAnimal {
  a_rect : Rect;
  a_kind : AnimalKind;
  a_hp : Z;
  a_max_hp : Z;
  a_alive : bool;
  a_dir : Vector2;
  a_change_dir_timer : Q
}.

Definition a_with_rect (a : Animal) (r : Rect) : Animal :=
  mkAnimal r (a_kind a) (a_hp a) (a_max_hp a) (a_alive a) (a_dir a)
           (a_change_dir_timer a).
Definition a_with_hp (a : Animal) (h : Z) : Animal :=
  mkAnimal (a_rect a) (a_kind a) h (a_max_hp a) (a_alive a) (a_dir a)
           (a_change_dir_timer a).
Definition a_with_alive (a : Animal) (b : bool) : Animal :=
  mkAnimal (a_rect a) (a_kind a) (a_hp a) (a_max_hp a) b (a_dir a)
           (a_change_dir_timer a).
Definition a_with_dir (a : Animal) (d : Vector2) (t : Q) : Animal :=
  mkAnimal (a_rect a) (a_kind a) (a_hp a) (a_max_hp a) (a_alive a) d t.

(** The random unit direction drawn in [Animal.__init__] and [Animal.ai]. *)
Definition random_dir : R Vector2 :=
  x <- uniform_pm1 ;;
  y <- uniform_pm1 ;;
  let d := mkVector2 x y in
  let d := if Qeq_bool (length_squared d) 0 then mkVector2 1 0 else d in
  ret (normalize d).

(** [Animal(kind, x, y)]. *)
Definition Animal_init (kind : AnimalKind) (x y : Z) : R Animal :=
  d <- random_dir ;;
  t <- randint 900 1800 ;;
  ret (mkAnimal (mkRect x y 22 22) kind (ak_hp kind) (ak_hp kind) true d
                (inject_Z t)).

(** [Animal.ai()]. *)
Definition Animal_ai (a : Animal) : R Animal :=
  if negb (a_alive a) then ret a
  else
    let t := Qred (a_change_dir_timer a - FRAME_MS) in
    a <- (if Qle_bool t 0
          then d <- random_dir ;;
               t' <- randint 900 1800 ;;
               ret (a_with_dir a d (inject_Z t'))
          else ret (a_with_dir a (a_dir a) t)) ;;
    let vel := vscale (a_dir a) (ak_speed (a_kind a)) in
    let r := move_by (a_rect a) (int_of_float (vx vel)) 0 in
    let r := move_by r 0 (int_of_float (vy vel)) in
    let d := a_dir a in
    let d := if (rect_left r <=? 4) || (WIDTH - 4 <=? rect_right r)
             then mkVector2 (Qred (vx d * - (1))) (vy d) else d in
    let d := if (rect_top r <=? 64) || (HEIGHT - 4 <=? rect_bottom r)
             then mkVector2 (vx d) (Qred (vy d * - (1))) else d in
    ret (a_with_dir (a_with_rect a (clamp_to_arena r)) d (a_change_dir_timer a)).

(* ------------------------------------------------------------------ *)
(** ** Projectiles *)

Record Arrow : Type := mkArrow {
  ar_pos : Vector2;
  ar_vel : Vector2;
  ar_rect : Rect;
  ar_dmg : Z;
  ar_alive : bool;
  ar_ttl_ms : Z
}.

Definition ar_with_alive (a : Arrow) (b : bool) : Arrow :=
  mkArrow (ar_pos a) (ar_vel a) (ar_rect a) (ar_dmg a) b (ar_ttl_ms a).

(** [Arrow(x, y, vx, vy, dmg)]. *)
Definition Arrow_init (x y vx0 vy0 : Q) (dmg : Z) : Arrow :=
  mkArrow (mkVector2 x y) (mkVector2 vx0 vy0)
          (mkRect (int_of_float x - 3) (int_of_float y - 3) 6 6) dmg true 3500.

(** [Arrow.update(dt_ms)]. *)
Definition Arrow_update (a : Arrow) (dt_ms : Z) : Arrow :=
  if negb (ar_alive a) then a
  else
    let pos := vadd (ar_pos a) (ar_vel a) in
    let r := set_center (ar_rect a) (int_of_float (vx pos), int_of_float (vy pos)) in
    let ttl := ar_ttl_ms a - dt_ms in
    let alive := if ttl <=? 0 then false else ar_alive a in
    let alive := if (rect_right r <? 0) || (WIDTH <? rect_left r)
                    || (rect_bottom r <? 0) || (HEIGHT <? rect_top r)
                 then false else alive in
    mkArrow pos (ar_vel a) r (ar_dmg a) alive ttl.

(* ------------------------------------------------------------------ *)
(** ** Virtual controls *)

Inductive Key : Type :=
| K_ESCAPE | K_p | K_r | K_1 | K_2 | K_3 | K_other.

Inductive Event : Type :=
| MOUSEBUTTONDOWN (pos : Z * Z)
| MOUSEBUTTONUP (pos : Z * Z)
| MOUSEMOTION (pos : Z * Z)
| QUIT
| KEYDOWN (key : Key)
| OTHER_EVENT.

Record VirtualPad : Type := mkVirtualPad {
  stick_base_r : Z;
  stick_nub_r : Z;
  stick_center : Vector2;
  btn_attack : Rect;
  btn_dash : Rect;
  stick_active : bool;
  nub_pos : Vector2;
  move_vec : Vector2;
  attack_pressed : bool;
  dash_pressed : bool;
  attack_latch : bool
}.

Definition VirtualPad_init : VirtualPad :=
  let pad_margin := 20 in
  let base_r := 64 in
  let c := vec_of_point (pad_margin + base_r, HEIGHT - pad_margin - base_r) in
  let btn_w := 120 in
  let btn_h := 56 in
  let btn_gap := 16 in
  let right_x := WIDTH - pad_margin - btn_w in
  let bottom_y := HEIGHT - pad_margin - btn_h in
  mkVirtualPad base_r 28 c
               (mkRect right_x (bottom_y - btn_h - btn_gap) btn_w btn_h)
               (mkRect right_x bottom_y btn_w btn_h)
               false c (mkVector2 0 0) false false false.

Definition vp_with_stick (v : VirtualPad) (active : bool) (nub mv : Vector2)
  : VirtualPad :=
  mkVirtualPad (stick_base_r v) (stick_nub_r v) (stick_center v) (btn_attack v)
               (btn_dash v) active nub mv (attack_pressed v) (dash_pressed v)
               (attack_latch v).
Definition vp_with_buttons (v : VirtualPad) (att dash latch : bool) : VirtualPad :=
  mkVirtualPad (stick_base_r v) (stick_nub_r v) (stick_center v) (btn_attack v)
               (btn_dash v) (stick_active v) (nub_pos v) (move_vec v)
               att dash latch.

(** [VirtualPad._update_stick(mx, my)]. *)
Definition update_stick (v : VirtualPad) (pos : Z * Z) : VirtualPad :=
  let d := vsub (vec_of_point pos) (stick_center v) in
  let d := if Qlt_bool (inject_Z (stick_base_r v)) (vlength d)
           then scale_to_length d (inject_Z (stick_base_r v)) else d in
  let nub := vadd (stick_center v) d in
  let mv := if Qlt_bool (vlength d) 8 then mkVector2 0 0 else normalize d in
  vp_with_stick v (stick_active v) nub mv.

(** [VirtualPad.handle_event(e)]. *)
Definition VirtualPad_handle_event (v : VirtualPad) (e : Event) : VirtualPad :=
  match e with
  | MOUSEBUTTONDOWN pos =>
      if Qle_bool (vlength (vsub (vec_of_point pos) (stick_center v)))
                  (inject_Z (stick_base_r v + 4))
      then update_stick (vp_with_stick v true (nub_pos v) (move_vec v)) pos
      else if collidepoint (btn_attack v) pos
      then vp_with_buttons v true (dash_pressed v) true
      else if collidepoint (btn_dash v) pos
      then vp_with_buttons v (attack_pressed v) true (attack_latch v)
      else v
  | MOUSEBUTTONUP pos =>
      let v := if stick_active v
               then vp_with_stick v false (stick_center v) (mkVector2 0 0)
               else v in
      let v := if collidepoint (btn_dash v) pos
               then vp_with_buttons v (attack_pressed v) false (attack_latch v)
               else v in
      if collidepoint (btn_attack v) pos
      then vp_with_buttons v false (dash_pressed v) (attack_latch v)
      else v
  | MOUSEMOTION pos => if stick_active v then update_stick v pos else v
  | _ => v
  end.

(** [VirtualPad.consume_attack_tap()]. *)
Definition consume_attack_tap (v : VirtualPad) : VirtualPad * bool :=
  if attack_latch v
  then (vp_with_buttons v (attack_pressed v) (dash_pressed v) false, true)
  else (v, false).

(* ------------------------------------------------------------------ *)
(** ** Game *)

Record Game : Type := mkGame {
  theme : Theme;
  prev_theme : Theme;
  spawn_timer : Z;
  spawn_interval_ms : Z;
  animal_spawn_timer : Z;
  animal_spawn_interval_ms : Z;
  portal_n : Rect;
  portal_e : Rect;
  p1 : Player;
  mobs : list Mob;
  animals : list Animal;
  weapon_drops : list (Rect * Weapon);
  health_packs : list (Rect * Z);
  projectiles : list Arrow;
  paused : bool;
  round_over : bool;
  end_boss_alive : bool;
  running : bool;
  vpad : VirtualPad
}.

Definition with_theme (g : Game) (v : Theme) : Game :=
  mkGame v (prev_theme g) (spawn_timer g) (spawn_interval_ms g)
        (animal_spawn_timer g) (animal_spawn_interval_ms g) (portal_n g)
        (portal_e g) (p1 g) (mobs g) (animals g) (weapon_drops g)
        (health_packs g) (projectiles g) (paused g) (round_over g)
        (end_boss_alive g) (running g) (vpad g).
Definition with_prev_theme (g : Game) (v : Theme) : Game :=
  mkGame (theme g) v (spawn_timer g) (spawn_interval_ms g)
        (animal_spawn_timer g) (animal_spawn_interval_ms g) (portal_n g)
        (portal_e g) (p1 g) (mobs g) (animals g) (weapon_drops g)
        (health_packs g) (projectiles g) (paused g) (round_over g)
        (end_boss_alive g) (running g) (vpad g).
Definition with_spawn_timer (g : Game) (v : Z) : Game :=
  mkGame (theme g) (prev_theme g) v (spawn_interval_ms g)
        (animal_spawn_timer g) (animal_spawn_interval_ms g) (portal_n g)
        (portal_e g) (p1 g) (mobs g) (animals g) (weapon_drops g)
        (health_packs g) (projectiles g) (paused g) (round_over g)
        (end_boss_alive g) (running g) (vpad g).
Definition with_animal_spawn_timer (g : Game) (v : Z) : Game :=
  mkGame (theme g) (prev_theme g) (spawn_timer g) (spawn_interval_ms g) v
        (animal_spawn_interval_ms g) (portal_n g) (portal_e g) (p1 g)
        (mobs g) (animals g) (weapon_drops g) (health_packs g)
        (projectiles g) (paused g) (round_over g) (end_boss_alive g)
        (running g) (vpad g).
Definition with_p1 (g : Game) (v : Player) : Game :=
  mkGame (theme g) (prev_theme g) (spawn_timer g) (spawn_interval_ms g)
        (animal_spawn_timer g) (animal_spawn_interval_ms g) (portal_n g)
        (portal_e g) v (mobs g) (animals g) (weapon_drops g)
        (health_packs g) (projectiles g) (paused g) (round_over g)
        (end_boss_alive g) (running g) (vpad g).
Definition with_mobs (g : Game) (v : list Mob) : Game :=
  mkGame (theme g) (prev_theme g) (spawn_timer g) (spawn_interval_ms g)
        (animal_spawn_timer g) (animal_spawn_interval_ms g) (portal_n g)
        (portal_e g) (p1 g) v (animals g) (weapon_drops g) (health_packs g)
        (projectiles g) (paused g) (round_over g) (end_boss_alive g)
        (running g) (vpad g).
Definition with_animals (g : Game) (v : list Animal) : Game :=
  mkGame (theme g) (prev_theme g) (spawn_timer g) (spawn_interval_ms g)
        (animal_spawn_timer g) (animal_spawn_interval_ms g) (portal_n g)
        (portal_e g) (p1 g) (mobs g) v (weapon_drops g) (health_packs g)
        (projectiles g) (paused g) (round_over g) (end_boss_alive g)
        (running g) (vpad g).
Definition with_weapon_drops (g : Game) (v : list (Rect * Weapon)) : Game :=
  mkGame (theme g) (prev_theme g) (spawn_timer g) (spawn_interval_ms g)
        (animal_spawn_timer g) (animal_spawn_interval_ms g) (portal_n g)
        (portal_e g) (p1 g) (mobs g) (animals g) v (health_packs g)
        (projectiles g) (paused g) (round_over g) (end_boss_alive g)
        (running g) (vpad g).
Definition with_health_packs (g : Game) (v : list (Rect * Z)) : Game :=
  mkGame (theme g) (prev_theme g) (spawn_timer g) (spawn_interval_ms g)
        (animal_spawn_timer g) (animal_spawn_interval_ms g) (portal_n g)
        (portal_e g) (p1 g) (mobs g) (animals g) (weapon_drops g) v
        (projectiles g) (paused g) (round_over g) (end_boss_alive g)
        (running g) (vpad g).
Definition with_projectiles (g : Game) (v : list Arrow) : Game :=
  mkGame (theme g) (prev_theme g) (spawn_timer g) (spawn_interval_ms g)
        (animal_spawn_timer g) (animal_spawn_interval_ms g) (portal_n g)
        (portal_e g) (p1 g) (mobs g) (animals g) (weapon_drops g)
        (health_packs g) v (paused g) (round_over g) (end_boss_alive g)
        (running g) (vpad g).
Definition with_paused (g : Game) (v : bool) : Game :=
  mkGame (theme g) (prev_theme g) (spawn_timer g) (spawn_interval_ms g)
        (animal_spawn_timer g) (animal_spawn_interval_ms g) (portal_n g)
        (portal_e g) (p1 g) (mobs g) (animals g) (weapon_drops g)
        (health_packs g) (projectiles g) v (round_over g) (end_boss_alive g)
        (running g) (vpad g).
Definition with_round_over (g : Game) (v : bool) : Game :=
  mkGame (theme g) (prev_theme g) (spawn_timer g) (spawn_interval_ms g)
        (animal_spawn_timer g) (animal_spawn_interval_ms g) (portal_n g)
        (portal_e g) (p1 g) (mobs g) (animals g) (weapon_drops g)
        (health_packs g) (projectiles g) (paused g) v (end_boss_alive g)
        (running g) (vpad g).
Definition with_end_boss_alive (g : Game) (v : bool) : Game :=
  mkGame (theme g) (prev_theme g) (spawn_timer g) (spawn_interval_ms g)
        (animal_spawn_timer g) (animal_spawn_interval_ms g) (portal_n g)
        (portal_e g) (p1 g) (mobs g) (animals g) (weapon_drops g)
        (health_packs g) (projectiles g) (paused g) (round_over g) v
        (running g) (vpad g).
Definition with_running (g : Game) (v : bool) : Game :=
  mkGame (theme g) (prev_theme g) (spawn_timer g) (spawn_interval_ms g)
        (animal_spawn_timer g) (animal_spawn_interval_ms g) (portal_n g)
        (portal_e g) (p1 g) (mobs g) (animals g) (weapon_drops g)
        (health_packs g) (projectiles g) (paused g) (round_over g)
        (end_boss_alive g) v (vpad g).
Definition with_vpad (g : Game) (v : VirtualPad) : Game :=
  mkGame (theme g) (prev_theme g) (spawn_timer g) (spawn_interval_ms g)
        (animal_spawn_timer g) (animal_spawn_interval_ms g) (portal_n g)
        (portal_e g) (p1 g) (mobs g) (animals g) (weapon_drops g)
        (health_packs g) (projectiles g) (paused g) (round_over g)
        (end_boss_alive g) (running g) v.

(** [Game.__init__]. *)
Definition Game_init : Game :=
  mkGame OVERWORLD OVERWORLD 0 1000 0 3500
         (mkRect 10 70 26 120) (mkRect (WIDTH - 36) 70 26 120)
         (Player_init (WIDTH / 2 - 20) (HEIGHT / 2))
         [] [] [] [] [] false false false true VirtualPad_init.

(** *** Spawning *)

Definition live_mob_count (g : Game) : Z := count_if m_alive (mobs g).

Definition current_pool (g : Game) : R (list MobKind) :=
  match theme g with
  | OVERWORLD => ret MOB_KINDS_OVER
  | NETHER =>
      k <- choice MOB_KINDS_OVER ;;
      ret (MOB_KINDS_NETH ++ match k with Some k => [k] | None => [] end)
  | END => ret MOB_KINDS_OVER
  end.

Definition SIDES : list string := ["top"; "bottom"; "left"; "right"]%string.

(** The spawn point on the chosen side of the arena. *)
Definition spawn_point (side : string) : R (Z * Z) :=
  if String.eqb side "top" then x <- randint 40 (WIDTH - 40) ;; ret (x, 72)
  else if String.eqb side "bottom"
  then x <- randint 40 (WIDTH - 40) ;; ret (x, HEIGHT - 40)
  else if String.eqb side "left"
  then y <- randint 80 (HEIGHT - 40) ;; ret (40, y)
  else y <- randint 80 (HEIGHT - 40) ;; ret (WIDTH - 60, y).

(** [Game.spawn_mob].  The two [None] branches stand for [random.choice]
    raising on an empty sequence, which does not happen: neither the pool
    nor the list of sides is empty. *)
Definition spawn_mob (g : Game) : R Game :=
  if MAX_LIVE_MOBS <=? live_mob_count g then ret g
  else
    pool <- current_pool g ;;
    kind <- choice pool ;;
    match kind with
    | None => ret g
    | Some kind =>
        side <- choice SIDES ;;
        match side with
        | None => ret g
        | Some side =>
            xy <- spawn_point side ;;
            ret (with_mobs g (mobs g ++ [Mob_init kind (fst xy) (snd xy)]))
        end
    end.

(** [Game.spawn_animal]. *)
Definition spawn_animal (g : Game) : R Game :=
  if MAX_ALIVE_ANIMALS <=? count_if a_alive (animals g) then ret g
  else
    kind <- choice ANIMALS ;;
    match kind with
    | None => ret g
    | Some kind =>
        x <- randint 60 (WIDTH - 80) ;;
        y <- randint 100 (HEIGHT - 80) ;;
        a <- Animal_init kind x y ;;
        ret (with_animals g (animals g ++ [a]))
    end.

(** [Game.spawn_boss]. *)
Definition spawn_boss (g : Game) : Game :=
  let g := with_end_boss_alive g true in
  let b := Mob_init BOSS_ENDER (WIDTH / 2 - 80) 120 in
  let b := m_with_rect b (set_size (m_rect b) 64 64) in
  with_mobs g (mobs g ++ [b]).

(** *** Combat / Damage *)

(** What [apply_damage] reads and writes on its target through [getattr],
    [hasattr] and [isinstance]. *)
Class Damageable (T : Type) : Type := {
  d_alive : T -> bool;
  d_hp : T -> Z;
  d_rect : T -> Rect;
  d_with_hp : T -> Z -> T;
  d_with_rect : T -> Rect -> T;
  d_with_alive : T -> bool -> T;
  (** [isinstance(t, Mob) and t.kind.color_key == "boss"] *)
  d_is_boss_mob : T -> bool
}.

#[export] Instance Damageable_Player : Damageable Player := {
  d_alive := p_alive; d_hp := p_hp; d_rect := p_rect;
  d_with_hp := p_with_hp; d_with_rect := p_with_rect;
  d_with_alive := p_with_alive;
  d_is_boss_mob := fun _ => false
}.

#[export] Instance Damageable_Mob : Damageable Mob := {
  d_alive := m_alive; d_hp := m_hp; d_rect := m_rect;
  d_with_hp := m_with_hp; d_with_rect := m_with_rect;
  d_with_alive := m_with_alive;
  d_is_boss_mob := fun m => is_boss_kind (m_kind m)
}.

#[export] Instance Damageable_Animal : Damageable Animal := {
  d_alive := a_alive; d_hp := a_hp; d_rect := a_rect;
  d_with_hp := a_with_hp; d_with_rect := a_with_rect;
  d_with_alive := a_with_alive;
  d_is_boss_mob := fun _ => false
}.

(** The knockback displacement [(int(kb.x), int(kb.y))] of a target
    centred at [target_center] hit from [src_center]. *)
Definition knockback (target_center src_center : Z * Z) : Z * Z :=
  let kb_dir := vsub (vec_of_point target_center) (vec_of_point src_center) in
  let kb_dir := if Qeq_bool (length_squared kb_dir) 0 then mkVector2 1 0
                else kb_dir in
  let kb := vscale (normalize kb_dir) (42 # 10) in
  (int_of_float (vx kb), int_of_float (vy kb)).

(** [Game.apply_damage(dmg_target, dmg_amount, src_center)].  Besides the
    target the method writes only [self.end_boss_alive], which is passed
    in and returned. *)
Definition apply_damage {T : Type} `{Damageable T} (end_boss : bool)
           (dmg_target : T) (dmg_amount : Z) (src_center : Z * Z) : T * bool :=
  if negb (d_alive dmg_target) then (dmg_target, end_boss)
  else
    let t := d_with_hp dmg_target (d_hp dmg_target - dmg_amount) in
    let kb := knockback (center (d_rect t)) src_center in
    let t := d_with_rect t (move_by (move_by (d_rect t) (fst kb) 0) 0 (snd kb)) in
    if d_hp t <=? 0
    then (d_with_alive t false, if d_is_boss_mob t then false else end_boss)
    else (t, end_boss).

(** A reference to an entity of the game: its position in [self.mobs] or
    in [self.animals]. *)
Inductive ObjRef : Type :=
| MobRef (pos : nat)
| AnimalRef (pos : nat).

(** The pairs appended to [targets_rects] and [index_to_obj] by one of the
    two loops of [hunter_melee] over the entities from position [pos]. *)
Fixpoint live_targets {A : Type} (alive : A -> bool) (rect : A -> Rect)
         (mk : nat -> ObjRef) (pos : nat) (l : list A)
  : list (option Rect * ObjRef) :=
  match l with
  | [] => []
  | x :: t =>
      if alive x
      then (Some (rect x), mk pos) :: live_targets alive rect mk (S pos) t
      else live_targets alive rect mk (S pos) t
  end.

(** The drop chance of a defeated non-boss mob. *)
Definition drop_chance (k : MobKind) : Q :=
  if String.eqb (mk_color_key k) "elite" then 10 # 100 else 5 # 100.

(** The body of the loop of [hunter_melee] on a mob. *)
Definition melee_mob (g : Game) (pos : nat) (obj : Mob) : R Game :=
  let '(obj, eb) := apply_damage (end_boss_alive g) obj (w_dmg (p_weapon (p1 g)))
                                 (center (p_rect (p1 g))) in
  let g := with_end_boss_alive (with_mobs g (set_nth (mobs g) pos obj)) eb in
  if negb (m_alive obj) then
    let g := with_p1 g (p_with_score (p1 g) (p_score (p1 g) + mk_score (m_kind obj))) in
    if negb (is_boss_kind (m_kind obj)) then
      u <- random_unit ;;
      if Qlt_bool u (drop_chance (m_kind obj)) then
        let rect := mkRect (centerx (m_rect obj) - 8) (centery (m_rect obj) - 8) 16 16 in
        ret (with_weapon_drops g (weapon_drops g ++ [(rect, ELITE_SWORD)]))
      else ret g
    else
      let rect := mkRect (centerx (m_rect obj) - 10) (centery (m_rect obj) - 10) 20 20 in
      ret (with_weapon_drops g (weapon_drops g ++ [(rect, BOSS_LOOT)]))
  else ret g.

(** The body of the loop of [hunter_melee] on an animal. *)
Definition melee_animal (g : Game) (pos : nat) (obj : Animal) : Game :=
  let '(obj, eb) := apply_damage (end_boss_alive g) obj (w_dmg (p_weapon (p1 g)))
                                 (center (p_rect (p1 g))) in
  let g := with_end_boss_alive (with_animals g (set_nth (animals g) pos obj)) eb in
  if negb (a_alive obj) then
    let rect := mkRect (centerx (a_rect obj) - 8) (centery (a_rect obj) - 8) 18 18 in
    with_health_packs g (health_packs g ++ [(rect, ak_heal_amount (a_kind obj))])
  else g.

(** One iteration of [for idx in hits_idx].  A missing index or position
    stands for an [IndexError] that cannot occur: the indices come from
    [try_attack] on the very list the references were built with. *)
Definition melee_hit (index_to_obj : list ObjRef) (g : Game) (idx : nat) : R Game :=
  match nth_error index_to_obj idx with
  | Some (MobRef pos) =>
      match nth_error (mobs g) pos with
      | Some obj => melee_mob g pos obj
      | None => ret g
      end
  | Some (AnimalRef pos) =>
      match nth_error (animals g) pos with
      | Some obj => ret (melee_animal g pos obj)
      | None => ret g
      end
  | None => ret g
  end.

Fixpoint melee_hits (index_to_obj : list ObjRef) (hits_idx : list nat) (g : Game)
  : R Game :=
  match hits_idx with
  | [] => ret g
  | idx :: rest =>
      g <- melee_hit index_to_obj g idx ;;
      melee_hits index_to_obj rest g
  end.

(** [Game.hunter_melee]; [now] is the [pygame.time.get_ticks()] read by
    [try_attack]. *)
Definition hunter_melee (g : Game) (now : Z) : R Game :=
  let targets := live_targets m_alive m_rect MobRef 0 (mobs g)
                 ++ live_targets a_alive a_rect AnimalRef 0 (animals g) in
  let targets_rects := map fst targets in
  let index_to_obj := map snd targets in
  let '(p, hits_idx) := try_attack (p1 g) now targets_rects in
  melee_hits index_to_obj hits_idx (with_p1 g p).

(** [Game.mobs_damage_p1_on_touch(mob_entity)]. *)
Definition mobs_damage_p1_on_touch (g : Game) (mob_entity : Mob) : Game :=
  if negb (m_alive mob_entity && p_alive (p1 g)) then g
  else if colliderect (m_rect mob_entity) (p_rect (p1 g)) then
    let '(p, eb) := apply_damage (end_boss_alive g) (p1 g)
                                 (mk_contact_dmg (m_kind mob_entity))
                                 (center (m_rect mob_entity)) in
    let g := with_end_boss_alive (with_p1 g p) eb in
    if p_hp (p1 g) <=? 0
    then with_round_over (with_p1 g (p_with_alive (p1 g) false)) true
    else g
  else g.

(** *** Healing *)

(** The loop of [try_pick_health] over the snapshot
    [list(enumerate(self.health_packs))] from index [i]; [who] is
    [self.p1]. *)
Fixpoint try_pick_health_from (snapshot : list (Rect * Z)) (i : nat) (g : Game)
  : Outcome Game :=
  match snapshot with
  | [] => Ok g
  | (r, amount) :: rest =>
      if p_alive (p1 g) && colliderect (p_rect (p1 g)) r then
        let who := p1 g in
        let g := with_p1 g (p_with_hp who (clamp (p_hp who + amount) 0 (p_max_hp who))) in
        match pop (health_packs g) i with
        | Some l => try_pick_health_from rest (S i) (with_health_packs g l)
        | None => IndexError g
        end
      else try_pick_health_from rest (S i) g
  end.

(** [Game.try_pick_health(self.p1)]. *)
Definition try_pick_health (g : Game) : Outcome Game :=
  try_pick_health_from (health_packs g) 0 g.

(** *** Archery *)

(** [Game.try_skeleton_shoot(m, now_ms)]: the mob as mutated, and the game
    with the new arrow. *)
Definition try_skeleton_shoot (g : Game) (m : Mob) (now_ms : Z) : Game * Mob :=
  if negb (m_is_archer m && (0 <? m_shots_left m) && p_alive (p1 g)) then (g, m)
  else if distance_gt (center (m_rect m)) (center (p_rect (p1 g))) (m_shot_range m)
  then (g, m)
  else if now_ms - m_last_shot_time m <? m_shot_cooldown_ms m then (g, m)
  else
    let m := m_with_shot m now_ms (m_shots_left m - 1) in
    let origin := vec_of_point (center (m_rect m)) in
    let target := vec_of_point (center (p_rect (p1 g))) in
    let dirv := vsub target origin in
    let dirv := if Qeq_bool (length_squared dirv) 0 then mkVector2 1 0 else dirv in
    let dirv := vscale (normalize dirv) 5 in
    (with_projectiles g (projectiles g
        ++ [Arrow_init (vx origin) (vy origin) (vx dirv) (vy dirv) 12]), m).

(** The live list [self.projectiles] during [update_projectiles]: each
    arrow with its index in the snapshot. *)
Definition Tagged : Type := list (nat * Arrow).

Fixpoint tag_from (i : nat) (l : list Arrow) : Tagged :=
  match l with
  | [] => []
  | a :: t => (i, a) :: tag_from (S i) t
  end.

(** Mutation of the arrow of snapshot index [i], seen through the live
    list when the arrow is still in it. *)
Definition mutate (live : Tagged) (i : nat) (a : Arrow) : Tagged :=
  map (fun e => if Nat.eqb (fst e) i then (i, a) else e) live.

(** The loop of [update_projectiles] over the snapshot from index [i].
    The [projectiles] field of the game is written when the loop ends. *)
Fixpoint update_projectiles_from (snapshot : list Arrow) (i : nat) (dt : Z)
         (live : Tagged) (g : Game) : Outcome (Tagged * Game) :=
  match snapshot with
  | [] => Ok (live, g)
  | pr :: rest =>
      if negb (ar_alive pr) then
        match pop live i with
        | Some live => update_projectiles_from rest (S i) dt live g
        | None => IndexError (live, g)
        end
      else
        let pr := Arrow_update pr dt in
        let live := mutate live i pr in
        if negb (ar_alive pr) then
          match pop live i with
          | Some live => update_projectiles_from rest (S i) dt live g
          | None => IndexError (live, g)
          end
        else if p_alive (p1 g) && colliderect (ar_rect pr) (p_rect (p1 g)) then
          let '(p, eb) := apply_damage (end_boss_alive g) (p1 g) (ar_dmg pr)
                                       (center (ar_rect pr)) in
          let g := with_end_boss_alive (with_p1 g p) eb in
          let live := mutate live i (ar_with_alive pr false) in
          match pop live i with
          | Some live =>
              let g := if p_hp (p1 g) <=? 0 then with_round_over g true else g in
              update_projectiles_from rest (S i) dt live g
          | None => IndexError (live, g)
          end
        else update_projectiles_from rest (S i) dt live g
  end.

Definition close_projectiles (s : Tagged * Game) : Game :=
  with_projectiles (snd s) (map snd (fst s)).

(** [Game.update_projectiles(dt)]. *)
Definition update_projectiles (g : Game) (dt : Z) : Outcome Game :=
  match update_projectiles_from (projectiles g) 0 dt (tag_from 0 (projectiles g)) g with
  | Ok s => Ok (close_projectiles s)
  | IndexError s => IndexError (close_projectiles s)
  end.

(** *** Theme transitions *)

Definition not_boss (m : Mob) : bool := negb (is_boss_kind (m_kind m)).

(** [Game._handle_theme_transitions]. *)
Definition handle_theme_transitions (g : Game) : Game :=
  if negb (Theme_eqb (theme g) (prev_theme g)) then
    let g := if Theme_eqb (prev_theme g) END && negb (Theme_eqb (theme g) END)
             then with_mobs (with_end_boss_alive g false) (filter not_boss (mobs g))
             else g in
    let g := if Theme_eqb (theme g) END
             then spawn_boss (with_mobs (with_end_boss_alive g false)
                                        (filter not_boss (mobs g)))
             else g in
    with_prev_theme g (theme g)
  else g.

(** *** Update / Events *)

(** What one call of [update] reads from pygame: the keyboard, the mouse
    and the two readings of the clock. *)
Record Inputs : Type := mkInputs {
  key_d : bool; key_a : bool; key_s : bool; key_w : bool;
  key_lshift : bool; key_rshift : bool; key_e : bool;
  mouse_left : bool;
  ticks_attack : Z;
  ticks_ai : Z
}.

(** [Game.restart]. *)
Definition restart (g : Game) : Game := Game_init.

(** The loop [for m in self.mobs] of [update] over the mobs from position
    [pos]; each mob is mutated in place. *)
Fixpoint update_mobs_from (todo : list Mob) (pos : nat) (now_ms : Z) (g : Game)
  : Game :=
  match todo with
  | [] => g
  | m :: rest =>
      if negb (m_alive m) then update_mobs_from rest (S pos) now_ms g
      else
        let m := Mob_ai m (center (p_rect (p1 g))) in
        let g := with_mobs g (set_nth (mobs g) pos m) in
        let g := mobs_damage_p1_on_touch g m in
        let '(g, m) := try_skeleton_shoot g m now_ms in
        let g := with_mobs g (set_nth (mobs g) pos m) in
        update_mobs_from rest (S pos) now_ms g
  end.

Definition update_mobs (g : Game) (now_ms : Z) : Game :=
  update_mobs_from (mobs g) 0 now_ms g.

(** The loop [for a in self.animals] of [update]. *)
Fixpoint animals_ai (l : list Animal) : R (list Animal) :=
  match l with
  | [] => ret []
  | a :: rest =>
      a <- (if negb (a_alive a) then ret a else Animal_ai a) ;;
      rest <- animals_ai rest ;;
      ret (a :: rest)
  end.

Definition update_animals (g : Game) : R Game :=
  l <- animals_ai (animals g) ;; ret (with_animals g l).

(** The loot loop of [update] over the snapshot
    [list(enumerate(self.weapon_drops))] from index [i]. *)
Fixpoint pick_weapons_from (snapshot : list (Rect * Weapon)) (i : nat) (g : Game)
  : Outcome Game :=
  match snapshot with
  | [] => Ok g
  | (r, wpn) :: rest =>
      if colliderect (p_rect (p1 g)) r then
        let g := with_p1 g (p_with_weapon (p1 g) wpn) in
        match pop (weapon_drops g) i with
        | Some l => pick_weapons_from rest (S i) (with_weapon_drops g l)
        | None => IndexError g
        end
      else pick_weapons_from rest (S i) g
  end.

Definition pick_weapons (g : Game) : Outcome Game :=
  pick_weapons_from (weapon_drops g) 0 g.

(** The end of [update]: dead mobs and animals leave their lists. *)
Definition cleanup (g : Game) : Game :=
  with_animals (with_mobs g (filter m_alive (mobs g))) (filter a_alive (animals g)).

(** Sequencing of the steps of a method after which an [IndexError]
    propagates to the caller. *)
Definition and_then {A B : Type} (o : Outcome A) (k : A -> Outcome B)
           (raise_ : A -> B) : Outcome B :=
  match o with
  | Ok a => k a
  | IndexError a => IndexError (raise_ a)
  end.

(** The movement and attack part of [update]. *)
Definition update_player (g : Game) (inp : Inputs) : R Game :=
  let k_dx := is_down (key_d inp) - is_down (key_a inp) in
  let k_dy := is_down (key_s inp) - is_down (key_w inp) in
  let k_dash := negb ((is_down (key_lshift inp) =? 0)
                      && (is_down (key_rshift inp) =? 0)) in
  let v_dx := vx (move_vec (vpad g)) in
  let v_dy := vy (move_vec (vpad g)) in
  let v_dash := dash_pressed (vpad g) in
  let '(dx, dy) := if Qlt_bool 0 (Qabs v_dx + Qabs v_dy) then (v_dx, v_dy)
                   else (inject_Z k_dx, inject_Z k_dy) in
  let g := with_p1 g (Player_move (p1 g) dx dy (v_dash || k_dash)) in
  let mouse_attack := mouse_left inp in
  let key_attack := is_down (key_e inp) =? 1 in
  let '(vp, touch_attack) := consume_attack_tap (vpad g) in
  let g := with_vpad g vp in
  if mouse_attack || key_attack || touch_attack
  then hunter_melee g (ticks_attack inp)
  else ret g.

(** The portal part of [update]. *)
Definition update_portals (g : Game) : Game :=
  let g := if colliderect (p_rect (p1 g)) (portal_n g) then with_theme g NETHER else g in
  let g := if colliderect (p_rect (p1 g)) (portal_e g) then with_theme g END else g in
  handle_theme_transitions g.

(** The spawn part of [update]. *)
Definition update_spawns (g : Game) (dt : Z) : R Game :=
  let g := with_spawn_timer g (spawn_timer g + dt) in
  let interval := spawn_interval_ms g in
  let interval := if Theme_eqb (theme g) NETHER
                  then int_of_float (inject_Z interval * (85 # 100)) else interval in
  let interval := if Theme_eqb (theme g) END
                  then int_of_float (inject_Z interval * (90 # 100)) else interval in
  g <- (if interval <=? spawn_timer g
        then spawn_mob (with_spawn_timer g 0) else ret g) ;;
  let g := with_animal_spawn_timer g (animal_spawn_timer g + dt) in
  if animal_spawn_interval_ms g <=? animal_spawn_timer g
  then spawn_animal (with_animal_spawn_timer g 0)
  else ret g.

(** The loot, healing, projectile and cleanup part of [update]. *)
Definition update_pickups (g : Game) (dt : Z) : Outcome Game :=
  and_then (pick_weapons g) (fun g =>
  and_then (try_pick_health g) (fun g =>
  and_then (update_projectiles g dt) (fun g => Ok (cleanup g)) id) id) id.

(** [Game.update(dt)]. *)
Definition update (inp : Inputs) (dt : Z) (g : Game) : R (Outcome Game) :=
  if paused g || round_over g then ret (Ok g)
  else
    g <- update_player g inp ;;
    let g := update_portals g in
    g <- update_spawns g dt ;;
    let g := update_mobs g (ticks_ai inp) in
    g <- update_animals g ;;
    ret (update_pickups g dt).

(** The body of the loop of [Game.handle_events] on one event. *)
Definition handle_event (g : Game) (e : Event) : Game :=
  let g := with_vpad g (VirtualPad_handle_event (vpad g) e) in
  match e with
  | QUIT => with_running g false
  | KEYDOWN K_ESCAPE => with_running g false
  | KEYDOWN K_p => with_paused g (negb (paused g))
  | KEYDOWN K_r => if round_over g then restart g else g
  | KEYDOWN K_1 => handle_theme_transitions (with_theme g OVERWORLD)
  | KEYDOWN K_2 => handle_theme_transitions (with_theme g NETHER)
  | KEYDOWN K_3 => handle_theme_transitions (with_theme g END)
  | _ => g
  end.

(** [Game.handle_events] on the events pending at the start of a frame. *)
Definition handle_events (g : Game) (pending : list Event) : Game :=
  fold_left handle_event pending g.

(** One turn of the main loop: the pending events, then [update]; an
    exception raised by [update] is caught and the loop goes on with the
    state as it is. *)
Definition frame (pending : list Event) (inp : Inputs) (dt : Z) (g : Game)
  : R Game :=
  o <- update inp dt (handle_events g pending) ;; ret (outcome_state o).

(** The states of the game at the end of a turn of the main loop, which
    turns for as long as [running] holds. *)
Inductive reachable : Game -> Prop :=
| reach_init : reachable Game_init
| reach_frame (g : Game) (pending : list Event) (inp : Inputs) (dt : Z) (r : Rng) :
    reachable g -> running g = true ->
    reachable (fst (frame pending inp dt g r)).

(* ------------------------------------------------------------------ *)
(** ** Scenes *)

(** No key, no button, the clock at zero. *)
Definition idle : Inputs :=
  mkInputs false false false false false false false false 0 0.

(** A generator whose every raw draw is 2: the third kind of a pool, the
    third side, the third animal. *)
Definition steady_rng : Rng := mkRng (fun _ => 2) 0.

(** [n] turns of the main loop from the start of a round, one second
    apart, without any input. *)
Fixpoint slow_frames (n : nat) : Game :=
  match n with
  | O => Game_init
  | S k => fst (frame [] idle 1000 (slow_frames k) steady_rng)
  end.

(** A 26th turn in which the key 3 was pressed. *)
Definition crowded_end : Game :=
  fst (frame [KEYDOWN K_3] idle 1000 (slow_frames 25) steady_rng).

(** The start of a round with the End Sword in hand and a Diamond Sword
    lying under the player. *)
Definition sword_underfoot : Game :=
  with_weapon_drops
    (with_p1 Game_init (p_with_weapon (p1 Game_init) BOSS_LOOT))
    [(mkRect 485 325 16 16, ELITE_SWORD)].

(** A wounded player standing on two health packs, a third one lying far
    away. *)
Definition three_packs : Game :=
  with_health_packs
    (with_p1 Game_init (p_with_hp (p1 Game_init) 40))
    [(mkRect 478 318 18 18, 15); (mkRect 490 330 18 18, 25);
     (mkRect 100 100 18 18, 35)].

(** The same player on two health packs and nothing else on the ground. *)
Definition two_packs : Game :=
  with_health_packs
    (with_p1 Game_init (p_with_hp (p1 Game_init) 40))
    [(mkRect 478 318 18 18, 15); (mkRect 490 330 18 18, 25)].

(** Three arrows in flight at the start of a round: one about to leave
    the screen on the right, one about to hit the player, one flying down
    the left of the arena. *)
Definition arrow_leaving : Arrow := Arrow_init (inject_Z 1002) (inject_Z 300) 5 0 12.
Definition arrow_hitting : Arrow := Arrow_init (inject_Z 480) (inject_Z 333) 5 0 12.
Definition arrow_flying : Arrow := Arrow_init (inject_Z 200) (inject_Z 200) 0 5 12.

Definition volley : Game :=
  with_projectiles Game_init [arrow_leaving; arrow_hitting; arrow_flying].

(** Two arrows that leave the screen in the same frame. *)
Definition two_leaving : Game :=
  with_projectiles Game_init
    [arrow_leaving; Arrow_init (inject_Z 1001) (inject_Z 400) 5 0 12].

(* ------------------------------------------------------------------ *)
(** ** Observations *)

(** Two states in which the player is as well: the same hit points, the
    same [alive] flag, the same [round_over]. *)
Definition same_health (g g' : Game) : Prop :=
  p_hp (p1 g') = p_hp (p1 g)
  /\ p_alive (p1 g') = p_alive (p1 g)
  /\ round_over g' = round_over g.

(** The theme a number key stands for. *)
Definition theme_of_key (k : Key) : option Theme :=
  match k with
  | K_1 => Some OVERWORLD
  | K_2 => Some NETHER
  | K_3 => Some END
  | _ => None
  end.

(** The number of boss mobs in the game, alive or dead. *)
Definition boss_count (g : Game) : Z :=
  count_if (fun m => is_boss_kind (m_kind m)) (mobs g).

(** An arrow that is in flight before and after this frame's
    [Arrow.update] and does not hit the player [p]. *)
Definition flies_on (p : Player) (dt : Z) (a : Arrow) : bool :=
  ar_alive a && ar_alive (Arrow_update a dt)
  && negb (p_alive p && colliderect (ar_rect (Arrow_update a dt)) (p_rect p)).

(* ------------------------------------------------------------------ *)
(** ** The invariant of the main loop *)

(** A live mob that is not a boss: what the periodic spawning adds. *)
Definition live_nonboss (m : Mob) : bool := m_alive m && not_boss m.

(** What a frame may do to a mob that stays in the list: the kind is kept
    and a dead mob stays dead. *)
Definition mob_fades (m m' : Mob) : Prop :=
  m_kind m' = m_kind m /\ (m_alive m' = true -> m_alive m = true).

(** The same for an animal. *)
Definition animal_fades (a a' : Animal) : Prop :=
  a_alive a' = true -> a_alive a = true.

(** Every arrow in flight is a skeleton's arrow of damage 12. *)
Definition arrows_ok (l : list Arrow) : Prop := Forall (fun a => ar_dmg a = 12) l.

(** A step of the game that adds no mob and no animal and leaves the
    theme alone. *)
Definition quiet_step (g g' : Game) : Prop :=
  theme g' = theme g /\ prev_theme g' = prev_theme g
  /\ Forall2 mob_fades (mobs g) (mobs g')
  /\ Forall2 animal_fades (animals g) (animals g')
  /\ (arrows_ok (projectiles g) -> arrows_ok (projectiles g')).

(** What holds of the game at the end of every turn of the main loop. *)
Definition game_invariant (g : Game) : Prop :=
  theme g = prev_theme g
  /\ count_if a_alive (animals g) <= MAX_ALIVE_ANIMALS
  /\ boss_count g <= 1
  /\ count_if live_nonboss (mobs g) <= MAX_LIVE_MOBS
  /\ arrows_ok (projectiles g).

(** The shots the mobs of a list have left, all together. *)
Definition total_shots (l : list Mob) : Z :=
  fold_right (fun m s => m_shots_left m + s) 0 l.

(** What a frame may do to the shots of a mob: they are spent one by one
    and never below zero. *)
Definition shots_spent (m m' : Mob) : Prop :=
  m_shots_left m' <= m_shots_left m
  /\ (0 <= m_shots_left m -> 0 <= m_shots_left m').


(** A script of turns of the main loop: the pending events, the inputs,
    the time since the last turn and the random draws of each. *)
Definition Script : Type := list (list Event * Inputs * Z * Rng).

Fixpoint run_frames (script : Script) (g : Game) : Game :=
  match script with
  | [] => g
  | (pending, inp, dt, r) :: rest =>
      run_frames rest (fst (frame pending inp dt g r))
  end.

(** The main loop was running before each turn of the script. *)
Fixpoint runs_on (script : Script) (g : Game) : bool :=
  match script with
  | [] => true
  | (pending, inp, dt, r) :: rest =>
      running g && runs_on rest (fst (frame pending inp dt g r))
  end.

(** A second of waiting, in which a skeleton spawns on the right, and
    then forty frames of dashing to the right, towards it. *)
Definition dash_right : Inputs :=
  mkInputs true false false false true false false false 5000 5000.

Definition skirmish_script : Script :=
  ([], idle, 1000, mkRng (fun _ => 3) 0)
    :: repeat ([], dash_right, 16, mkRng (fun _ => 3) 0) 40.

Definition skirmish : Game := run_frames skirmish_script Game_init.

(* ================================================================== *)
(** * Properties *)

(** The float arithmetic is kept folded in the proofs below. *)
Arguments knockback : simpl never.
Arguments normalize : simpl never.
Arguments vlength : simpl never.
Arguments length_squared : simpl never.
Arguments sqrt_float : simpl never.
Arguments int_of_float : simpl never.
Arguments vec : simpl never.
Arguments vadd : simpl never.
Arguments vsub : simpl never.
Arguments vscale : simpl never.
Arguments Qred : simpl never.
Arguments Qle_bool : simpl never.
Arguments Qeq_bool : simpl never.
Arguments Z.mul : simpl never.
Arguments Z.add : simpl never.
Arguments Z.sub : simpl never.
Arguments Z.quot : simpl never.
Arguments Z.leb : simpl never.
Arguments Z.ltb : simpl never.
Arguments Z.eqb : simpl never.

(** Reduction of the record projections over the record updates only. *)
Ltac game_cbn :=
  cbn [fst snd negb andb orb Theme_eqb
       theme prev_theme spawn_timer spawn_interval_ms animal_spawn_timer
       animal_spawn_interval_ms portal_n portal_e p1 mobs animals weapon_drops
       health_packs projectiles paused round_over end_boss_alive running vpad
       with_theme with_prev_theme with_spawn_timer with_animal_spawn_timer
       with_p1 with_mobs with_animals with_weapon_drops with_health_packs
       with_projectiles with_paused with_round_over with_end_boss_alive
       with_running with_vpad
       p_rect p_max_hp p_hp p_spd p_dash_spd p_weapon p_last_attack p_score
       p_alive p_slash_timer p_slash_radius
       p_with_rect p_with_hp p_with_alive p_with_weapon p_with_score
       p_with_slash_timer p_with_attack
       d_alive d_hp d_rect d_with_hp d_with_rect d_with_alive d_is_boss_mob
       Damageable_Player Damageable_Mob Damageable_Animal].

Ltac game_cbn_in H :=
  cbn [fst snd negb andb orb Theme_eqb
       theme prev_theme spawn_timer spawn_interval_ms animal_spawn_timer
       animal_spawn_interval_ms portal_n portal_e p1 mobs animals weapon_drops
       health_packs projectiles paused round_over end_boss_alive running vpad
       with_theme with_prev_theme with_spawn_timer with_animal_spawn_timer
       with_p1 with_mobs with_animals with_weapon_drops with_health_packs
       with_projectiles with_paused with_round_over with_end_boss_alive
       with_running with_vpad
       p_rect p_max_hp p_hp p_spd p_dash_spd p_weapon p_last_attack p_score
       p_alive p_slash_timer p_slash_radius
       p_with_rect p_with_hp p_with_alive p_with_weapon p_with_score
       p_with_slash_timer p_with_attack
       d_alive d_hp d_rect d_with_hp d_with_rect d_with_alive d_is_boss_mob
       Damageable_Player Damageable_Mob Damageable_Animal] in H.

(** ** Records and their updates *)

Lemma Theme_eqb_eq (a b : Theme) : Theme_eqb a b = true <-> a = b.
Proof. destruct a, b; simpl; split; congruence. Qed.

Lemma Theme_eqb_neq (a b : Theme) : Theme_eqb a b = false <-> a <> b.
Proof. destruct a, b; simpl; split; congruence. Qed.

(** ** Theme transitions *)

(** The boss that [spawn_boss] appends. *)
Lemma spawn_boss_mobs (g : Game) :
  exists b : Mob,
    m_kind b = BOSS_ENDER /\ m_alive b = true /\ m_hp b = mk_hp BOSS_ENDER
    /\ mobs (spawn_boss g) = mobs g ++ [b].
Proof.
  eexists; repeat split; try reflexivity.
Qed.

(** C2. When [theme] differs from [prev_theme], [_handle_theme_transitions]
    on entering the End removes every boss mob, appends exactly one new
    Ender Dragon and leaves [end_boss_alive] true; on leaving the End it
    removes every boss mob and leaves [end_boss_alive] false; in both
    cases [prev_theme] equals [theme] afterwards.  When [theme] equals
    [prev_theme] the call changes nothing. *)
Theorem handle_theme_transitions_spec (g : Game) :
  let g' := handle_theme_transitions g in
  (theme g <> prev_theme g ->
     (theme g = END ->
        exists b : Mob,
          m_kind b = BOSS_ENDER /\ m_alive b = true
          /\ mobs g' = filter not_boss (mobs g) ++ [b]
          /\ end_boss_alive g' = true)
     /\ (prev_theme g = END -> theme g <> END ->
           mobs g' = filter not_boss (mobs g) /\ end_boss_alive g' = false)
     /\ prev_theme g' = theme g' /\ theme g' = theme g)
  /\ (theme g = prev_theme g -> g' = g).
Proof.
  intros g'; subst g'; unfold handle_theme_transitions; split.
  - intros Hne. apply Theme_eqb_neq in Hne. rewrite Hne; simpl.
    destruct g as [th pth st si ast asi pn pe p ms an wd hp pr pa ro eb ru vp].
    simpl in *.
    destruct th, pth; simpl in *; try discriminate; repeat split;
      try congruence; intros; try discriminate; try congruence;
      eexists; repeat split; reflexivity.
  - intros Heq. apply Theme_eqb_eq in Heq. rewrite Heq. reflexivity.
Qed.

(** Both cases of C2 at work: entering the End from the Overworld with an
    old boss in the list, and a call without a change of theme. *)
Lemma handle_theme_transitions_witness :
  let old_boss := Mob_init BOSS_ENDER 10 10 in
  let zombie := Mob_init (mkMobKind "Zombie" 45 (14 # 10) 12 "mob" 8) 50 90 in
  let g := with_theme (with_mobs Game_init [old_boss; zombie]) END in
  (exists b : Mob,
     m_kind b = BOSS_ENDER /\ m_alive b = true
     /\ mobs (handle_theme_transitions g) = filter not_boss (mobs g) ++ [b]
     /\ end_boss_alive (handle_theme_transitions g) = true)
  /\ handle_theme_transitions Game_init = Game_init.
Proof.
  intros old_boss zombie g.
  destruct (handle_theme_transitions_spec g) as [Hd _].
  destruct (handle_theme_transitions_spec Game_init) as [_ He].
  split.
  - destruct Hd as [Hend _]; [discriminate|].
    exact (Hend eq_refl).
  - apply He. reflexivity.
Defined.

(** ** Contact damage *)

(** [apply_damage] on a live player: the hit points drop by the amount,
    the rect is displaced by the knockback, and the player dies at zero. *)
Lemma apply_damage_player (eb : bool) (p : Player) (amount : Z) (src : Z * Z) :
  p_alive p = true ->
  let kb := knockback (center (p_rect p)) src in
  let p' := fst (apply_damage eb p amount src) in
  p_hp p' = p_hp p - amount
  /\ p_rect p' = move_by (move_by (p_rect p) (fst kb) 0) 0 (snd kb)
  /\ p_alive p' = negb (p_hp p - amount <=? 0)
  /\ p_max_hp p' = p_max_hp p /\ p_weapon p' = p_weapon p
  /\ p_score p' = p_score p
  /\ snd (apply_damage eb p amount src) = eb.
Proof.
  intros Ha. cbv zeta. unfold apply_damage.
  change (d_alive p) with (p_alive p). rewrite Ha. game_cbn.
  destruct (p_hp p - amount <=? 0); game_cbn; repeat split; auto.
Qed.

Lemma apply_damage_dead {T : Type} `{Damageable T} (eb : bool) (t : T)
      (amount : Z) (src : Z * Z) :
  d_alive t = false -> apply_damage eb t amount src = (t, eb).
Proof. intros Ha. unfold apply_damage. rewrite Ha. reflexivity. Qed.

(** *** The knockback in integer arithmetic *)

(** [int] of a float depends on its value only, not on the fraction that
    represents it. *)
Lemma int_of_float_comp (q q' : Q) :
  (q == q')%Q -> int_of_float q = int_of_float q'.
Proof.
  unfold Qeq, int_of_float. intros H.
  rewrite <- (Z.quot_mul_cancel_r (Qnum q) (Zpos (Qden q)) (Zpos (Qden q')))
    by discriminate.
  rewrite H.
  rewrite (Z.mul_comm (Zpos (Qden q)) (Zpos (Qden q'))).
  apply Z.quot_mul_cancel_r; discriminate.
Qed.

(** The square root of an integer-valued float. *)
Lemma sqrt_float_int (q : Q) (n : Z) :
  (q == inject_Z n)%Q ->
  sqrt_float q
  = Qred (Qmake (Z.sqrt (n * (SQRT_DIGITS * SQRT_DIGITS)))
                (Z.to_pos SQRT_DIGITS)).
Proof.
  intros H. unfold sqrt_float. f_equal. f_equal. f_equal.
  assert (E : (q * inject_Z (SQRT_DIGITS * SQRT_DIGITS)
               == inject_Z (n * (SQRT_DIGITS * SQRT_DIGITS)))%Q).
  { rewrite H. rewrite inject_Z_mult. reflexivity. }
  rewrite (Qfloor_comp _ _ E). apply Qfloor_Z.
Qed.

Lemma SQRT_DIGITS_pos : Zpos (Z.to_pos SQRT_DIGITS) = SQRT_DIGITS.
Proof. reflexivity. Qed.

(** [length_squared] of a vector with integer components. *)
Lemma length_squared_int (v : Vector2) (dx dy : Z) :
  (vx v == inject_Z dx)%Q -> (vy v == inject_Z dy)%Q ->
  (length_squared v == inject_Z (dx * dx + dy * dy))%Q.
Proof.
  intros Hx Hy. unfold length_squared. rewrite Qred_correct, Hx, Hy.
  rewrite inject_Z_plus, !inject_Z_mult. reflexivity.
Qed.

(** The scaled unit vector of an integer displacement, truncated: both
    components as integer quotients. *)
Lemma kb_component (x : Q) (d s : Z) :
  (x == inject_Z d)%Q -> 0 < s ->
  int_of_float
    (Qred (Qred (x / Qred (Qmake s (Z.to_pos SQRT_DIGITS))) * (42 # 10)))
  = Z.quot (42 * d * SQRT_DIGITS) (10 * s).
Proof.
  intros Hx Hs.
  destruct s as [| s | s]; try lia.
  transitivity (int_of_float (Qmake (42 * d * SQRT_DIGITS) (10 * s))).
  - apply int_of_float_comp.
    rewrite !Qred_correct, Hx.
    unfold Qeq, Qdiv, Qmult, Qinv, inject_Z.
    cbn [Qnum Qden]. rewrite !Pos2Z.inj_mul, SQRT_DIGITS_pos. 
    cbn [Z.mul Pos.mul]. lia.
  - unfold int_of_float. cbn [Qnum Qden]. rewrite Pos2Z.inj_mul. reflexivity.
Qed.

(** A component of 4.2 times a unit vector, truncated, lies between 0 and
    4 when it points in the positive direction, and is at least 2 when it
    is the larger of the two. *)
Lemma knockback_quot_nonneg (d e P : Z) :
  0 < P -> 0 <= d -> d <> 0 \/ e <> 0 ->
  let s := Z.sqrt ((d * d + e * e) * (P * P)) in
  let k := Z.quot (42 * d * P) (10 * s) in
  0 < s /\ 0 <= k <= 4 /\ (Z.abs e <= d -> 2 <= k).
Proof.
  intros HP Hd Hne s k.
  assert (HM : 0 <= (d * d + e * e) * (P * P)) by nia.
  pose proof (Z.sqrt_spec _ HM) as [Hlo Hhi]. fold s in Hlo, Hhi.
  assert (Hs0 : 0 <= s) by apply Z.sqrt_nonneg.
  assert (HPs : P <= s).
  { apply Z.sqrt_le_square; [exact HM | lia |]. 
    assert (1 <= d * d + e * e) by nia. nia. }
  assert (Hds : d * P <= s).
  { apply Z.sqrt_le_square; [exact HM | nia |]. nia. }
  assert (Hk : k = (42 * d * P) / (10 * s)).
  { unfold k. apply Z.quot_div_nonneg; nia. }
  split; [lia |]. rewrite Hk. split; [split |].
  - apply Z.div_pos; nia.
  - apply Z.lt_succ_r. apply Z.div_lt_upper_bound; nia.
  - intros He. apply Z.div_le_lower_bound; [lia |].
    assert (Hee : e * e <= d * d) by nia.
    assert (Hsq : s * s <= 2 * (d * P) * (d * P)) by nia.
    assert (H20 : (20 * s) * (20 * s) <= (42 * d * P) * (42 * d * P)) by nia.
    apply Z.square_le_simpl_nonneg in H20; [lia | nia].
Qed.

(** The same for either sign of the component. *)
Lemma knockback_quot_bounds (d e P : Z) :
  0 < P -> d <> 0 \/ e <> 0 ->
  let s := Z.sqrt ((d * d + e * e) * (P * P)) in
  let k := Z.quot (42 * d * P) (10 * s) in
  0 < s /\ -4 <= k <= 4 /\ 0 <= k * d /\ (Z.abs e <= Z.abs d -> 2 <= Z.abs k).
Proof.
  intros HP Hne s k.
  destruct (Z_le_gt_dec 0 d) as [Hd | Hd].
  - destruct (knockback_quot_nonneg d e P HP Hd Hne) as (Hs & Hk & H2).
    fold s in Hs, Hk, H2. fold k in Hk, H2.
    split; [exact Hs |]. split; [lia |]. split; [nia |].
    intros He. rewrite (Z.abs_eq d) in He by lia. specialize (H2 He). lia.
  - assert (Hne' : - d <> 0 \/ e <> 0) by lia.
    assert (Hd' : 0 <= - d) by lia.
    destruct (knockback_quot_nonneg (- d) e P HP Hd' Hne') as (Hs & Hk & H2).
    replace (- d * - d) with (d * d) in Hs, Hk, H2 by ring.
    fold s in Hs, Hk, H2.
    replace (42 * - d * P) with (- (42 * d * P)) in Hk, H2 by ring.
    rewrite Z.quot_opp_l in Hk, H2 by lia. fold k in Hk, H2.
    split; [exact Hs |]. split; [lia |]. split; [nia |].
    intros He. rewrite (Z.abs_neq d) in He by lia. specialize (H2 He). lia.
Qed.

(** [knockback] in integer arithmetic: [(4, 0)] when the two centres
    coincide, otherwise 4.2 times the unit vector from the source to the
    target, each component truncated toward zero. *)
Lemma knockback_eq (tc sc : Z * Z) :
  let dx := fst tc - fst sc in
  let dy := snd tc - snd sc in
  let s := Z.sqrt ((dx * dx + dy * dy) * 10 ^ 30) in
  knockback tc sc
  = if (dx =? 0) && (dy =? 0) then (4, 0)
    else (Z.quot (42 * dx * 10 ^ 15) (10 * s),
          Z.quot (42 * dy * 10 ^ 15) (10 * s)).
Proof.
  intros dx dy s. unfold knockback.
  set (v := vsub (vec_of_point tc) (vec_of_point sc)).
  assert (Hx : (vx v == inject_Z dx)%Q).
  { unfold v, vsub, vec, vec_of_point. cbn [vx vy]. rewrite Qred_correct.
    unfold dx, Z.sub. rewrite inject_Z_plus, inject_Z_opp. reflexivity. }
  assert (Hy : (vy v == inject_Z dy)%Q).
  { unfold v, vsub, vec, vec_of_point. cbn [vx vy]. rewrite Qred_correct.
    unfold dy, Z.sub. rewrite inject_Z_plus, inject_Z_opp. reflexivity. }
  pose proof (length_squared_int v dx dy Hx Hy) as HN.
  destruct ((dx =? 0) && (dy =? 0)) eqn:Hz.
  - apply andb_true_iff in Hz. destruct Hz as [Zx Zy].
    apply Z.eqb_eq in Zx, Zy. rewrite Zx, Zy in HN.
    assert (E : Qeq_bool (length_squared v) 0 = true).
    { apply Qeq_bool_iff. rewrite HN. reflexivity. }
    cbv zeta. rewrite E. vm_compute. reflexivity.
  - assert (Hne : dx <> 0 \/ dy <> 0).
    { apply andb_false_iff in Hz. destruct Hz as [Z1 | Z1];
        apply Z.eqb_neq in Z1; [left | right]; exact Z1. }
    assert (HNpos : 0 < dx * dx + dy * dy) by nia.
    assert (E : Qeq_bool (length_squared v) 0 = false).
    { destruct (Qeq_bool (length_squared v) 0) eqn:Eb; [| reflexivity].
      apply Qeq_bool_iff in Eb. rewrite HN in Eb.
      unfold Qeq, inject_Z in Eb. cbn [Qnum Qden] in Eb. lia. }
    cbv zeta. rewrite E.
    destruct (knockback_quot_bounds dx dy SQRT_DIGITS eq_refl Hne) as (Hs & _).
    change (SQRT_DIGITS * SQRT_DIGITS) with (10 ^ 30) in Hs |- *.
    unfold vscale, normalize, vlength, vec. cbn [vx vy].
    rewrite (sqrt_float_int _ _ HN).
    change (SQRT_DIGITS * SQRT_DIGITS) with (10 ^ 30).
    fold s. fold s in Hs.
    rewrite (kb_component _ dx s Hx Hs), (kb_component _ dy s Hy Hs).
    reflexivity.
Qed.

(** C3. For a live mob [m] whose rect overlaps the rect of the live
    player, [mobs_damage_p1_on_touch m] takes exactly [m.kind.contact_dmg]
    from [p1.hp] and displaces [p1.rect] by the knockback [(kx, ky)],
    keeping its size: with [(dx, dy)] the vector from the centre of the
    mob's rect to the centre of the player's, the knockback is 4.2 times
    the unit vector along [(dx, dy)] with each component truncated toward
    zero, and [(4, 0)] when the two centres coincide.  The knockback is
    never zero, is at most four pixels on each axis and never points
    toward the mob.  When the hit points are then at most zero,
    [p1.alive] is False and [round_over] is True.  When the mob is dead,
    the player is dead or the rects do not overlap, the call changes
    nothing. *)
Theorem mobs_damage_p1_on_touch_spec (g : Game) (m : Mob) :
  let g' := mobs_damage_p1_on_touch g m in
  let r := p_rect (p1 g) in
  let dx := (rx r + Z.quot (rw r) 2)
            - (rx (m_rect m) + Z.quot (rw (m_rect m)) 2) in
  let dy := (ry r + Z.quot (rh r) 2)
            - (ry (m_rect m) + Z.quot (rh (m_rect m)) 2) in
  let s := Z.sqrt ((dx * dx + dy * dy) * 10 ^ 30) in
  let kx := if (dx =? 0) && (dy =? 0) then 4
            else Z.quot (42 * dx * 10 ^ 15) (10 * s) in
  let ky := if (dx =? 0) && (dy =? 0) then 0
            else Z.quot (42 * dy * 10 ^ 15) (10 * s) in
  (m_alive m = true -> p_alive (p1 g) = true ->
   colliderect (m_rect m) r = true ->
     p_hp (p1 g') = p_hp (p1 g) - mk_contact_dmg (m_kind m)
     /\ p_rect (p1 g') = mkRect (rx r + kx) (ry r + ky) (rw r) (rh r)
     /\ (p_hp (p1 g') <= 0 -> p_alive (p1 g') = false /\ round_over g' = true)
     /\ (0 < p_hp (p1 g') ->
           p_alive (p1 g') = true /\ round_over g' = round_over g))
  /\ (-4 <= kx <= 4 /\ -4 <= ky <= 4
      /\ 0 <= kx * dx /\ 0 <= ky * dy
      /\ (2 <= Z.abs kx \/ 2 <= Z.abs ky))
  /\ (m_alive m = false \/ p_alive (p1 g) = false
      \/ colliderect (m_rect m) r = false -> g' = g).
Proof.
  intros g' r dx dy s kx ky.
  assert (Hkb : knockback (center r) (center (m_rect m)) = (kx, ky)).
  { rewrite knockback_eq. unfold center, centerx, centery. cbn [fst snd].
    fold dx. fold dy. fold s. unfold kx, ky.
    destruct ((dx =? 0) && (dy =? 0)); reflexivity. }
  subst g'; unfold mobs_damage_p1_on_touch; split; [| split].
  - intros Hm Hp Hc. cbv zeta. fold r. rewrite Hm, Hp, Hc.
    unfold apply_damage.
    change (d_alive (p1 g)) with (p_alive (p1 g)). rewrite Hp.
    game_cbn. fold r. rewrite Hkb. cbn [fst snd]. unfold move_by.
    cbn [rx ry rw rh]. rewrite !Z.add_0_r.
    destruct (p_hp (p1 g) - mk_contact_dmg (m_kind m) <=? 0) eqn:Hz;
      game_cbn; rewrite Hz; game_cbn.
    + apply Z.leb_le in Hz. repeat split; auto; lia.
    + apply Z.leb_gt in Hz. repeat split; auto; lia.
  - unfold kx, ky. destruct ((dx =? 0) && (dy =? 0)) eqn:Hz.
    + apply andb_true_iff in Hz. destruct Hz as [Zx Zy].
      apply Z.eqb_eq in Zx, Zy. rewrite Zx, Zy. cbn. lia.
    + assert (Hne : dx <> 0 \/ dy <> 0).
      { apply andb_false_iff in Hz. destruct Hz as [Z1 | Z1];
          apply Z.eqb_neq in Z1; [left | right]; exact Z1. }
      assert (Hne' : dy <> 0 \/ dx <> 0) by lia.
      destruct (knockback_quot_bounds dx dy (10 ^ 15) eq_refl Hne)
        as (_ & Bx & Sx & Mx).
      destruct (knockback_quot_bounds dy dx (10 ^ 15) eq_refl Hne')
        as (_ & By & Sy & My).
      rewrite (Z.add_comm (dy * dy)) in By, Sy, My.
      change (10 ^ 15 * 10 ^ 15) with (10 ^ 30) in Bx, Sx, Mx, By, Sy, My.
      fold s in Bx, Sx, Mx, By, Sy, My.
      split; [exact Bx |]. split; [exact By |].
      split; [exact Sx |]. split; [exact Sy |].
      destruct (Z_le_gt_dec (Z.abs dy) (Z.abs dx)) as [Hle | Hgt].
      * left. exact (Mx Hle).
      * right. apply My. lia.
  - fold r. intros [Hm | [Hp | Hc]].
    + rewrite Hm. reflexivity.
    + rewrite Hp, andb_false_r. reflexivity.
    + rewrite Hc. destruct (negb _); reflexivity.
Qed.

(** C3 on a zombie standing on the player at the start of a round: the
    player loses eight hit points and is pushed two pixels right and two
    pixels down, away from the zombie. *)
Lemma mobs_damage_p1_on_touch_witness :
  let zombie := Mob_init (mkMobKind "Zombie" 45 (14 # 10) 12 "mob" 8) 470 310 in
  let g' := mobs_damage_p1_on_touch Game_init zombie in
  p_rect (p1 Game_init) = mkRect 480 320 26 26
  /\ p_hp (p1 Game_init) = 100
  /\ p_hp (p1 g') = 92
  /\ p_rect (p1 g') = mkRect 482 322 26 26
  /\ p_alive (p1 g') = true
  /\ round_over g' = false
  /\ mobs_damage_p1_on_touch Game_init (m_with_alive zombie false) = Game_init.
Proof.
  intros zombie g'.
  destruct (mobs_damage_p1_on_touch_spec Game_init zombie) as (Hhit & _ & _).
  destruct (mobs_damage_p1_on_touch_spec Game_init (m_with_alive zombie false))
    as (_ & _ & Hno).
  destruct (Hhit eq_refl eq_refl eq_refl) as (Hhp & Hrect & _ & Hlive).
  fold g' in Hhp, Hrect, Hlive.
  assert (H92 : p_hp (p1 g') = 92) by (rewrite Hhp; vm_compute; reflexivity).
  split; [reflexivity |]. split; [reflexivity |].
  split; [exact H92 |].
  split; [rewrite Hrect; vm_compute; reflexivity |].
  destruct Hlive as [Hal Hro]; [rewrite H92; reflexivity |].
  split; [exact Hal |]. split; [rewrite Hro; reflexivity |].
  apply Hno. left. reflexivity.
Defined.

(** ** Paused and finished rounds *)

(** C10. When [paused] or [round_over] is True, [update(dt)] returns at
    once: the whole game state is the same before and after the call, for
    every [dt] and whatever the inputs, and no random number is drawn. *)
Theorem update_paused_or_over (inp : Inputs) (dt : Z) (g : Game) (r : Rng) :
  paused g = true \/ round_over g = true ->
  update inp dt g r = (Ok g, r).
Proof.
  intros H. unfold update.
  assert (Hb : paused g || round_over g = true)
    by (destruct H as [H | H]; rewrite H; auto using orb_true_r).
  rewrite Hb. reflexivity.
Qed.

(** C10 on a paused game with mobs about, the attack key down and a second
    gone by. *)
Lemma update_paused_witness :
  let g := with_paused (with_mobs Game_init [Mob_init BOSS_ENDER 470 310]) true in
  let inp := mkInputs true false false false false false true true 5000 5000 in
  let r := mkRng (fun n => Z.of_nat n) 0 in
  update inp 1000 g r = (Ok g, r).
Proof.
  intros g inp r. apply update_paused_or_over. left. reflexivity.
Defined.

(** ** Spawn pools *)

(** [random.choice] on a non-empty list returns one of its elements. *)
Lemma choice_In {A : Type} (l : list A) (r : Rng) :
  l <> [] -> exists x : A, fst (choice l r) = Some x /\ In x l.
Proof.
  intros Hl. unfold choice, bind, draw, ret. cbn [fst].
  set (z := draws r (cursor r)).
  assert (Hlen : 0 < Z.of_nat (List.length l))
    by (destruct l; [congruence | cbn [List.length]; lia]).
  pose proof (Z.mod_pos_bound z _ Hlen) as Hb.
  destruct (nth_error l (Z.to_nat (z mod Z.of_nat (List.length l)))) as [x|] eqn:E.
  - exists x. split; [reflexivity | eapply nth_error_In; eassumption].
  - apply nth_error_None in E. lia.
Qed.

Lemma not_boss_kinds_over : forallb (fun k => negb (is_boss_kind k)) MOB_KINDS_OVER = true.
Proof. reflexivity. Qed.

Lemma not_boss_kinds_neth : forallb (fun k => negb (is_boss_kind k)) MOB_KINDS_NETH = true.
Proof. reflexivity. Qed.

(** The pool of each theme. *)
Lemma current_pool_cases (g : Game) (r : Rng) :
  match theme g with
  | OVERWORLD | END => current_pool g r = (MOB_KINDS_OVER, r)
  | NETHER => exists k : MobKind,
                In k MOB_KINDS_OVER
                /\ fst (current_pool g r) = MOB_KINDS_NETH ++ [k]
  end.
Proof.
  unfold current_pool. destruct (theme g); try reflexivity.
  unfold bind, ret.
  destruct (choice_In MOB_KINDS_OVER r) as (k & Hk & Hin); [discriminate|].
  destruct (choice MOB_KINDS_OVER r) as [o r']. cbn [fst] in *. subst o.
  exists k. split; [assumption | reflexivity].
Qed.

Lemma current_pool_nonempty (g : Game) (r : Rng) : fst (current_pool g r) <> [].
Proof.
  pose proof (current_pool_cases g r) as H.
  destruct (theme g).
  - rewrite H. discriminate.
  - destruct H as (k & _ & ->). discriminate.
  - rewrite H. discriminate.
Qed.

(** No pool holds a boss kind. *)
Lemma current_pool_not_boss (g : Game) (r : Rng) (k : MobKind) :
  In k (fst (current_pool g r)) -> is_boss_kind k = false.
Proof.
  pose proof (current_pool_cases g r) as H.
  pose proof (proj1 (forallb_forall _ _) not_boss_kinds_over) as Ho.
  pose proof (proj1 (forallb_forall _ _) not_boss_kinds_neth) as Hn.
  intros Hin. apply negb_true_iff.
  destruct (theme g).
  - rewrite H in Hin. apply Ho, Hin.
  - destruct H as (k' & Hk' & E). rewrite E in Hin.
    apply in_app_or in Hin. destruct Hin as [Hin | [<- | []]]; auto.
  - rewrite H in Hin. apply Ho, Hin.
Qed.

(** What [spawn_mob] does below the cap: one mob of a kind of the pool is
    appended, alive and with the hit points of its kind, and nothing else
    of the game changes. *)
Lemma spawn_mob_below_cap (g : Game) (r : Rng) :
  live_mob_count g < MAX_LIVE_MOBS ->
  exists m : Mob,
    fst (spawn_mob g r) = with_mobs g (mobs g ++ [m])
    /\ In (m_kind m) (fst (current_pool g r))
    /\ m_alive m = true /\ m_hp m = mk_hp (m_kind m).
Proof.
  intros Hlt. unfold spawn_mob.
  apply Z.leb_gt in Hlt. rewrite Hlt. unfold bind at 1.
  pose proof (current_pool_nonempty g r) as Hne.
  destruct (current_pool g r) as [pool r1]. cbn [fst] in *.
  unfold bind at 1.
  destruct (choice_In pool r1 Hne) as (kind & Hk & Hin).
  destruct (choice pool r1) as [o r2]. cbn [fst] in Hk. subst o.
  unfold bind at 1.
  destruct (choice_In SIDES r2) as (side & Hs & _); [discriminate|].
  destruct (choice SIDES r2) as [o r3]. cbn [fst] in Hs. subst o.
  unfold bind, ret.
  destruct (spawn_point side r3) as [xy r4]. cbn [fst].
  exists (Mob_init kind (fst xy) (snd xy)).
  repeat split; assumption.
Qed.

Lemma spawn_mob_at_cap (g : Game) (r : Rng) :
  MAX_LIVE_MOBS <= live_mob_count g -> spawn_mob g r = (g, r).
Proof.
  intros Hle. unfold spawn_mob. apply Z.leb_le in Hle. rewrite Hle. reflexivity.
Qed.

(** C4, as the code has it.  [current_pool] returns [MOB_KINDS_OVER] in the
    Overworld, [MOB_KINDS_NETH] plus one randomly chosen Overworld kind in
    the Nether, and [MOB_KINDS_OVER] again in the End, which has no pool of
    its own; [spawn_mob] takes the kind of the mob it adds from
    [current_pool()]. *)
Theorem current_pool_spec (g : Game) (r : Rng) :
  (theme g = OVERWORLD -> current_pool g r = (MOB_KINDS_OVER, r))
  /\ (theme g = NETHER ->
        exists k : MobKind,
          In k MOB_KINDS_OVER /\ fst (current_pool g r) = MOB_KINDS_NETH ++ [k])
  /\ (theme g = END -> current_pool g r = (MOB_KINDS_OVER, r))
  /\ (live_mob_count g < MAX_LIVE_MOBS ->
        exists m : Mob,
          mobs (fst (spawn_mob g r)) = mobs g ++ [m]
          /\ In (m_kind m) (fst (current_pool g r)))
  /\ (MAX_LIVE_MOBS <= live_mob_count g -> mobs (fst (spawn_mob g r)) = mobs g).
Proof.
  pose proof (current_pool_cases g r) as H.
  repeat split.
  - intros E. rewrite E in H. exact H.
  - intros E. rewrite E in H. exact H.
  - intros E. rewrite E in H. exact H.
  - intros Hlt. destruct (spawn_mob_below_cap g r Hlt) as (m & E & Hin & _).
    exists m. rewrite E. split; [reflexivity | exact Hin].
  - intros Hle. rewrite (spawn_mob_at_cap g r Hle). reflexivity.
Qed.

(** C4 in the Nether and in the End at the start of a round. *)
Lemma current_pool_witness :
  let r := mkRng (fun n => Z.of_nat n + 4) 0 in
  (exists k : MobKind,
     In k MOB_KINDS_OVER
     /\ fst (current_pool (with_theme Game_init NETHER) r) = MOB_KINDS_NETH ++ [k])
  /\ current_pool (with_theme Game_init END) r = (MOB_KINDS_OVER, r)
  /\ (exists m : Mob,
        mobs (fst (spawn_mob (with_theme Game_init END) r))
        = mobs (with_theme Game_init END) ++ [m]
        /\ In (m_kind m) (fst (current_pool (with_theme Game_init END) r))).
Proof.
  intros r.
  destruct (current_pool_spec (with_theme Game_init NETHER) r) as (_ & Hn & _).
  destruct (current_pool_spec (with_theme Game_init END) r) as (_ & _ & He & Hs & _).
  split; [| split].
  - apply Hn. reflexivity.
  - apply He. reflexivity.
  - apply Hs. vm_compute. reflexivity.
Defined.

(** The claim C4 fails at the End: its pool is the pool of the Overworld,
    kind for kind, whatever the random draws. *)
Lemma current_pool_end_is_overworld_pool :
  let r := mkRng (fun n => Z.of_nat n) 0 in
  fst (current_pool (with_theme Game_init END) r)
  = fst (current_pool (with_theme Game_init OVERWORLD) r)
  /\ fst (current_pool (with_theme Game_init END) r) = MOB_KINDS_OVER
  /\ map mk_name (fst (current_pool (with_theme Game_init END) r))
     = ["Zombie Chicken Jockey"; "Skeleton Spider Jockey"; "Zombie"; "Skeleton";
        "Spider"; "Pigman"]%string.
Proof. repeat split. Qed.

(** ** The cap on live mobs *)

Lemma count_if_app {A : Type} (f : A -> bool) (l l' : list A) :
  count_if f (l ++ l') = count_if f l + count_if f l'.
Proof.
  unfold count_if. rewrite filter_app, length_app. lia.
Qed.

Lemma count_if_nonneg {A : Type} (f : A -> bool) (l : list A) : 0 <= count_if f l.
Proof. unfold count_if. lia. Qed.

(** [spawn_boss] looks at no cap: it always adds one live mob. *)
Lemma spawn_boss_live_mob_count (g : Game) :
  live_mob_count (spawn_boss g) = live_mob_count g + 1.
Proof.
  unfold live_mob_count, spawn_boss. game_cbn.
  rewrite count_if_app. reflexivity.
Qed.

Lemma slow_frames_running :
  forallb (fun n => running (slow_frames n)) (seq 0 26) = true.
Proof. vm_compute. reflexivity. Qed.

Lemma slow_frames_reachable (n : nat) : (n <= 25)%nat -> reachable (slow_frames n).
Proof.
  induction n as [|n IH]; intros Hn.
  - apply reach_init.
  - cbn [slow_frames]. apply reach_frame.
    + apply IH. lia.
    + apply (proj1 (forallb_forall _ _) slow_frames_running n).
      apply in_seq. lia.
Qed.

(** C1 fails on the code.  Twenty-five turns of the main loop one second
    apart bring twenty-five live mobs into the arena, all spawned by
    [spawn_mob]; the key 3 then enters the End, where [spawn_boss] adds
    the Ender Dragon without a look at the cap: a reachable state with 26
    live mobs, above [MAX_LIVE_MOBS]. *)
Theorem live_mobs_exceed_cap_on_entering_end :
  reachable (slow_frames 25)
  /\ live_mob_count (slow_frames 25) = MAX_LIVE_MOBS
  /\ reachable crowded_end
  /\ live_mob_count crowded_end = 26
  /\ MAX_LIVE_MOBS < live_mob_count crowded_end.
Proof.
  assert (H25 : reachable (slow_frames 25))
    by (apply slow_frames_reachable; apply le_n).
  split; [exact H25 |].
  split; [vm_compute; reflexivity |].
  split.
  - unfold crowded_end. apply reach_frame; [exact H25 |].
    vm_compute. reflexivity.
  - split; vm_compute; reflexivity.
Qed.

(** ** Lists popped by index *)

Lemma pop_middle {A : Type} (a b : list A) (x : A) :
  pop (a ++ x :: b) (List.length a) = Some (a ++ b).
Proof.
  induction a as [|h a IH]; cbn [pop app List.length]; [reflexivity |].
  rewrite IH. reflexivity.
Qed.

Lemma pop_out_of_range {A : Type} (l : list A) (i : nat) :
  (List.length l <= i)%nat -> pop l i = None.
Proof.
  revert i. induction l as [|h l IH]; intros i Hi; [reflexivity |].
  cbn [List.length] in Hi. destruct i as [|i]; [lia |].
  cbn [pop]. rewrite IH by lia. reflexivity.
Qed.

(** ** Weapon drops *)

(** A drop list of which the player touches nothing is left alone. *)
Lemma pick_weapons_from_untouched (snapshot : list (Rect * Weapon)) (i : nat)
      (g : Game) :
  (forall d, In d snapshot -> colliderect (p_rect (p1 g)) (fst d) = false) ->
  pick_weapons_from snapshot i g = Ok g.
Proof.
  revert i. induction snapshot as [|[r wpn] rest IH]; intros i Hno; [reflexivity |].
  cbn [pick_weapons_from].
  pose proof (Hno (r, wpn) (or_introl eq_refl)) as Hr. cbn [fst] in Hr.
  rewrite Hr. apply IH. intros d Hd. apply Hno. right. exact Hd.
Qed.

Lemma pick_weapons_from_one (pre l1 l2 : list (Rect * Weapon)) (r : Rect)
      (wpn : Weapon) (g : Game) :
  weapon_drops g = pre ++ l1 ++ (r, wpn) :: l2 ->
  colliderect (p_rect (p1 g)) r = true ->
  (forall d, In d l1 -> colliderect (p_rect (p1 g)) (fst d) = false) ->
  (forall d, In d l2 -> colliderect (p_rect (p1 g)) (fst d) = false) ->
  pick_weapons_from (l1 ++ (r, wpn) :: l2) (List.length pre) g
  = Ok (with_weapon_drops (with_p1 g (p_with_weapon (p1 g) wpn)) (pre ++ l1 ++ l2)).
Proof.
  revert pre. induction l1 as [|[r1 w1] l1 IH]; intros pre Hd Hc H1 H2.
  - cbn [app pick_weapons_from] in *. rewrite Hc. game_cbn.
    rewrite Hd, pop_middle.
    apply pick_weapons_from_untouched. game_cbn. exact H2.
  - cbn [app pick_weapons_from].
    pose proof (H1 (r1, w1) (or_introl eq_refl)) as Hr. cbn [fst] in Hr.
    rewrite Hr.
    specialize (IH (pre ++ [(r1, w1)])).
    rewrite length_app in IH. cbn [List.length] in IH.
    rewrite Nat.add_1_r in IH. rewrite <- !app_assoc in IH. cbn [app] in IH.
    apply IH; auto.
    intros d Hin. apply H1. right. exact Hin.
Qed.

(** C6, as the code has it.  When the player's rect overlaps one drop
    [(rect, wpn)] of [weapon_drops] and no other, the loot step of
    [update] sets the player's weapon to [wpn], be it better or worse than
    the weapon held, and takes that drop out of the list; the other drops
    stay in the list in their order.  When the player touches no drop, the
    step changes nothing. *)
Theorem pick_weapons_spec (g : Game) :
  (forall (l1 l2 : list (Rect * Weapon)) (r : Rect) (wpn : Weapon),
     weapon_drops g = l1 ++ (r, wpn) :: l2 ->
     colliderect (p_rect (p1 g)) r = true ->
     (forall d, In d (l1 ++ l2) -> colliderect (p_rect (p1 g)) (fst d) = false) ->
     pick_weapons g
     = Ok (with_weapon_drops (with_p1 g (p_with_weapon (p1 g) wpn)) (l1 ++ l2)))
  /\ ((forall d, In d (weapon_drops g) ->
         colliderect (p_rect (p1 g)) (fst d) = false) ->
      pick_weapons g = Ok g).
Proof.
  split.
  - intros l1 l2 r wpn Hd Hc Hno. unfold pick_weapons. rewrite Hd.
    apply (pick_weapons_from_one [] l1 l2 r wpn g Hd Hc).
    + intros d Hin. apply Hno. apply in_or_app. left. exact Hin.
    + intros d Hin. apply Hno. apply in_or_app. right. exact Hin.
  - intros Hno. apply pick_weapons_from_untouched. exact Hno.
Qed.

(** C6 with three drops on the ground, the second under the player. *)
Lemma pick_weapons_witness :
  let far1 := (mkRect 100 100 16 16, ELITE_SWORD) in
  let far2 := (mkRect 800 500 20 20, BOSS_LOOT) in
  let g := with_weapon_drops Game_init
             ([far1] ++ (mkRect 485 325 16 16, ELITE_SWORD) :: [far2]) in
  pick_weapons g
  = Ok (with_weapon_drops (with_p1 g (p_with_weapon (p1 g) ELITE_SWORD))
                          ([far1] ++ [far2]))
  /\ pick_weapons Game_init = Ok Game_init.
Proof.
  intros far1 far2 g. split.
  - apply (proj1 (pick_weapons_spec g) [far1] [far2] (mkRect 485 325 16 16)
                 ELITE_SWORD); [reflexivity | reflexivity |].
    intros d [<- | [<- | []]]; reflexivity.
  - apply (proj2 (pick_weapons_spec Game_init)). intros d [].
Defined.

(** The claim C6 fails on the code: [update] with the End Sword in hand
    and a Diamond Sword underfoot leaves the player with the Diamond
    Sword, the lesser weapon in damage, in range and in cooldown. *)
Lemma update_picks_up_a_lesser_weapon :
  let g' := outcome_state (fst (update idle 16 sword_underfoot steady_rng)) in
  p_weapon (p1 sword_underfoot) = BOSS_LOOT
  /\ p_weapon (p1 g') = ELITE_SWORD
  /\ weapon_drops g' = []
  /\ w_dmg (p_weapon (p1 g')) < w_dmg (p_weapon (p1 sword_underfoot))
  /\ w_range_px (p_weapon (p1 g')) < w_range_px (p_weapon (p1 sword_underfoot))
  /\ w_cooldown_ms (p_weapon (p1 sword_underfoot)) < w_cooldown_ms (p_weapon (p1 g')).
Proof. vm_compute. repeat split. Qed.

(** ** Healing *)

(** The health pack an animal leaves when a melee hit kills it. *)
Lemma melee_animal_kill (g : Game) (pos : nat) (a : Animal) :
  a_alive a = true ->
  a_hp a - w_dmg (p_weapon (p1 g)) <= 0 ->
  exists rect : Rect,
    health_packs (melee_animal g pos a)
    = health_packs g ++ [(rect, ak_heal_amount (a_kind a))]
    /\ rw rect = 18 /\ rh rect = 18.
Proof.
  intros Ha Hhp. unfold melee_animal, apply_damage.
  change (d_alive a) with (a_alive a). rewrite Ha.
  cbn [negb d_with_hp d_hp d_rect d_with_rect d_with_alive d_is_boss_mob
       Damageable_Animal a_with_hp a_with_rect a_with_alive a_hp a_rect
       a_alive a_kind].
  apply Z.leb_le in Hhp. rewrite Hhp.
  cbn [negb a_with_hp a_with_rect a_with_alive a_hp a_rect a_alive a_kind].
  game_cbn. eexists. repeat split.
Qed.

(** A melee hit that an animal survives leaves no health pack. *)
Lemma melee_animal_survive (g : Game) (pos : nat) (a : Animal) :
  a_alive a = true ->
  0 < a_hp a - w_dmg (p_weapon (p1 g)) ->
  health_packs (melee_animal g pos a) = health_packs g.
Proof.
  intros Ha Hhp. unfold melee_animal, apply_damage.
  change (d_alive a) with (a_alive a). rewrite Ha.
  cbn [negb d_with_hp d_hp d_rect d_with_rect d_with_alive d_is_boss_mob
       Damageable_Animal a_with_hp a_with_rect a_with_alive a_hp a_rect
       a_alive a_kind].
  apply Z.leb_gt in Hhp. rewrite Hhp.
  cbn [negb a_with_hp a_with_rect a_with_alive a_hp a_rect a_alive a_kind].
  rewrite Ha. reflexivity.
Qed.

(** C5 fails on the code.  With the player on the first two of three
    health packs, [try_pick_health] heals by both amounts but pops by the
    indices of the snapshot: after the first pop the second touched pack
    has moved to index 0, and [pop(1)] takes the third pack, which the
    player never touched.  The touched pack stays on the ground.  With
    only the two touched packs on the ground the second pop raises
    [IndexError]. *)
Theorem try_pick_health_pops_the_wrong_pack :
  (exists g' : Game,
     try_pick_health three_packs = Ok g'
     /\ p_hp (p1 g') = 40 + 15 + 25
     /\ health_packs g' = [(mkRect 490 330 18 18, 25)]
     /\ colliderect (p_rect (p1 g')) (mkRect 490 330 18 18) = true
     /\ colliderect (p_rect (p1 g')) (mkRect 100 100 18 18) = false)
  /\ (exists g' : Game,
        try_pick_health two_packs = IndexError g'
        /\ p_hp (p1 g') = 40 + 15 + 25
        /\ health_packs g' = [(mkRect 490 330 18 18, 25)]).
Proof.
  split; eexists; vm_compute; repeat split.
Qed.

(** ** Archery *)

(** The archers among the kinds of the game are the three skeletons. *)
Lemma archer_kinds :
  map (fun k => (mk_name k, m_is_archer (Mob_init k 0 0)))
      (MOB_KINDS_OVER ++ MOB_KINDS_NETH ++ [BOSS_ENDER])
  = [("Zombie Chicken Jockey", false); ("Skeleton Spider Jockey", true);
     ("Zombie", false); ("Skeleton", true); ("Spider", false);
     ("Pigman", false); ("Wither Skeleton", true); ("Blaze", false);
     ("Ghast (mini)", false); ("Ender Dragon (tiny)", false)]%string.
Proof. reflexivity. Qed.

(** A new mob has three shots when it is an archer and none otherwise. *)
Lemma Mob_init_shots (k : MobKind) (x y : Z) :
  m_is_archer (Mob_init k x y) = contains "skeleton" (lower (mk_name k))
  /\ m_shots_left (Mob_init k x y) = (if m_is_archer (Mob_init k x y) then 3 else 0)
  /\ m_shot_cooldown_ms (Mob_init k x y) = 950
  /\ m_shot_range (Mob_init k x y) = 380.
Proof. repeat split. Qed.

(** [try_skeleton_shoot] either does nothing or fires one arrow of damage
    12; it fires only for an archer with shots left, at a live player
    within range, once the cooldown has passed, and a shot costs one of
    the shots left. *)
Lemma try_skeleton_shoot_cases (g : Game) (m : Mob) (now_ms : Z) :
  try_skeleton_shoot g m now_ms = (g, m)
  \/ (exists a : Arrow,
        fst (try_skeleton_shoot g m now_ms)
        = with_projectiles g (projectiles g ++ [a])
        /\ ar_dmg a = 12 /\ ar_alive a = true /\ ar_ttl_ms a = 3500
        /\ snd (try_skeleton_shoot g m now_ms)
           = m_with_shot m now_ms (m_shots_left m - 1)
        /\ m_is_archer m = true /\ 0 < m_shots_left m
        /\ p_alive (p1 g) = true
        /\ distance_le (center (m_rect m)) (center (p_rect (p1 g))) (m_shot_range m)
           = true
        /\ m_shot_cooldown_ms m <= now_ms - m_last_shot_time m).
Proof.
  unfold try_skeleton_shoot.
  destruct (m_is_archer m) eqn:Ea; [| left; reflexivity].
  destruct (0 <? m_shots_left m) eqn:Es; [| left; reflexivity].
  destruct (p_alive (p1 g)) eqn:Ep; [| left; reflexivity].
  cbn [andb negb]. unfold distance_gt.
  destruct (distance_le _ _ _) eqn:Ed; [| left; reflexivity].
  cbn [negb].
  destruct (now_ms - m_last_shot_time m <? m_shot_cooldown_ms m) eqn:Ec;
    [left; reflexivity |].
  right. apply Z.ltb_lt in Es. apply Z.ltb_ge in Ec.
  eexists. cbn [fst snd]. repeat split; assumption.
Qed.

(** C7 fails on the code.  Of three arrows in flight the first leaves the
    screen, the second hits the live player for exactly 12 and the third
    flies on.  [update_projectiles] pops the first at index 0 and then the
    arrow that hit at its snapshot index 1, where the third arrow now is:
    the arrow that hit the player stays in [projectiles], marked dead, and
    the arrow still in flight is gone. *)
Theorem update_projectiles_keeps_the_arrow_that_hit :
  exists g' : Game,
    update_projectiles volley 16 = Ok g'
    /\ p_hp (p1 g') = p_hp (p1 volley) - 12
    /\ projectiles g' = [ar_with_alive (Arrow_update arrow_hitting 16) false]
    /\ colliderect (ar_rect (Arrow_update arrow_hitting 16)) (p_rect (p1 volley)) = true
    /\ ar_alive (Arrow_update arrow_flying 16) = true
    /\ colliderect (ar_rect (Arrow_update arrow_flying 16)) (p_rect (p1 volley)) = false.
Proof.
  eexists. vm_compute. repeat split.
Qed.

(** C9 fails on the code.  Two arrows leave the screen in the same call:
    the first is popped at index 0, the second at its snapshot index 1 in
    a list that now has one element, and [pop] raises [IndexError]; the
    second arrow, dead, is still in [projectiles]. *)
Theorem update_projectiles_raises_on_two_removals :
  exists g' : Game,
    update_projectiles two_leaving 16 = IndexError g'
    /\ map ar_alive (projectiles two_leaving) = [true; true]
    /\ map (fun a => ar_alive (Arrow_update a 16)) (projectiles two_leaving)
       = [false; false]
    /\ map ar_alive (projectiles g') = [false].
Proof.
  eexists. vm_compute. repeat split.
Qed.

(** ** Animals are peaceful *)

Lemma same_health_refl (g : Game) : same_health g g.
Proof. repeat split. Qed.

Lemma same_health_trans (g1 g2 g3 : Game) :
  same_health g1 g2 -> same_health g2 g3 -> same_health g1 g3.
Proof. unfold same_health. intuition congruence. Qed.

Lemma same_health_p1 (g g' : Game) :
  p1 g' = p1 g -> round_over g' = round_over g -> same_health g g'.
Proof. intros Hp Hr. unfold same_health. rewrite Hp, Hr. repeat split. Qed.

Create HintDb peace.
#[local] Hint Resolve same_health_refl : peace.

Lemma update_animals_frame (g : Game) (r : Rng) :
  exists l : list Animal, fst (update_animals g r) = with_animals g l.
Proof.
  unfold update_animals, bind, ret.
  destruct (animals_ai (animals g) r) as [l r']. exists l. reflexivity.
Qed.

Lemma with_animals_same (g : Game) : with_animals g (animals g) = g.
Proof. destruct g; reflexivity. Qed.

Lemma spawn_animal_frame (g : Game) (r : Rng) :
  exists l : list Animal, fst (spawn_animal g r) = with_animals g l.
Proof.
  unfold spawn_animal.
  destruct (MAX_ALIVE_ANIMALS <=? count_if a_alive (animals g));
    [exists (animals g); symmetry; apply with_animals_same |].
  unfold bind at 1.
  destruct (choice ANIMALS r) as [[kind|] r1];
    [| exists (animals g); symmetry; apply with_animals_same].
  unfold bind at 1. destruct (randint 60 (WIDTH - 80) r1) as [x r2].
  unfold bind at 1. destruct (randint 100 (HEIGHT - 80) r2) as [y r3].
  unfold bind at 1. destruct (Animal_init kind x y r3) as [a r4].
  eexists. reflexivity.
Qed.

Lemma spawn_mob_frame (g : Game) (r : Rng) :
  fst (spawn_mob g r) = g
  \/ exists m : Mob, fst (spawn_mob g r) = with_mobs g (mobs g ++ [m]).
Proof.
  destruct (Z.lt_ge_cases (live_mob_count g) MAX_LIVE_MOBS) as [Hlt | Hge].
  - destruct (spawn_mob_below_cap g r Hlt) as (m & E & _). right. exists m. exact E.
  - left. rewrite (spawn_mob_at_cap g r Hge). reflexivity.
Qed.

Lemma melee_animal_p1 (g : Game) (pos : nat) (a : Animal) :
  p1 (melee_animal g pos a) = p1 g
  /\ round_over (melee_animal g pos a) = round_over g
  /\ mobs (melee_animal g pos a) = mobs g.
Proof.
  unfold melee_animal.
  destruct (apply_damage (end_boss_alive g) a (w_dmg (p_weapon (p1 g)))
                         (center (p_rect (p1 g)))) as [obj eb].
  destruct (negb (a_alive obj)); repeat split.
Qed.

Lemma melee_mob_health (g : Game) (pos : nat) (m : Mob) (r : Rng) :
  same_health g (fst (melee_mob g pos m r))
  /\ p_rect (p1 (fst (melee_mob g pos m r))) = p_rect (p1 g)
  /\ p_weapon (p1 (fst (melee_mob g pos m r))) = p_weapon (p1 g).
Proof.
  unfold melee_mob, same_health.
  destruct (apply_damage (end_boss_alive g) m (w_dmg (p_weapon (p1 g)))
                         (center (p_rect (p1 g)))) as [obj eb].
  destruct (negb (m_alive obj)); [| repeat split].
  game_cbn.
  destruct (negb (is_boss_kind (m_kind obj))); [| repeat split].
  unfold bind, ret. destruct (random_unit r) as [u r'].
  destruct (Qlt_bool u (drop_chance (m_kind obj))); repeat split.
Qed.

Lemma melee_hit_health (refs : list ObjRef) (g : Game) (idx : nat) (r : Rng) :
  same_health g (fst (melee_hit refs g idx r)).
Proof.
  unfold melee_hit.
  destruct (nth_error refs idx) as [[pos | pos]|]; auto with peace.
  - destruct (nth_error (mobs g) pos) as [m|]; auto with peace.
    apply melee_mob_health.
  - destruct (nth_error (animals g) pos) as [a|]; auto with peace.
    unfold ret. cbn [fst].
    destruct (melee_animal_p1 g pos a) as (Hp & Hr & _).
    apply same_health_p1; assumption.
Qed.

Lemma melee_hits_health (refs : list ObjRef) (hits_idx : list nat) (g : Game)
      (r : Rng) :
  same_health g (fst (melee_hits refs hits_idx g r)).
Proof.
  revert g r. induction hits_idx as [|idx rest IH]; intros g r.
  - apply same_health_refl.
  - cbn [melee_hits]. unfold bind.
    pose proof (melee_hit_health refs g idx r) as H1.
    destruct (melee_hit refs g idx r) as [g1 r1]. cbn [fst] in H1.
    eapply same_health_trans; [exact H1 | apply IH].
Qed.

Lemma try_attack_health (p : Player) (now : Z) (rects : list (option Rect)) :
  p_hp (fst (try_attack p now rects)) = p_hp p
  /\ p_alive (fst (try_attack p now rects)) = p_alive p
  /\ p_rect (fst (try_attack p now rects)) = p_rect p.
Proof.
  unfold try_attack.
  destruct (now - p_last_attack p <? w_cooldown_ms (p_weapon p)); [repeat split |].
  destruct (hits_from _ _ _ _); repeat split.
Qed.

Lemma hunter_melee_health (g : Game) (now : Z) (r : Rng) :
  same_health g (fst (hunter_melee g now r)).
Proof.
  unfold hunter_melee.
  set (targets := _ ++ _).
  pose proof (try_attack_health (p1 g) now (map fst targets)) as (Hh & Ha & _).
  destruct (try_attack (p1 g) now (map fst targets)) as [p hits_idx].
  cbn [fst] in Hh, Ha.
  eapply same_health_trans; [| apply melee_hits_health].
  unfold same_health. game_cbn. auto.
Qed.

Lemma Player_move_health (p : Player) (dx dy : Q) (dash : bool) :
  p_hp (Player_move p dx dy dash) = p_hp p
  /\ p_alive (Player_move p dx dy dash) = p_alive p.
Proof.
  unfold Player_move.
  destruct (negb (p_alive p)); [split; reflexivity |].
  cbv zeta.
  destruct (Qlt_bool 0 (p_slash_timer (p_with_rect p _))); split; reflexivity.
Qed.

Lemma update_player_health (g : Game) (inp : Inputs) (r : Rng) :
  same_health g (fst (update_player g inp r)).
Proof.
  unfold update_player. cbv zeta.
  destruct (if Qlt_bool 0 _ then _ else _) as [dx dy].
  pose proof (Player_move_health (p1 g) dx dy
                (dash_pressed (vpad g)
                 || negb ((is_down (key_lshift inp) =? 0)
                          && (is_down (key_rshift inp) =? 0)))) as (Hh & Ha).
  destruct (consume_attack_tap (vpad (with_p1 g _))) as [vp touch].
  match goal with
  | |- same_health _ (fst ((if ?c then _ else _) _)) => destruct c
  end.
  - eapply same_health_trans; [| apply hunter_melee_health].
    unfold same_health. game_cbn. auto.
  - unfold ret, same_health. game_cbn. auto.
Qed.

Lemma handle_theme_transitions_p1 (g : Game) :
  p1 (handle_theme_transitions g) = p1 g
  /\ round_over (handle_theme_transitions g) = round_over g.
Proof.
  unfold handle_theme_transitions.
  destruct (negb (Theme_eqb (theme g) (prev_theme g))); [| split; reflexivity].
  destruct (Theme_eqb (prev_theme g) END && negb (Theme_eqb (theme g) END));
    cbv zeta;
    match goal with
    | |- context [if Theme_eqb ?a END then _ else _] => destruct (Theme_eqb a END)
    end; split; reflexivity.
Qed.

Lemma update_portals_health (g : Game) : same_health g (update_portals g).
Proof.
  unfold update_portals. cbv zeta.
  match goal with
  | |- same_health _ (handle_theme_transitions ?x) =>
      destruct (handle_theme_transitions_p1 x) as (Hp & Hr);
      apply same_health_p1; [rewrite Hp | rewrite Hr]
  end;
    destruct (colliderect (p_rect (p1 g)) (portal_n g)); game_cbn;
    match goal with
    | |- context [if ?c then _ else _] => destruct c
    end; reflexivity.
Qed.

Lemma update_spawns_health (g : Game) (dt : Z) (r : Rng) :
  same_health g (fst (update_spawns g dt r)).
Proof.
  unfold update_spawns. cbv zeta. unfold bind at 1.
  set (g0 := with_spawn_timer g (spawn_timer g + dt)).
  match goal with
  | |- context [(if ?c then spawn_mob ?x else ret ?y) r] =>
      assert (H1 : same_health g (fst ((if c then spawn_mob x else ret y) r)))
  end.
  { match goal with |- context [if ?c then _ else _] => destruct c end.
    - destruct (spawn_mob_frame (with_spawn_timer g0 0) r) as [-> | (m & ->)];
        repeat split.
    - repeat split. }
  match goal with
  | H : same_health g (fst ?e) |- _ => destruct e as [g1 r1]
  end.
  cbn [fst] in H1. eapply same_health_trans; [exact H1 |].
  set (g2 := with_animal_spawn_timer g1 _).
  destruct (animal_spawn_interval_ms g2 <=? animal_spawn_timer g2).
  - destruct (spawn_animal_frame (with_animal_spawn_timer g2 0) r1)
      as (l & ->); repeat split.
  - repeat split.
Qed.

Lemma pick_weapons_from_health (snapshot : list (Rect * Weapon)) (i : nat)
      (g : Game) :
  same_health g (outcome_state (pick_weapons_from snapshot i g)).
Proof.
  revert i g. induction snapshot as [|[r wpn] rest IH]; intros i g.
  - apply same_health_refl.
  - cbn [pick_weapons_from].
    destruct (colliderect (p_rect (p1 g)) r); [| apply IH].
    game_cbn. destruct (pop (weapon_drops g) i) as [l|].
    + eapply same_health_trans; [| apply IH]. repeat split.
    + repeat split.
Qed.

(** C8.  Nothing done by or to an animal lowers the player's hit points or
    clears the player's [alive] flag: not the animals' movement, not their
    spawning, not a melee hit on an animal, not the removal of the dead.
    Of the steps of [update] only the mobs' loop (contact), the healing
    and the arrows touch the player's health at all: the movement and
    attack step, the portals, the spawns and the loot leave it as it is. *)
Theorem animals_are_peaceful (g : Game) (r : Rng) :
  same_health g (fst (update_animals g r))
  /\ same_health g (fst (spawn_animal g r))
  /\ (forall (pos : nat) (a : Animal), same_health g (melee_animal g pos a))
  /\ same_health g (cleanup g)
  /\ (forall now : Z, same_health g (fst (hunter_melee g now r)))
  /\ (forall inp : Inputs, same_health g (fst (update_player g inp r)))
  /\ same_health g (update_portals g)
  /\ (forall dt : Z, same_health g (fst (update_spawns g dt r)))
  /\ same_health g (outcome_state (pick_weapons g)).
Proof.
  split; [| split; [| split; [| split; [| split; [| split; [| split; [| split]]]]]]].
  - destruct (update_animals_frame g r) as (l & ->). repeat split.
  - destruct (spawn_animal_frame g r) as (l & ->). repeat split.
  - intros pos a. destruct (melee_animal_p1 g pos a) as (Hp & Hr & _).
    apply same_health_p1; assumption.
  - repeat split.
  - intros now. apply hunter_melee_health.
  - intros inp. apply update_player_health.
  - apply update_portals_health.
  - intros dt. apply update_spawns_health.
  - apply pick_weapons_from_health.
Qed.

(* ================================================================== *)
(** * Further properties of the entities *)

(** ** The arena *)

Lemma clamp_bounds (v lo hi : Z) : lo <= hi -> lo <= clamp v lo hi <= hi.
Proof. unfold clamp. lia. Qed.

Lemma clamp_inside (v lo hi : Z) : lo <= v <= hi -> clamp v lo hi = v.
Proof. unfold clamp. lia. Qed.

(** A rect is inside the arena when it keeps four pixels from the left,
    right and bottom borders and stays below the HUD strip. *)
Lemma clamp_to_arena_inside (r : Rect) :
  rw r <= WIDTH - 8 -> rh r <= HEIGHT - 68 ->
  let r' := clamp_to_arena r in
  rw r' = rw r /\ rh r' = rh r
  /\ 4 <= rect_left r' /\ rect_right r' <= WIDTH - 4
  /\ 64 <= rect_top r' /\ rect_bottom r' <= HEIGHT - 4.
Proof.
  intros Hw Hh. cbv zeta.
  unfold clamp_to_arena, set_x, set_y, rect_left, rect_right, rect_top,
    rect_bottom, clamp, WIDTH, HEIGHT in *.
  cbn [rx ry rw rh]. lia.
Qed.

(** [Player.move] leaves a live player inside the arena, whatever the
    direction and the speed, and touches nothing but the rect and the
    slash timer: the size of the rect and the nine other fields of the
    player are as before.  A dead player does not move. *)
Theorem Player_move_in_arena (p : Player) (dx dy : Q) (dash : bool) :
  rw (p_rect p) <= WIDTH - 8 -> rh (p_rect p) <= HEIGHT - 68 ->
  let p' := Player_move p dx dy dash in
  (p_alive p = true ->
     4 <= rect_left (p_rect p') /\ rect_right (p_rect p') <= WIDTH - 4
     /\ 64 <= rect_top (p_rect p') /\ rect_bottom (p_rect p') <= HEIGHT - 4
     /\ rw (p_rect p') = rw (p_rect p) /\ rh (p_rect p') = rh (p_rect p)
     /\ p_hp p' = p_hp p /\ p_alive p' = true /\ p_weapon p' = p_weapon p
     /\ p_score p' = p_score p /\ p_last_attack p' = p_last_attack p
     /\ p_max_hp p' = p_max_hp p /\ p_spd p' = p_spd p
     /\ p_dash_spd p' = p_dash_spd p
     /\ p_slash_radius p' = p_slash_radius p)
  /\ (p_alive p = false -> p' = p).
Proof.
  intros Hw Hh. cbv zeta. unfold Player_move. split.
  - intros Ha. rewrite Ha. cbn [negb]. cbv zeta.
    set (r := move_by (move_by (p_rect p) _ 0) 0 _).
    assert (Hrw : rw r = rw (p_rect p)) by reflexivity.
    assert (Hrh : rh r = rh (p_rect p)) by reflexivity.
    destruct (clamp_to_arena_inside r) as (Ew & Eh & B1 & B2 & B3 & B4);
      [lia | lia |].
    destruct (Qlt_bool 0 (p_slash_timer (p_with_rect p (clamp_to_arena r))));
      game_cbn; repeat split; try assumption; congruence.
  - intros Ha. rewrite Ha. reflexivity.
Qed.

(** The player of a new game, a diagonal dash, and a dead player. *)
Lemma Player_move_in_arena_witness :
  let p := Player_init 480 320 in
  (4 <= rect_left (p_rect (Player_move p 1 (-1) true))
   /\ rect_right (p_rect (Player_move p 1 (-1) true)) <= WIDTH - 4)
  /\ Player_move (p_with_alive p false) 1 (-1) true = p_with_alive p false.
Proof.
  intros p.
  assert (Hw : rw (p_rect p) <= WIDTH - 8) by (vm_compute; discriminate).
  assert (Hh : rh (p_rect p) <= HEIGHT - 68) by (vm_compute; discriminate).
  split.
  - destruct (proj1 (Player_move_in_arena p 1 (-1) true Hw Hh) eq_refl)
      as (B1 & B2 & _).
    split; assumption.
  - exact (proj2 (Player_move_in_arena (p_with_alive p false) 1 (-1) true Hw Hh)
                 eq_refl).
Defined.

(** [Mob.ai] leaves a live mob inside the arena and changes nothing of it
    but the rect and the knockback; a dead mob is left as it is. *)
Theorem Mob_ai_in_arena (m : Mob) (target_pos : Z * Z) :
  rw (m_rect m) <= WIDTH - 8 -> rh (m_rect m) <= HEIGHT - 68 ->
  let m' := Mob_ai m target_pos in
  (m_alive m = true ->
     4 <= rect_left (m_rect m') /\ rect_right (m_rect m') <= WIDTH - 4
     /\ 64 <= rect_top (m_rect m') /\ rect_bottom (m_rect m') <= HEIGHT - 4
     /\ rw (m_rect m') = rw (m_rect m) /\ rh (m_rect m') = rh (m_rect m))
  /\ (m_alive m = false -> m' = m)
  /\ m_kind m' = m_kind m /\ m_hp m' = m_hp m /\ m_alive m' = m_alive m
  /\ m_is_archer m' = m_is_archer m /\ m_shots_left m' = m_shots_left m
  /\ m_last_shot_time m' = m_last_shot_time m.
Proof.
  intros Hw Hh. cbv zeta. unfold Mob_ai.
  destruct (m_alive m) eqn:Ha; cbn [negb]; cbv zeta.
  - set (r := move_by (move_by (m_rect m) _ 0) 0 _).
    assert (Hrw : rw r = rw (m_rect m)) by reflexivity.
    assert (Hrh : rh r = rh (m_rect m)) by reflexivity.
    destruct (clamp_to_arena_inside r) as (Ew & Eh & B1 & B2 & B3 & B4);
      [lia | lia |].
    split; [| split; [discriminate |]].
    + intros _. cbn [m_rect m_with_knockback m_with_rect].
      repeat split; try assumption; congruence.
    + cbn [m_kind m_hp m_alive m_is_archer m_shots_left m_last_shot_time
           m_with_knockback m_with_rect].
      repeat split. exact Ha.
  - split; [discriminate |]. split; [reflexivity |]. repeat split; auto.
Qed.

(** A zombie at the left edge chasing the player, and a dead one. *)
Lemma Mob_ai_in_arena_witness :
  let m := Mob_init (mkMobKind "Zombie" 45 (14 # 10) 12 "mob" 8) 4 82 in
  (4 <= rect_left (m_rect (Mob_ai m (493, 333)))
   /\ rect_right (m_rect (Mob_ai m (493, 333))) <= WIDTH - 4)
  /\ Mob_ai (m_with_alive m false) (493, 333) = m_with_alive m false.
Proof.
  intros m.
  assert (Hw : rw (m_rect m) <= WIDTH - 8) by (vm_compute; discriminate).
  assert (Hh : rh (m_rect m) <= HEIGHT - 68) by (vm_compute; discriminate).
  split.
  - destruct (proj1 (Mob_ai_in_arena m (493, 333) Hw Hh) eq_refl) as (B1 & B2 & _).
    split; assumption.
  - exact (proj1 (proj2 (Mob_ai_in_arena (m_with_alive m false) (493, 333) Hw Hh))
                 eq_refl).
Defined.

Lemma Animal_ai_alive_shape (a : Animal) (r : Rng) :
  a_alive a = true ->
  exists (rr : Rect) (d : Vector2) (t : Q),
    fst (Animal_ai a r)
    = mkAnimal (clamp_to_arena rr) (a_kind a) (a_hp a) (a_max_hp a) true d t
    /\ rw rr = rw (a_rect a) /\ rh rr = rh (a_rect a).
Proof.
  intros Ha. unfold Animal_ai. rewrite Ha. cbn [negb]. cbv zeta.
  unfold bind at 1.
  match goal with
  | |- context [(if ?c then ?x else ?y) r] =>
      assert (Hk : exists d t,
                 fst ((if c then x else y) r)
                 = mkAnimal (a_rect a) (a_kind a) (a_hp a) (a_max_hp a) true d t);
      [ destruct c;
        [ unfold bind, ret; destruct (random_dir r) as [d r1];
          destruct (randint 900 1800 r1) as [t r2]
        | unfold ret ];
        cbn [fst]; unfold a_with_dir; rewrite Ha; eexists; eexists; reflexivity
      | destruct ((if c then x else y) r) as [a1 r1] ]
  end.
  cbn [fst] in Hk. destruct Hk as (d & t & ->).
  unfold ret. cbn [fst a_rect a_kind a_hp a_max_hp a_alive a_dir
                   a_change_dir_timer a_with_dir a_with_rect].
  eexists; eexists; eexists. split; [reflexivity |]. split; reflexivity.
Qed.

(** [Animal.ai] leaves a live animal inside the arena, with its kind, its
    hit points and its [alive] flag as they were; a dead animal is left
    as it is and draws no random number. *)
Theorem Animal_ai_in_arena (a : Animal) (r : Rng) :
  rw (a_rect a) <= WIDTH - 8 -> rh (a_rect a) <= HEIGHT - 68 ->
  let a' := fst (Animal_ai a r) in
  (a_alive a = true ->
     4 <= rect_left (a_rect a') /\ rect_right (a_rect a') <= WIDTH - 4
     /\ 64 <= rect_top (a_rect a') /\ rect_bottom (a_rect a') <= HEIGHT - 4
     /\ rw (a_rect a') = rw (a_rect a) /\ rh (a_rect a') = rh (a_rect a))
  /\ (a_alive a = false -> Animal_ai a r = (a, r))
  /\ a_kind a' = a_kind a /\ a_hp a' = a_hp a /\ a_alive a' = a_alive a.
Proof.
  intros Hw Hh. cbv zeta.
  destruct (a_alive a) eqn:Ha.
  - destruct (Animal_ai_alive_shape a r Ha) as (rr & d & t & -> & Hrw & Hrh).
    destruct (clamp_to_arena_inside rr) as (Ew & Eh' & B1 & B2 & B3 & B4);
      [lia | lia |].
    cbn [a_rect a_kind a_hp a_alive].
    split; [| split; [discriminate |]].
    + intros _. repeat split; try assumption; congruence.
    + repeat split.
  - assert (E : Animal_ai a r = (a, r))
      by (unfold Animal_ai; rewrite Ha; reflexivity).
    rewrite E. cbn [fst].
    split; [discriminate |]. split; [reflexivity |]. repeat split; auto.
Qed.

(** A cow walking at the start of a round, and a dead cow. *)
Lemma Animal_ai_in_arena_witness :
  let cow := mkAnimal (mkRect 62 102 22 22) (mkAnimalKind "Cow" 50 1 35 (170, 150, 130))
                      50 50 true (mkVector2 1 0) 16 in
  (4 <= rect_left (a_rect (fst (Animal_ai cow steady_rng)))
   /\ rect_right (a_rect (fst (Animal_ai cow steady_rng))) <= WIDTH - 4)
  /\ Animal_ai (a_with_alive cow false) steady_rng = (a_with_alive cow false, steady_rng).
Proof.
  intros cow.
  assert (Hw : rw (a_rect cow) <= WIDTH - 8) by (vm_compute; discriminate).
  assert (Hh : rh (a_rect cow) <= HEIGHT - 68) by (vm_compute; discriminate).
  split.
  - destruct (proj1 (Animal_ai_in_arena cow steady_rng Hw Hh) eq_refl) as (B1 & B2 & _).
    split; assumption.
  - exact (proj1 (proj2 (Animal_ai_in_arena (a_with_alive cow false) steady_rng Hw Hh))
                 eq_refl).
Defined.

(** ** The life of an arrow *)

(** The frames of an arrow's flight: [Arrow.update] once per frame. *)
Lemma Arrow_update_dead (a : Arrow) (dt : Z) :
  ar_alive a = false -> Arrow_update a dt = a.
Proof. intros Ha. unfold Arrow_update. rewrite Ha. reflexivity. Qed.

Lemma Arrow_update_alive (a : Arrow) (dt : Z) :
  ar_alive (Arrow_update a dt) = true ->
  ar_alive a = true
  /\ ar_ttl_ms (Arrow_update a dt) = ar_ttl_ms a - dt
  /\ 0 < ar_ttl_ms (Arrow_update a dt)
  /\ 0 <= rect_right (ar_rect (Arrow_update a dt))
  /\ rect_left (ar_rect (Arrow_update a dt)) <= WIDTH
  /\ 0 <= rect_bottom (ar_rect (Arrow_update a dt))
  /\ rect_top (ar_rect (Arrow_update a dt)) <= HEIGHT.
Proof.
  unfold Arrow_update.
  destruct (ar_alive a) eqn:Ha; cbn [negb]; [| congruence].
  cbv zeta. set (r := set_center _ _).
  cbn [ar_alive ar_ttl_ms ar_rect].
  destruct (rect_right r <? 0) eqn:E1; cbn [orb]; [discriminate |].
  destruct (WIDTH <? rect_left r) eqn:E2; cbn [orb]; [discriminate |].
  destruct (rect_bottom r <? 0) eqn:E3; cbn [orb]; [discriminate |].
  destruct (HEIGHT <? rect_top r) eqn:E4; [discriminate |].
  destruct (ar_ttl_ms a - dt <=? 0) eqn:E5; [discriminate |].
  intros _.
  apply Z.ltb_ge in E1, E2, E3, E4. apply Z.leb_gt in E5.
  repeat split; assumption.
Qed.

(** An arrow that flies on after [Arrow.update] was alive before, has its
    time to live shortened by exactly [dt] and still positive, and reaches
    the screen; a dead arrow is never touched again.  Hence an arrow is
    dead once the frames it has seen add up to its time to live. *)
Theorem arrow_dies_in_time (a : Arrow) (dts : list Z) :
  0 < ar_ttl_ms a ->
  ar_ttl_ms a <= fold_right Z.add 0 dts ->
  ar_alive (fold_left Arrow_update dts a) = false.
Proof.
  intros Hpos Hsum.
  assert (Hgen : forall (l : list Z) (b : Arrow),
             ar_alive (fold_left Arrow_update l b) = true ->
             ar_alive b = true
             /\ ar_ttl_ms (fold_left Arrow_update l b)
                = ar_ttl_ms b - fold_right Z.add 0 l
             /\ (l <> [] -> 0 < ar_ttl_ms (fold_left Arrow_update l b))).
  { induction l as [|dt l IH]; intros b Hal; cbn [fold_left fold_right] in *.
    - repeat split; [assumption | lia | congruence].
    - destruct (IH _ Hal) as (H1 & H2 & H3).
      destruct (Arrow_update_alive b dt H1) as (Hb & Ht & Hp & _).
      repeat split; [assumption | lia |].
      intros _. destruct l as [|dt' l]; [exact Hp | apply H3; discriminate]. }
  destruct (ar_alive (fold_left Arrow_update dts a)) eqn:E; [| reflexivity].
  destruct (Hgen dts a E) as (_ & Ht & Hp).
  assert (Hne : dts <> []) by (intros ->; cbn [fold_right] in Hsum; lia).
  specialize (Hp Hne). lia.
Qed.

(** An arrow shot straight down from the top of the screen, seen for 210
    frames of 17 ms. *)
Lemma arrow_dies_in_time_witness :
  ar_alive (fold_left Arrow_update (repeat 17 210)
                      (Arrow_init (inject_Z 500) (inject_Z 70) 0 (1 # 10) 12))
  = false.
Proof.
  apply arrow_dies_in_time; vm_compute; [reflexivity | discriminate].
Defined.

(* ================================================================== *)
(** * Further properties of the combat *)

(** ** The sword *)

Lemma hits_from_spec (c : Z * Z) (range : Z) (targets : list (option Rect))
      (i0 i : nat) :
  In i (hits_from c range i0 targets) ->
  (i0 <= i)%nat
  /\ exists r : Rect,
       nth_error targets (i - i0) = Some (Some r)
       /\ distance_le c (center r) range = true.
Proof.
  revert i0. induction targets as [|[r|] t IH]; intros i0 Hin;
    cbn [hits_from] in Hin; [contradiction | |].
  - destruct (distance_le c (center r) range) eqn:Ed.
    + destruct Hin as [<- | Hin].
      * split; [lia |]. exists r. rewrite Nat.sub_diag. split; [reflexivity | exact Ed].
      * destruct (IH _ Hin) as (Hle & r' & Hn & Hd).
        split; [lia |]. exists r'. split; [| exact Hd].
        replace (i - i0)%nat with (S (i - S i0)) by lia. exact Hn.
    + destruct (IH _ Hin) as (Hle & r' & Hn & Hd).
      split; [lia |]. exists r'. split; [| exact Hd].
      replace (i - i0)%nat with (S (i - S i0)) by lia. exact Hn.
  - destruct (IH _ Hin) as (Hle & r' & Hn & Hd).
    split; [lia |]. exists r'. split; [| exact Hd].
    replace (i - i0)%nat with (S (i - S i0)) by lia. exact Hn.
Qed.

Lemma with_p1_same (g : Game) : with_p1 g (p1 g) = g.
Proof. destruct g; reflexivity. Qed.

(** [Player.try_attack] returns nothing and changes nothing while the
    weapon cools down; otherwise every index it returns is the index of a
    target whose centre lies within the range of the weapon, and the
    attack is recorded (time of the attack, slash timer of 120 ms, slash
    radius) exactly when something was hit. *)
Theorem try_attack_spec (p : Player) (now : Z) (targets_rects : list (option Rect)) :
  let p' := fst (try_attack p now targets_rects) in
  let hits_idx := snd (try_attack p now targets_rects) in
  (now - p_last_attack p < w_cooldown_ms (p_weapon p) -> p' = p /\ hits_idx = [])
  /\ Forall (fun i =>
               exists r : Rect,
                 nth_error targets_rects i = Some (Some r)
                 /\ distance_le (center (p_rect p)) (center r)
                                (w_range_px (p_weapon p)) = true) hits_idx
  /\ (hits_idx = [] -> p' = p)
  /\ (hits_idx <> [] ->
        p_last_attack p' = now /\ p_slash_timer p' = 120%Q
        /\ p_slash_radius p' = w_range_px (p_weapon p)).
Proof.
  cbv zeta. unfold try_attack.
  destruct (now - p_last_attack p <? w_cooldown_ms (p_weapon p)) eqn:Ec.
  - cbn [fst snd]. repeat split; try constructor; congruence.
  - apply Z.ltb_ge in Ec.
    pose proof (hits_from_spec (center (p_rect p)) (w_range_px (p_weapon p))
                               targets_rects 0) as Hspec.
    destruct (hits_from (center (p_rect p)) (w_range_px (p_weapon p)) 0
                        targets_rects) as [|i l] eqn:Eh; cbn [fst snd].
    + split; [lia |]. repeat split; try constructor; congruence.
    + split; [lia |]. split; [| split; [discriminate |]].
      * apply Forall_forall. intros j Hj.
        destruct (Hspec j Hj) as (_ & r & Hn & Hd).
        rewrite Nat.sub_0_r in Hn. exists r. split; assumption.
      * intros _. repeat split.
Qed.

(** A swing at the start of a round with one target in range and one out
    of range, and a swing during the cooldown. *)
Lemma try_attack_witness :
  let p := Player_init 480 320 in
  let targets := [Some (mkRect 500 330 24 24); Some (mkRect 40 72 24 24)] in
  (fst (try_attack p 100 targets) = p /\ snd (try_attack p 100 targets) = [])
  /\ (p_last_attack (fst (try_attack p 1000 targets)) = 1000
      /\ p_slash_timer (fst (try_attack p 1000 targets)) = 120%Q
      /\ p_slash_radius (fst (try_attack p 1000 targets)) = w_range_px (p_weapon p)).
Proof.
  intros p targets. split.
  - apply (proj1 (try_attack_spec p 100 targets)). reflexivity.
  - apply (proj2 (proj2 (proj2 (try_attack_spec p 1000 targets)))). discriminate.
Defined.

(** During the cooldown of the weapon [hunter_melee] changes nothing at
    all and draws no random number. *)
Theorem hunter_melee_on_cooldown (g : Game) (now : Z) (r : Rng) :
  now - p_last_attack (p1 g) < w_cooldown_ms (p_weapon (p1 g)) ->
  hunter_melee g now r = (g, r).
Proof.
  intros Hc. unfold hunter_melee, try_attack.
  apply Z.ltb_lt in Hc. rewrite Hc.
  cbn [melee_hits]. unfold ret. rewrite with_p1_same. reflexivity.
Qed.

(** A boss next to the player, 100 ms after the last attack. *)
Lemma hunter_melee_on_cooldown_witness :
  let g := with_mobs Game_init [Mob_init BOSS_ENDER 470 310] in
  hunter_melee g 100 steady_rng = (g, steady_rng).
Proof.
  intros g. apply hunter_melee_on_cooldown. reflexivity.
Defined.

(** ** Loot *)

(** A melee hit that kills an animal leaves exactly one health pack, 18
    pixels wide and high, carrying the heal amount of the animal's kind;
    a hit that the animal survives leaves none.  In both cases the animal
    loses the damage of the weapon. *)
Theorem melee_animal_spec (g : Game) (pos : nat) (a : Animal) :
  a_alive a = true ->
  (a_hp a - w_dmg (p_weapon (p1 g)) <= 0 ->
     exists rect : Rect,
       health_packs (melee_animal g pos a)
       = health_packs g ++ [(rect, ak_heal_amount (a_kind a))]
       /\ rw rect = 18 /\ rh rect = 18)
  /\ (0 < a_hp a - w_dmg (p_weapon (p1 g)) ->
        health_packs (melee_animal g pos a) = health_packs g)
  /\ weapon_drops (melee_animal g pos a) = weapon_drops g
  /\ p1 (melee_animal g pos a) = p1 g.
Proof.
  intros Ha. split; [| split; [| split]].
  - apply melee_animal_kill. exact Ha.
  - apply melee_animal_survive. exact Ha.
  - unfold melee_animal.
    destruct (apply_damage _ _ _ _) as [obj eb].
    destruct (negb (a_alive obj)); reflexivity.
  - apply melee_animal_p1.
Qed.

(** A chicken and a cow under the first sword. *)
Lemma melee_animal_witness :
  let chicken := mkAnimal (mkRect 500 330 22 22)
                   (mkAnimalKind "Chicken" 20 (16 # 10) 15 (250, 250, 210))
                   20 20 true (mkVector2 1 0) 1000 in
  let cow := mkAnimal (mkRect 500 330 22 22)
                   (mkAnimalKind "Cow" 50 1 35 (170, 150, 130))
                   50 50 true (mkVector2 1 0) 1000 in
  (exists rect : Rect,
     health_packs (melee_animal Game_init 0 chicken)
     = health_packs Game_init ++ [(rect, ak_heal_amount (a_kind chicken))]
     /\ rw rect = 18 /\ rh rect = 18)
  /\ health_packs (melee_animal Game_init 0 cow) = health_packs Game_init.
Proof.
  intros chicken cow. split.
  - apply (proj1 (melee_animal_spec Game_init 0 chicken eq_refl)).
    vm_compute. discriminate.
  - apply (proj1 (proj2 (melee_animal_spec Game_init 0 cow eq_refl))).
    vm_compute. reflexivity.
Defined.

(** A melee hit that kills a mob adds the score of its kind.  A boss
    always drops the End Sword and its death clears [end_boss_alive]; any
    other mob drops the Diamond Sword or nothing, and never the End
    Sword.  A hit that the mob survives changes neither the score nor the
    drops and draws no random number. *)
Theorem melee_mob_spec (g : Game) (pos : nat) (m : Mob) (r : Rng) :
  m_alive m = true ->
  let g' := fst (melee_mob g pos m r) in
  (m_hp m - w_dmg (p_weapon (p1 g)) <= 0 ->
     p_score (p1 g') = p_score (p1 g) + mk_score (m_kind m)
     /\ (is_boss_kind (m_kind m) = true ->
           end_boss_alive g' = false
           /\ exists rect : Rect,
                weapon_drops g' = weapon_drops g ++ [(rect, BOSS_LOOT)])
     /\ (is_boss_kind (m_kind m) = false ->
           end_boss_alive g' = end_boss_alive g
           /\ (weapon_drops g' = weapon_drops g
               \/ exists rect : Rect,
                    weapon_drops g' = weapon_drops g ++ [(rect, ELITE_SWORD)])))
  /\ (0 < m_hp m - w_dmg (p_weapon (p1 g)) ->
        melee_mob g pos m r
        = (with_mobs g (set_nth (mobs g) pos
                          (fst (apply_damage (end_boss_alive g) m
                                  (w_dmg (p_weapon (p1 g)))
                                  (center (p_rect (p1 g)))))), r)).
Proof.
  intros Ha. cbv zeta. unfold melee_mob, apply_damage.
  change (d_alive m) with (m_alive m). rewrite Ha.
  cbn [negb d_with_hp d_hp d_rect d_with_rect d_with_alive d_is_boss_mob
       Damageable_Mob m_with_hp m_with_rect m_with_alive m_hp m_rect m_alive
       m_kind].
  split.
  - intros Hk. apply Z.leb_le in Hk. rewrite Hk.
    cbn [negb m_with_hp m_with_rect m_with_alive m_hp m_rect m_alive m_kind].
    destruct (is_boss_kind (m_kind m)) eqn:Eb; cbn [negb].
    + unfold ret. game_cbn. split; [reflexivity |]. split; [| discriminate].
      intros _. split; [reflexivity |]. eexists. reflexivity.
    + unfold bind, ret. destruct (random_unit r) as [u r'].
      destruct (Qlt_bool u (drop_chance (m_kind m))); game_cbn;
        (split; [reflexivity |]); (split; [discriminate |]);
        intros _; (split; [reflexivity |]).
      * right. eexists. reflexivity.
      * left. reflexivity.
  - intros Hs. apply Z.leb_gt in Hs. rewrite Hs.
    cbn [negb fst m_with_hp m_with_rect m_with_alive m_hp m_rect m_alive m_kind].
    rewrite Ha. cbn [negb]. unfold ret. f_equal; destruct g; reflexivity.
Qed.

(** The End Sword against a weakened boss and against a fresh one. *)
Lemma melee_mob_witness :
  let g := with_p1 Game_init (p_with_weapon (p1 Game_init) BOSS_LOOT) in
  let weak := m_with_hp (Mob_init BOSS_ENDER 420 120) 50 in
  let fresh := Mob_init BOSS_ENDER 420 120 in
  (end_boss_alive (fst (melee_mob g 0 weak steady_rng)) = false
   /\ exists rect : Rect,
        weapon_drops (fst (melee_mob g 0 weak steady_rng))
        = weapon_drops g ++ [(rect, BOSS_LOOT)])
  /\ melee_mob g 0 fresh steady_rng
     = (with_mobs g (set_nth (mobs g) 0
                       (fst (apply_damage (end_boss_alive g) fresh
                               (w_dmg (p_weapon (p1 g)))
                               (center (p_rect (p1 g)))))), steady_rng).
Proof.
  intros g weak fresh. split.
  - assert (Hk : m_hp weak - w_dmg (p_weapon (p1 g)) <= 0)
      by (vm_compute; discriminate).
    exact (proj1 (proj2 (proj1 (melee_mob_spec g 0 weak steady_rng eq_refl) Hk))
                 eq_refl).
  - apply (proj2 (melee_mob_spec g 0 fresh steady_rng eq_refl)).
    vm_compute. reflexivity.
Defined.

(* ================================================================== *)
(** * Further properties of the spawning *)

Lemma randint_bounds (a b : Z) (r : Rng) :
  a <= b -> a <= fst (randint a b r) <= b.
Proof.
  intros Hab. unfold randint, bind, draw, ret. cbn [fst].
  pose proof (Z.mod_pos_bound (draws r (cursor r)) (b - a + 1)). lia.
Qed.

Lemma spawn_point_in_arena (side : string) (r : Rng) :
  let xy := fst (spawn_point side r) in
  40 <= fst xy <= WIDTH - 40 /\ 72 <= snd xy <= HEIGHT - 40.
Proof.
  cbv zeta. unfold spawn_point, WIDTH, HEIGHT.
  destruct (String.eqb side "top");
    [| destruct (String.eqb side "bottom");
       [| destruct (String.eqb side "left")]];
    unfold bind, ret.
  - pose proof (randint_bounds 40 (1000 - 40) r).
    destruct (randint 40 (1000 - 40) r) as [x r']. cbn [fst snd] in *. lia.
  - pose proof (randint_bounds 40 (1000 - 40) r).
    destruct (randint 40 (1000 - 40) r) as [x r']. cbn [fst snd] in *. lia.
  - pose proof (randint_bounds 80 (640 - 40) r).
    destruct (randint 80 (640 - 40) r) as [y r']. cbn [fst snd] in *. lia.
  - pose proof (randint_bounds 80 (640 - 40) r).
    destruct (randint 80 (640 - 40) r) as [y r']. cbn [fst snd] in *. lia.
Qed.

(** Below the cap [spawn_mob] always succeeds, whatever the random draws:
    it appends exactly one mob, alive, at full health, of a kind that is
    not a boss, standing inside the arena, and changes nothing else of the
    game. *)
Theorem spawn_mob_spec (g : Game) (r : Rng) :
  live_mob_count g < MAX_LIVE_MOBS ->
  exists m : Mob,
    fst (spawn_mob g r) = with_mobs g (mobs g ++ [m])
    /\ m_alive m = true /\ m_hp m = mk_hp (m_kind m)
    /\ is_boss_kind (m_kind m) = false
    /\ rw (m_rect m) = 24 /\ rh (m_rect m) = 24
    /\ 4 <= rect_left (m_rect m) /\ rect_right (m_rect m) <= WIDTH - 4
    /\ 64 <= rect_top (m_rect m) /\ rect_bottom (m_rect m) <= HEIGHT - 4.
Proof.
  intros Hlt. unfold spawn_mob.
  apply Z.leb_gt in Hlt. rewrite Hlt. unfold bind at 1.
  pose proof (current_pool_nonempty g r) as Hne.
  pose proof (current_pool_not_boss g r) as Hnb.
  destruct (current_pool g r) as [pool r1]. cbn [fst] in *.
  unfold bind at 1.
  destruct (choice_In pool r1 Hne) as (kind & Hk & Hin).
  destruct (choice pool r1) as [o r2]. cbn [fst] in Hk. subst o.
  unfold bind at 1.
  destruct (choice_In SIDES r2) as (side & Hs & _); [discriminate|].
  destruct (choice SIDES r2) as [o r3]. cbn [fst] in Hs. subst o.
  unfold bind, ret.
  pose proof (spawn_point_in_arena side r3) as Hxy. cbv zeta in Hxy.
  destruct (spawn_point side r3) as [xy r4]. cbn [fst] in *.
  exists (Mob_init kind (fst xy) (snd xy)).
  unfold rect_left, rect_right, rect_top, rect_bottom, Mob_init, WIDTH, HEIGHT in *.
  cbn [m_rect m_alive m_hp m_kind rx ry rw rh].
  repeat split; try lia. apply Hnb. exact Hin.
Qed.

(** The first spawn of a round. *)
Lemma spawn_mob_spec_witness :
  exists m : Mob,
    fst (spawn_mob Game_init steady_rng) = with_mobs Game_init (mobs Game_init ++ [m])
    /\ m_alive m = true /\ m_hp m = mk_hp (m_kind m)
    /\ is_boss_kind (m_kind m) = false
    /\ rw (m_rect m) = 24 /\ rh (m_rect m) = 24
    /\ 4 <= rect_left (m_rect m) /\ rect_right (m_rect m) <= WIDTH - 4
    /\ 64 <= rect_top (m_rect m) /\ rect_bottom (m_rect m) <= HEIGHT - 4.
Proof.
  apply spawn_mob_spec. vm_compute. reflexivity.
Defined.

(** [spawn_animal] does nothing once seven animals are alive; below the
    cap it always appends exactly one animal, alive, at full health, of
    one of the three kinds, standing inside the arena, and changes
    nothing else of the game. *)
Theorem spawn_animal_spec (g : Game) (r : Rng) :
  (MAX_ALIVE_ANIMALS <= count_if a_alive (animals g) -> spawn_animal g r = (g, r))
  /\ (count_if a_alive (animals g) < MAX_ALIVE_ANIMALS ->
        exists a : Animal,
          fst (spawn_animal g r) = with_animals g (animals g ++ [a])
          /\ a_alive a = true /\ In (a_kind a) ANIMALS
          /\ a_hp a = ak_hp (a_kind a)
          /\ rw (a_rect a) = 22 /\ rh (a_rect a) = 22
          /\ 4 <= rect_left (a_rect a) /\ rect_right (a_rect a) <= WIDTH - 4
          /\ 64 <= rect_top (a_rect a) /\ rect_bottom (a_rect a) <= HEIGHT - 4).
Proof.
  unfold spawn_animal. split.
  - intros Hc. apply Z.leb_le in Hc. rewrite Hc. reflexivity.
  - intros Hc. apply Z.leb_gt in Hc. rewrite Hc.
    unfold bind at 1.
    destruct (choice_In ANIMALS r) as (kind & Hk & Hin); [discriminate |].
    destruct (choice ANIMALS r) as [o r1]. cbn [fst] in Hk. subst o.
    unfold bind at 1.
    pose proof (randint_bounds 60 (WIDTH - 80) r1) as Hx.
    destruct (randint 60 (WIDTH - 80) r1) as [x r2].
    unfold bind at 1.
    pose proof (randint_bounds 100 (HEIGHT - 80) r2) as Hy.
    destruct (randint 100 (HEIGHT - 80) r2) as [y r3].
    unfold bind at 1. unfold Animal_init at 1. unfold bind at 1.
    destruct (random_dir r3) as [d r4].
    unfold bind at 1. destruct (randint 900 1800 r4) as [t r5].
    unfold ret, bind. cbn [fst].
    eexists. split; [reflexivity |].
    unfold rect_left, rect_right, rect_top, rect_bottom, WIDTH, HEIGHT in *.
    cbn [fst a_rect a_alive a_hp a_kind rx ry rw rh] in *.
    repeat split; try lia. exact Hin.
Qed.

(** The first animal of a round. *)
Lemma spawn_animal_spec_witness :
  exists a : Animal,
    fst (spawn_animal Game_init steady_rng)
    = with_animals Game_init (animals Game_init ++ [a])
    /\ a_alive a = true /\ In (a_kind a) ANIMALS
    /\ a_hp a = ak_hp (a_kind a)
    /\ rw (a_rect a) = 22 /\ rh (a_rect a) = 22
    /\ 4 <= rect_left (a_rect a) /\ rect_right (a_rect a) <= WIDTH - 4
    /\ 64 <= rect_top (a_rect a) /\ rect_bottom (a_rect a) <= HEIGHT - 4.
Proof.
  apply (proj2 (spawn_animal_spec Game_init steady_rng)). vm_compute. reflexivity.
Defined.

(* ================================================================== *)
(** * Further properties of the controls and the events *)

(** A tap on the attack button is consumed once: the press latches it,
    the first [consume_attack_tap] reports it and clears the latch, and
    the next reports nothing, while [attack_pressed] stays set until the
    button is released. *)
Theorem attack_tap_consumed_once (v : VirtualPad) (pos : Z * Z) :
  Qle_bool (vlength (vsub (vec_of_point pos) (stick_center v)))
           (inject_Z (stick_base_r v + 4)) = false ->
  collidepoint (btn_attack v) pos = true ->
  let pressed := VirtualPad_handle_event v (MOUSEBUTTONDOWN pos) in
  let once := consume_attack_tap pressed in
  let twice := consume_attack_tap (fst once) in
  snd once = true /\ snd twice = false
  /\ attack_pressed (fst twice) = true
  /\ fst twice = fst once.
Proof.
  intros Hs Hb. cbv zeta. unfold VirtualPad_handle_event.
  rewrite Hs, Hb. unfold consume_attack_tap.
  cbn [attack_latch attack_pressed dash_pressed vp_with_buttons fst snd].
  repeat split.
Qed.

(** A tap in the middle of the attack button of a new pad. *)
Lemma attack_tap_consumed_once_witness :
  let pressed := VirtualPad_handle_event VirtualPad_init (MOUSEBUTTONDOWN (900, 520)) in
  snd (consume_attack_tap pressed) = true
  /\ snd (consume_attack_tap (fst (consume_attack_tap pressed))) = false
  /\ attack_pressed (fst (consume_attack_tap (fst (consume_attack_tap pressed)))) = true
  /\ fst (consume_attack_tap (fst (consume_attack_tap pressed)))
     = fst (consume_attack_tap pressed).
Proof.
  apply (attack_tap_consumed_once VirtualPad_init (900, 520));
    vm_compute; reflexivity.
Defined.

(** Releasing the mouse anywhere lets go of the stick: the stick is
    inactive afterwards, and if it was held the nub is back at the centre
    and the move vector is zero. *)
Theorem release_resets_stick (v : VirtualPad) (pos : Z * Z) :
  let v' := VirtualPad_handle_event v (MOUSEBUTTONUP pos) in
  stick_active v' = false
  /\ (stick_active v = true ->
        move_vec v' = mkVector2 0 0 /\ nub_pos v' = stick_center v)
  /\ (stick_active v = false -> move_vec v' = move_vec v)
  /\ attack_latch v' = attack_latch v.
Proof.
  destruct v as [br nr c ba bd act nub mv ap dp al].
  cbv zeta. unfold VirtualPad_handle_event, vp_with_stick, vp_with_buttons.
  cbn [stick_active stick_center btn_dash btn_attack stick_base_r stick_nub_r
       nub_pos move_vec attack_pressed dash_pressed attack_latch].
  destruct act;
    cbn [stick_active stick_center btn_dash btn_attack stick_base_r stick_nub_r
         nub_pos move_vec attack_pressed dash_pressed attack_latch];
    destruct (collidepoint bd pos);
    cbn [stick_active stick_center btn_dash btn_attack stick_base_r stick_nub_r
         nub_pos move_vec attack_pressed dash_pressed attack_latch];
    destruct (collidepoint ba pos);
    cbn [stick_active stick_center btn_dash btn_attack stick_base_r stick_nub_r
         nub_pos move_vec attack_pressed dash_pressed attack_latch];
    repeat (split || intro); try congruence; auto.
Qed.

Lemma with_vpad_same (g : Game) : with_vpad g (vpad g) = g.
Proof. destruct g; reflexivity. Qed.

Lemma VirtualPad_ignores_keys (v : VirtualPad) (k : Key) :
  VirtualPad_handle_event v (KEYDOWN k) = v.
Proof. reflexivity. Qed.

Lemma count_if_filter_negb {A : Type} (f : A -> bool) (l : list A) :
  count_if f (filter (fun x => negb (f x)) l) = 0.
Proof.
  unfold count_if. induction l as [|x l IH]; [reflexivity |].
  cbn [filter]. destruct (f x) eqn:E; cbn [negb]; [exact IH |].
  cbn [filter]. rewrite E. exact IH.
Qed.

(** After [_handle_theme_transitions] the two themes agree. *)
Lemma handle_theme_transitions_fixpoint (g : Game) :
  theme (handle_theme_transitions g) = theme g
  /\ prev_theme (handle_theme_transitions g) = theme g
  /\ handle_theme_transitions (handle_theme_transitions g) = handle_theme_transitions g.
Proof.
  assert (Hfix : forall h, theme h = prev_theme h -> handle_theme_transitions h = h).
  { intros h E. unfold handle_theme_transitions.
    apply Theme_eqb_eq in E. rewrite E. reflexivity. }
  destruct g as [th pth st si ast asi pn pe p ms an wd hp pr pa ro eb ru vp].
  destruct th, pth;
    (split; [reflexivity |]); (split; [reflexivity |]); apply Hfix; reflexivity.
Qed.

(** [_handle_theme_transitions] settles the theme: afterwards
    [prev_theme] equals [theme], so that a second call changes nothing;
    and a transition into the End leaves exactly one boss in [mobs]. *)
Theorem handle_theme_transitions_settles (g : Game) :
  let g' := handle_theme_transitions g in
  theme g' = theme g
  /\ prev_theme g' = theme g
  /\ handle_theme_transitions g' = g'
  /\ (theme g = END -> prev_theme g <> END -> boss_count g' = 1)
  /\ (theme g <> END -> prev_theme g = END -> boss_count g' = 0).
Proof.
  cbv zeta.
  assert (Hfix : forall h, theme h = prev_theme h -> handle_theme_transitions h = h).
  { intros h E. unfold handle_theme_transitions.
    apply Theme_eqb_eq in E. rewrite E. reflexivity. }
  assert (Hb : forall l, count_if (fun m => is_boss_kind (m_kind m)) (filter not_boss l) = 0).
  { intros l. apply (count_if_filter_negb (fun m => is_boss_kind (m_kind m))). }
  unfold boss_count.
  destruct g as [th pth st si ast asi pn pe p ms an wd hp pr pa ro eb ru vp].
  destruct th, pth;
    (split; [reflexivity |]); (split; [reflexivity |]);
    (split; [apply Hfix; reflexivity |]);
    split; intros H1 H2; cbn [theme prev_theme] in H1, H2; try congruence;
    unfold handle_theme_transitions, spawn_boss; game_cbn;
    rewrite ?count_if_app, ?Hb; reflexivity.
Qed.

(** Entering the End with an old boss and a zombie about. *)
Lemma handle_theme_transitions_settles_witness :
  let g := with_theme
             (with_mobs Game_init
                [Mob_init BOSS_ENDER 10 80;
                 Mob_init (mkMobKind "Zombie" 45 (14 # 10) 12 "mob" 8) 50 90])
             END in
  boss_count (handle_theme_transitions g) = 1.
Proof.
  intros g.
  apply (proj1 (proj2 (proj2 (proj2 (handle_theme_transitions_settles g)))));
    [reflexivity | discriminate].
Defined.

(** The keys 1, 2 and 3 select the theme: after the key the theme is the
    selected one and [prev_theme] agrees with it, and pressing the same
    key again changes nothing, so that the boss respawns on entering the
    End and not on every press of 3. *)
Theorem theme_key_spec (g : Game) (k : Key) (t : Theme) :
  theme_of_key k = Some t ->
  let g' := handle_event g (KEYDOWN k) in
  theme g' = t /\ prev_theme g' = t
  /\ handle_event g' (KEYDOWN k) = g'
  /\ p1 g' = p1 g /\ animals g' = animals g /\ projectiles g' = projectiles g
  /\ paused g' = paused g /\ round_over g' = round_over g.
Proof.
  intros Hk. cbv zeta.
  assert (Hgen : forall h t0,
             let h' := handle_theme_transitions (with_theme h t0) in
             theme h' = t0 /\ prev_theme h' = t0
             /\ handle_theme_transitions (with_theme h' t0) = h'
             /\ p1 h' = p1 h /\ animals h' = animals h
             /\ projectiles h' = projectiles h
             /\ paused h' = paused h /\ round_over h' = round_over h).
  { intros h t0. cbv zeta.
    destruct (handle_theme_transitions_fixpoint (with_theme h t0))
      as (E1 & E2 & E3).
    game_cbn_in E1. game_cbn_in E2.
    assert (Ew : with_theme (handle_theme_transitions (with_theme h t0)) t0
                 = handle_theme_transitions (with_theme h t0)).
    { rewrite <- E1 at 2.
      destruct (handle_theme_transitions (with_theme h t0)); reflexivity. }
    rewrite Ew.
    split; [exact E1 |]. split; [exact E2 |]. split; [exact E3 |].
    destruct h as [th pth st si ast asi pn pe p ms an wd hp pr pa ro eb ru vp].
    destruct t0, pth; repeat split. }
  unfold handle_event. rewrite !VirtualPad_ignores_keys.
  destruct k; cbn [theme_of_key] in Hk; try discriminate;
    injection Hk as <-; rewrite !with_vpad_same; apply Hgen.
Qed.

(** The key 3 at the start of a round. *)
Lemma theme_key_spec_witness :
  theme (handle_event Game_init (KEYDOWN K_3)) = END
  /\ prev_theme (handle_event Game_init (KEYDOWN K_3)) = END
  /\ handle_event (handle_event Game_init (KEYDOWN K_3)) (KEYDOWN K_3)
     = handle_event Game_init (KEYDOWN K_3).
Proof.
  destruct (theme_key_spec Game_init K_3 END eq_refl) as (E1 & E2 & E3 & _).
  repeat split; assumption.
Defined.

(** The key P toggles the pause and nothing else: pressed twice it gives
    the game back as it was.  The key R restarts a round that is over
    with a new game and does nothing while the round goes on; Escape and
    the window's close button stop the main loop. *)
Theorem control_keys_spec (g : Game) :
  paused (handle_event g (KEYDOWN K_p)) = negb (paused g)
  /\ handle_event (handle_event g (KEYDOWN K_p)) (KEYDOWN K_p) = g
  /\ (round_over g = true -> handle_event g (KEYDOWN K_r) = Game_init)
  /\ (round_over g = false -> handle_event g (KEYDOWN K_r) = g)
  /\ running (handle_event g (KEYDOWN K_ESCAPE)) = false
  /\ running (handle_event g QUIT) = false.
Proof.
  unfold handle_event. rewrite !VirtualPad_ignores_keys.
  split; [reflexivity |]. split; [| split; [| split; [| split]]].
  - destruct g as [th pth st si ast asi pn pe p ms an wd hp pr pa ro eb ru vp].
    game_cbn. rewrite negb_involutive. reflexivity.
  - intros Hr. rewrite with_vpad_same, Hr. reflexivity.
  - intros Hr. rewrite with_vpad_same, Hr. reflexivity.
  - reflexivity.
  - reflexivity.
Qed.

(* ================================================================== *)
(** * Further properties of the pickups and the projectiles *)

(** ** Health packs *)

Lemma try_pick_health_from_untouched (snapshot : list (Rect * Z)) (i : nat)
      (g : Game) :
  p_alive (p1 g) = false
  \/ (forall d, In d snapshot -> colliderect (p_rect (p1 g)) (fst d) = false) ->
  try_pick_health_from snapshot i g = Ok g.
Proof.
  revert i. induction snapshot as [|[r amount] rest IH]; intros i Hno; [reflexivity |].
  cbn [try_pick_health_from].
  assert (Hc : p_alive (p1 g) && colliderect (p_rect (p1 g)) r = false).
  { destruct Hno as [Hd | Hno]; [rewrite Hd; reflexivity |].
    pose proof (Hno (r, amount) (or_introl eq_refl)) as Hr. cbn [fst] in Hr.
    rewrite Hr. apply andb_false_r. }
  rewrite Hc. apply IH.
  destruct Hno as [Hd | Hno]; [left; exact Hd | right].
  intros d Hd. apply Hno. right. exact Hd.
Qed.

Lemma try_pick_health_from_one (pre l1 l2 : list (Rect * Z)) (r : Rect)
      (amount : Z) (g : Game) :
  health_packs g = pre ++ l1 ++ (r, amount) :: l2 ->
  p_alive (p1 g) = true ->
  colliderect (p_rect (p1 g)) r = true ->
  (forall d, In d l1 -> colliderect (p_rect (p1 g)) (fst d) = false) ->
  (forall d, In d l2 -> colliderect (p_rect (p1 g)) (fst d) = false) ->
  try_pick_health_from (l1 ++ (r, amount) :: l2) (List.length pre) g
  = Ok (with_health_packs
          (with_p1 g (p_with_hp (p1 g)
                        (clamp (p_hp (p1 g) + amount) 0 (p_max_hp (p1 g)))))
          (pre ++ l1 ++ l2)).
Proof.
  revert pre. induction l1 as [|[r1 a1] l1 IH]; intros pre Hd Ha Hc H1 H2.
  - cbn [app try_pick_health_from] in *. rewrite Ha, Hc. cbn [andb]. game_cbn.
    rewrite Hd, pop_middle.
    apply try_pick_health_from_untouched. right. game_cbn. exact H2.
  - cbn [app try_pick_health_from].
    pose proof (H1 (r1, a1) (or_introl eq_refl)) as Hr. cbn [fst] in Hr.
    rewrite Hr, andb_false_r.
    specialize (IH (pre ++ [(r1, a1)])).
    rewrite length_app in IH. cbn [List.length] in IH.
    rewrite Nat.add_1_r in IH. rewrite <- !app_assoc in IH. cbn [app] in IH.
    apply IH; auto.
    intros d Hin. apply H1. right. exact Hin.
Qed.

(** When the live player's rect overlaps one health pack [(r, amount)] and
    no other, [try_pick_health] sets the hit points to
    [clamp(hp + amount, 0, max_hp)] and takes that pack out of the list,
    the others staying in their order; a dead player, or one who touches
    no pack, picks up nothing. *)
Theorem try_pick_health_spec (g : Game) :
  (forall (l1 l2 : list (Rect * Z)) (r : Rect) (amount : Z),
     health_packs g = l1 ++ (r, amount) :: l2 ->
     p_alive (p1 g) = true ->
     colliderect (p_rect (p1 g)) r = true ->
     (forall d, In d (l1 ++ l2) -> colliderect (p_rect (p1 g)) (fst d) = false) ->
     try_pick_health g
     = Ok (with_health_packs
             (with_p1 g (p_with_hp (p1 g)
                           (clamp (p_hp (p1 g) + amount) 0 (p_max_hp (p1 g)))))
             (l1 ++ l2)))
  /\ (p_alive (p1 g) = false
      \/ (forall d, In d (health_packs g) ->
            colliderect (p_rect (p1 g)) (fst d) = false) ->
      try_pick_health g = Ok g).
Proof.
  split.
  - intros l1 l2 r amount Hd Ha Hc Hno. unfold try_pick_health. rewrite Hd.
    apply (try_pick_health_from_one [] l1 l2 r amount g Hd Ha Hc).
    + intros d Hin. apply Hno. apply in_or_app. left. exact Hin.
    + intros d Hin. apply Hno. apply in_or_app. right. exact Hin.
  - intros Hno. apply try_pick_health_from_untouched. exact Hno.
Qed.

(** A wounded player on the second of three packs, and a dead player on
    the same spot. *)
Lemma try_pick_health_spec_witness :
  let far1 := (mkRect 100 100 18 18, 15) in
  let far2 := (mkRect 800 500 18 18, 35) in
  let g := with_health_packs (with_p1 Game_init (p_with_hp (p1 Game_init) 90))
             ([far1] ++ (mkRect 490 330 18 18, 25) :: [far2]) in
  let dead := with_p1 g (p_with_alive (p1 g) false) in
  try_pick_health g
  = Ok (with_health_packs
          (with_p1 g (p_with_hp (p1 g) (clamp (p_hp (p1 g) + 25) 0 (p_max_hp (p1 g)))))
          ([far1] ++ [far2]))
  /\ try_pick_health dead = Ok dead.
Proof.
  intros far1 far2 g dead. split.
  - apply (proj1 (try_pick_health_spec g) [far1] [far2] (mkRect 490 330 18 18) 25);
      [reflexivity | reflexivity | reflexivity |].
    intros d [<- | [<- | []]]; reflexivity.
  - apply (proj2 (try_pick_health_spec dead)). left. reflexivity.
Defined.

(** Whatever lies on the ground, and whether or not the call raises,
    [try_pick_health] never lifts the hit points above [max_hp], never
    lowers them when the packs carry non-negative amounts, and touches
    neither [max_hp] nor the [alive] flag. *)
Theorem healing_is_capped (g : Game) :
  0 <= p_hp (p1 g) <= p_max_hp (p1 g) ->
  (forall d, In d (health_packs g) -> 0 <= snd d) ->
  let g' := outcome_state (try_pick_health g) in
  p_hp (p1 g) <= p_hp (p1 g') <= p_max_hp (p1 g)
  /\ p_max_hp (p1 g') = p_max_hp (p1 g)
  /\ p_alive (p1 g') = p_alive (p1 g)
  /\ p_rect (p1 g') = p_rect (p1 g).
Proof.
  intros Hhp Hamt. cbv zeta. unfold try_pick_health.
  generalize 0%nat as i.
  assert (Hgen : forall (snapshot : list (Rect * Z)) (i : nat) (h : Game),
             0 <= p_hp (p1 h) <= p_max_hp (p1 h) ->
             (forall d, In d snapshot -> 0 <= snd d) ->
             let h' := outcome_state (try_pick_health_from snapshot i h) in
             p_hp (p1 h) <= p_hp (p1 h') <= p_max_hp (p1 h)
             /\ p_max_hp (p1 h') = p_max_hp (p1 h)
             /\ p_alive (p1 h') = p_alive (p1 h)
             /\ p_rect (p1 h') = p_rect (p1 h)).
  { induction snapshot as [|[r amount] rest IH]; intros i h Hh Ha; cbv zeta.
    - cbn [try_pick_health_from outcome_state]. repeat split; lia.
    - cbn [try_pick_health_from].
      assert (Harest : forall d, In d rest -> 0 <= snd d)
        by (intros d Hd; apply Ha; right; exact Hd).
      pose proof (Ha (r, amount) (or_introl eq_refl)) as Hamount.
      cbn [snd] in Hamount.
      destruct (p_alive (p1 h) && colliderect (p_rect (p1 h)) r).
      + game_cbn.
        assert (Hc : p_hp (p1 h) <= clamp (p_hp (p1 h) + amount) 0 (p_max_hp (p1 h))
                     <= p_max_hp (p1 h)) by (unfold clamp; lia).
        destruct (pop (health_packs h) i) as [l|].
        * match goal with
          | |- context [try_pick_health_from rest (S i) ?x] =>
              specialize (IH (S i) x)
          end.
          cbv zeta in IH. game_cbn_in IH.
          destruct IH as (I1 & I2 & I3 & I4); [lia | exact Harest |].
          repeat split; try assumption; lia.
        * cbn [outcome_state]. game_cbn. repeat split; lia.
      + apply IH; assumption. }
  intros i. apply Hgen; assumption.
Qed.

(** The two packs under a wounded player, where the call raises. *)
Lemma healing_is_capped_witness :
  p_hp (p1 two_packs) <= p_hp (p1 (outcome_state (try_pick_health two_packs)))
  <= p_max_hp (p1 two_packs).
Proof.
  apply healing_is_capped.
  - vm_compute. split; discriminate.
  - intros d [<- | [<- | []]]; vm_compute; discriminate.
Defined.

(** ** Arrows in flight *)

Lemma tag_from_ge (i : nat) (l : list Arrow) (e : nat * Arrow) :
  In e (tag_from i l) -> (i <= fst e)%nat.
Proof.
  revert i. induction l as [|a l IH]; intros i Hin; cbn [tag_from] in Hin;
    [contradiction |].
  destruct Hin as [<- | Hin]; [cbn [fst]; lia |].
  apply IH in Hin. lia.
Qed.

Lemma map_snd_tag_from (i : nat) (l : list Arrow) : map snd (tag_from i l) = l.
Proof.
  revert i. induction l as [|a l IH]; intros i; cbn [tag_from map snd];
    [reflexivity |]. rewrite IH. reflexivity.
Qed.

Lemma mutate_miss (live : Tagged) (i : nat) (a : Arrow) :
  (forall e, In e live -> fst e <> i) -> mutate live i a = live.
Proof.
  intros Hno. unfold mutate. induction live as [|e live IH]; [reflexivity |].
  cbn [map]. rewrite IH by (intros e' He'; apply Hno; right; exact He').
  pose proof (Hno e (or_introl eq_refl)) as Hne.
  apply Nat.eqb_neq in Hne. rewrite Hne. reflexivity.
Qed.

(** Writing to the arrow of index [i] where it sits in the live list. *)
Lemma mutate_hit (pre post : Tagged) (i : nat) (a a' : Arrow) :
  (forall e, In e pre -> (fst e < i)%nat) ->
  (forall e, In e post -> (i < fst e)%nat) ->
  mutate (pre ++ (i, a) :: post) i a' = pre ++ (i, a') :: post.
Proof.
  intros Hpre Hpost.
  assert (E1 : mutate pre i a' = pre)
    by (apply mutate_miss; intros e He; apply Hpre in He; lia).
  assert (E2 : mutate post i a' = post)
    by (apply mutate_miss; intros e He; apply Hpost in He; lia).
  unfold mutate in *. rewrite map_app. cbn [map fst].
  rewrite Nat.eqb_refl, E1, E2. reflexivity.
Qed.

Lemma tag_from_gt (i : nat) (l : list Arrow) (e : nat * Arrow) :
  In e (tag_from (S i) l) -> (i < fst e)%nat.
Proof. intros H. apply tag_from_ge in H. lia. Qed.

(** The frames in which nothing is removed: every arrow advances. *)
Lemma update_projectiles_from_fly (rest : list Arrow) (i : nat) (dt : Z)
      (pre : Tagged) (g : Game) :
  (forall e, In e pre -> (fst e < i)%nat) ->
  (forall a, In a rest -> flies_on (p1 g) dt a = true) ->
  update_projectiles_from rest i dt (pre ++ tag_from i rest) g
  = Ok (pre ++ tag_from i (map (fun a => Arrow_update a dt) rest), g).
Proof.
  revert i pre. induction rest as [|a rest IH]; intros i pre Hpre Hfly.
  - reflexivity.
  - cbn [update_projectiles_from tag_from map].
    pose proof (Hfly a (or_introl eq_refl)) as Ha. unfold flies_on in Ha.
    apply andb_true_iff in Ha. destruct Ha as [Ha Hc].
    apply andb_true_iff in Ha. destruct Ha as [Ha Hu].
    apply negb_true_iff in Hc.
    rewrite Ha. cbn [negb]. cbv zeta.
    rewrite (mutate_hit pre (tag_from (S i) rest) i a (Arrow_update a dt) Hpre
                        (tag_from_gt i rest)).
    rewrite Hu. cbn [negb]. rewrite Hc.
    change (pre ++ (i, Arrow_update a dt) :: tag_from (S i) rest)
      with (pre ++ [(i, Arrow_update a dt)] ++ tag_from (S i) rest).
    rewrite app_assoc. rewrite IH.
    + rewrite <- app_assoc. reflexivity.
    + intros e He. apply in_app_or in He. destruct He as [He | [<- | []]].
      * apply Hpre in He. lia.
      * cbn [fst]. lia.
    + intros b Hb. apply Hfly. right. exact Hb.
Qed.

(** When no arrow dies and none hits the player, [update_projectiles]
    returns normally and [projectiles] holds the same arrows in the same
    order, each advanced by one [Arrow.update]; nothing else changes. *)
Theorem update_projectiles_all_fly (g : Game) (dt : Z) :
  (forall a, In a (projectiles g) -> flies_on (p1 g) dt a = true) ->
  update_projectiles g dt
  = Ok (with_projectiles g (map (fun a => Arrow_update a dt) (projectiles g))).
Proof.
  intros Hfly. unfold update_projectiles.
  assert (H : forall e : nat * Arrow, In e [] -> (fst e < 0)%nat) by (intros e []).
  pose proof (update_projectiles_from_fly (projectiles g) 0 dt [] g H Hfly) as E.
  cbn [app] in E. rewrite E.
  unfold close_projectiles. cbn [fst snd app].
  rewrite map_snd_tag_from. reflexivity.
Qed.

(** Two arrows flying past the player. *)
Lemma update_projectiles_all_fly_witness :
  let g := with_projectiles Game_init
             [arrow_flying; Arrow_init (inject_Z 300) (inject_Z 100) 3 4 12] in
  update_projectiles g 16
  = Ok (with_projectiles g (map (fun a => Arrow_update a 16) (projectiles g))).
Proof.
  intros g. apply update_projectiles_all_fly.
  intros a [<- | [<- | []]]; vm_compute; reflexivity.
Defined.

(** When exactly one arrow leaves the game in a call, because its time is
    up or it has left the screen, [update_projectiles] returns normally
    and [projectiles] holds exactly the other arrows, advanced, in their
    order. *)
Theorem update_projectiles_one_dies (g : Game) (dt : Z) (l1 l2 : list Arrow)
        (a : Arrow) :
  projectiles g = l1 ++ a :: l2 ->
  ar_alive a = true -> ar_alive (Arrow_update a dt) = false ->
  (forall b, In b (l1 ++ l2) -> flies_on (p1 g) dt b = true) ->
  update_projectiles g dt
  = Ok (with_projectiles g (map (fun b => Arrow_update b dt) (l1 ++ l2))).
Proof.
  intros Hp Ha Hd Hfly. unfold update_projectiles. rewrite Hp.
  assert (Hgen : forall (k1 : list Arrow) (i : nat) (pre : Tagged),
             List.length pre = i ->
             (forall e, In e pre -> (fst e < i)%nat) ->
             (forall b, In b k1 -> flies_on (p1 g) dt b = true) ->
             update_projectiles_from (k1 ++ a :: l2) i dt
                                     (pre ++ tag_from i (k1 ++ a :: l2)) g
             = Ok (pre ++ tag_from i (map (fun b => Arrow_update b dt) k1)
                       ++ tag_from (S (i + List.length k1))
                                   (map (fun b => Arrow_update b dt) l2), g)).
  { induction k1 as [|b k1 IH]; intros i pre Hlen Hpre Hk1.
    - cbn [app update_projectiles_from tag_from map List.length].
      rewrite Ha. cbn [negb]. cbv zeta.
      rewrite (mutate_hit pre (tag_from (S i) l2) i a (Arrow_update a dt) Hpre
                          (tag_from_gt i l2)).
      rewrite Hd. cbn [negb].
      subst i. rewrite pop_middle. rewrite Nat.add_0_r.
      apply update_projectiles_from_fly.
      + intros e He. apply Hpre in He. lia.
      + intros c Hc. apply Hfly. apply in_or_app. right. exact Hc.
    - cbn [app update_projectiles_from tag_from map List.length].
      pose proof (Hk1 b (or_introl eq_refl)) as Hb. unfold flies_on in Hb.
      apply andb_true_iff in Hb. destruct Hb as [Hb Hc].
      apply andb_true_iff in Hb. destruct Hb as [Hb Hu].
      apply negb_true_iff in Hc.
      rewrite Hb. cbn [negb]. cbv zeta.
      rewrite (mutate_hit pre (tag_from (S i) (k1 ++ a :: l2)) i b
                          (Arrow_update b dt) Hpre (tag_from_gt i _)).
      rewrite Hu. cbn [negb]. rewrite Hc.
      change (pre ++ (i, Arrow_update b dt) :: tag_from (S i) (k1 ++ a :: l2))
        with (pre ++ [(i, Arrow_update b dt)] ++ tag_from (S i) (k1 ++ a :: l2)).
      rewrite app_assoc. rewrite IH.
      + rewrite <- app_assoc. cbn [app]. rewrite Nat.add_succ_r. reflexivity.
      + rewrite length_app. cbn [List.length]. lia.
      + intros e He. apply in_app_or in He. destruct He as [He | [<- | []]].
        * apply Hpre in He. lia.
        * cbn [fst]. lia.
      + intros c Hc'. apply Hk1. right. exact Hc'. }
  assert (H : forall e : nat * Arrow, In e [] -> (fst e < 0)%nat) by (intros e []).
  assert (H1 : forall b, In b l1 -> flies_on (p1 g) dt b = true)
    by (intros b Hb; apply Hfly; apply in_or_app; left; exact Hb).
  pose proof (Hgen l1 0%nat [] eq_refl H H1) as E.
  cbn [app] in E. rewrite E.
  unfold close_projectiles. cbn [fst snd app].
  rewrite map_app, !map_snd_tag_from, map_app. reflexivity.
Qed.

(** An arrow leaving the screen between two arrows in flight. *)
Lemma update_projectiles_one_dies_witness :
  let far := Arrow_init (inject_Z 300) (inject_Z 100) 3 4 12 in
  let g := with_projectiles Game_init ([arrow_flying] ++ arrow_leaving :: [far]) in
  update_projectiles g 16
  = Ok (with_projectiles g (map (fun b => Arrow_update b 16) ([arrow_flying] ++ [far]))).
Proof.
  intros far g.
  apply (update_projectiles_one_dies g 16 [arrow_flying] [far] arrow_leaving).
  - reflexivity.
  - reflexivity.
  - vm_compute. reflexivity.
  - intros b [<- | [<- | []]]; vm_compute; reflexivity.
Defined.

Lemma Arrow_update_dmg (a : Arrow) (dt : Z) :
  ar_dmg (Arrow_update a dt) = ar_dmg a /\ ar_vel (Arrow_update a dt) = ar_vel a.
Proof. unfold Arrow_update. destruct (negb (ar_alive a)); split; reflexivity. Qed.

(** The state after an arrow of damage [dmg] has hit the player from
    [src]: what [update_projectiles] does between the collision test and
    the [pop]. *)
Lemma arrow_hit_state (g : Game) (dmg : Z) (src : Z * Z) :
  p_alive (p1 g) = true ->
  forall (p : Player) (eb : bool),
    apply_damage (end_boss_alive g) (p1 g) dmg src = (p, eb) ->
    let g1 := with_end_boss_alive (with_p1 g p) eb in
    let g2 := if p_hp (p1 g1) <=? 0 then with_round_over g1 true else g1 in
    p1 g2 = p
    /\ p_hp p = p_hp (p1 g) - dmg
    /\ (p_hp p <= 0 -> p_alive p = false /\ round_over g2 = true)
    /\ (0 < p_hp p -> p_alive p = true /\ round_over g2 = round_over g)
    /\ mobs g2 = mobs g /\ animals g2 = animals g.
Proof.
  intros Ha p eb E. cbv zeta.
  destruct (apply_damage_player (end_boss_alive g) (p1 g) dmg src Ha)
    as (Hhp & _ & Hal & _).
  rewrite E in Hhp, Hal. cbn [fst] in Hhp, Hal.
  game_cbn. rewrite Hhp, Hal.
  destruct (p_hp (p1 g) - dmg <=? 0) eqn:Ez; game_cbn.
  - apply Z.leb_le in Ez. repeat split; auto; lia.
  - apply Z.leb_gt in Ez. repeat split; auto; lia.
Qed.

(** When exactly one arrow hits the live player in a call and none dies,
    [update_projectiles] returns normally: the player loses exactly the
    damage of that arrow, dies and ends the round if the hit points are
    then at most zero, and [projectiles] holds exactly the other arrows,
    advanced, in their order. *)
Theorem update_projectiles_one_hits (g : Game) (dt : Z) (l1 l2 : list Arrow)
        (a : Arrow) :
  projectiles g = l1 ++ a :: l2 ->
  ar_alive a = true -> ar_alive (Arrow_update a dt) = true ->
  p_alive (p1 g) = true ->
  colliderect (ar_rect (Arrow_update a dt)) (p_rect (p1 g)) = true ->
  (forall b, In b l1 -> flies_on (p1 g) dt b = true) ->
  (forall b, In b l2 ->
     flies_on (fst (apply_damage (end_boss_alive g) (p1 g) (ar_dmg a)
                                 (center (ar_rect (Arrow_update a dt))))) dt b
     = true) ->
  exists g' : Game,
    update_projectiles g dt = Ok g'
    /\ projectiles g' = map (fun b => Arrow_update b dt) (l1 ++ l2)
    /\ p_hp (p1 g') = p_hp (p1 g) - ar_dmg a
    /\ (p_hp (p1 g') <= 0 -> p_alive (p1 g') = false /\ round_over g' = true)
    /\ (0 < p_hp (p1 g') -> p_alive (p1 g') = true /\ round_over g' = round_over g)
    /\ mobs g' = mobs g /\ animals g' = animals g.
Proof.
  intros Hp Ha Hu Hpa Hc Hfly1 Hfly2. unfold update_projectiles. rewrite Hp.
  destruct (apply_damage (end_boss_alive g) (p1 g) (ar_dmg a)
                         (center (ar_rect (Arrow_update a dt)))) as [p eb] eqn:E.
  cbn [fst] in Hfly2.
  pose proof (arrow_hit_state g (ar_dmg a) (center (ar_rect (Arrow_update a dt)))
                              Hpa p eb E) as Hst.
  cbv zeta in Hst.
  set (g2 := if p_hp (p1 (with_end_boss_alive (with_p1 g p) eb)) <=? 0
             then with_round_over (with_end_boss_alive (with_p1 g p) eb) true
             else with_end_boss_alive (with_p1 g p) eb) in *.
  destruct Hst as (Hp2 & Hhp & Hdead & Hlive & Hm & Han).
  assert (Hgen : forall (k1 : list Arrow) (i : nat) (pre : Tagged),
             List.length pre = i ->
             (forall e, In e pre -> (fst e < i)%nat) ->
             (forall b, In b k1 -> flies_on (p1 g) dt b = true) ->
             update_projectiles_from (k1 ++ a :: l2) i dt
                                     (pre ++ tag_from i (k1 ++ a :: l2)) g
             = Ok (pre ++ tag_from i (map (fun b => Arrow_update b dt) k1)
                       ++ tag_from (S (i + List.length k1))
                                   (map (fun b => Arrow_update b dt) l2), g2)).
  { induction k1 as [|b k1 IH]; intros i pre Hlen Hpre Hk1.
    - cbn [app update_projectiles_from tag_from map List.length].
      rewrite Ha. cbn [negb]. cbv zeta.
      rewrite (mutate_hit pre (tag_from (S i) l2) i a (Arrow_update a dt) Hpre
                          (tag_from_gt i l2)).
      rewrite Hu. cbn [negb]. rewrite Hpa, Hc. cbn [andb].
      rewrite (proj1 (Arrow_update_dmg a dt)), E.
      rewrite (mutate_hit pre (tag_from (S i) l2) i (Arrow_update a dt)
                          (ar_with_alive (Arrow_update a dt) false) Hpre
                          (tag_from_gt i l2)).
      subst i. rewrite pop_middle. rewrite Nat.add_0_r.
      fold g2.
      apply update_projectiles_from_fly.
      + intros e He. apply Hpre in He. lia.
      + intros c Hc'. rewrite Hp2. apply Hfly2. exact Hc'.
    - cbn [app update_projectiles_from tag_from map List.length].
      pose proof (Hk1 b (or_introl eq_refl)) as Hb. unfold flies_on in Hb.
      apply andb_true_iff in Hb. destruct Hb as [Hb Hcb].
      apply andb_true_iff in Hb. destruct Hb as [Hb Hub].
      apply negb_true_iff in Hcb.
      rewrite Hb. cbn [negb]. cbv zeta.
      rewrite (mutate_hit pre (tag_from (S i) (k1 ++ a :: l2)) i b
                          (Arrow_update b dt) Hpre (tag_from_gt i _)).
      rewrite Hub. cbn [negb]. rewrite Hcb.
      change (pre ++ (i, Arrow_update b dt) :: tag_from (S i) (k1 ++ a :: l2))
        with (pre ++ [(i, Arrow_update b dt)] ++ tag_from (S i) (k1 ++ a :: l2)).
      rewrite app_assoc. rewrite IH.
      + rewrite <- app_assoc. cbn [app]. rewrite Nat.add_succ_r. reflexivity.
      + rewrite length_app. cbn [List.length]. lia.
      + intros e He. apply in_app_or in He. destruct He as [He | [<- | []]].
        * apply Hpre in He. lia.
        * cbn [fst]. lia.
      + intros c Hc'. apply Hk1. right. exact Hc'. }
  assert (H : forall e : nat * Arrow, In e [] -> (fst e < 0)%nat) by (intros e []).
  pose proof (Hgen l1 0%nat [] eq_refl H Hfly1) as Eg.
  cbn [app] in Eg. rewrite Eg.
  eexists. split; [reflexivity |].
  unfold close_projectiles. cbn [fst snd]. game_cbn.
  rewrite map_app, !map_snd_tag_from, map_app.
  rewrite Hp2.
  split; [reflexivity |]. split; [exact Hhp |]. split; [exact Hdead |].
  split; [exact Hlive |]. split; assumption.
Qed.

(** The arrow about to hit the player between two arrows in flight. *)
Lemma update_projectiles_one_hits_witness :
  let far := Arrow_init (inject_Z 300) (inject_Z 100) 3 4 12 in
  let g := with_projectiles Game_init ([arrow_flying] ++ arrow_hitting :: [far]) in
  exists g' : Game,
    update_projectiles g 16 = Ok g'
    /\ projectiles g' = map (fun b => Arrow_update b 16) ([arrow_flying] ++ [far])
    /\ p_hp (p1 g') = p_hp (p1 g) - ar_dmg arrow_hitting
    /\ (p_hp (p1 g') <= 0 -> p_alive (p1 g') = false /\ round_over g' = true)
    /\ (0 < p_hp (p1 g') -> p_alive (p1 g') = true /\ round_over g' = round_over g)
    /\ mobs g' = mobs g /\ animals g' = animals g.
Proof.
  intros far g.
  apply (update_projectiles_one_hits g 16 [arrow_flying] [far] arrow_hitting).
  - reflexivity.
  - reflexivity.
  - vm_compute. reflexivity.
  - reflexivity.
  - vm_compute. reflexivity.
  - intros b [<- | []]; vm_compute; reflexivity.
  - intros b [<- | []]; vm_compute; reflexivity.
Defined.

(* ================================================================== *)
(** * The invariant of the main loop *)

(** ** Counting under pointwise fading *)

Lemma count_if_cons {A : Type} (f : A -> bool) (x : A) (l : list A) :
  count_if f (x :: l) = (if f x then 1 else 0) + count_if f l.
Proof.
  unfold count_if. cbn [filter]. destruct (f x); cbn [List.length]; lia.
Qed.

Lemma count_if_fades {A : Type} (f : A -> bool) (l l' : list A) :
  Forall2 (fun x y => f y = true -> f x = true) l l' ->
  count_if f l' <= count_if f l.
Proof.
  induction 1 as [|x y l l' Hxy _ IH]; [lia |].
  rewrite !count_if_cons.
  destruct (f y) eqn:Ey; [rewrite (Hxy eq_refl) |]; destruct (f x); lia.
Qed.

Lemma count_if_filter_le {A : Type} (f k : A -> bool) (l : list A) :
  count_if f (filter k l) <= count_if f l.
Proof.
  induction l as [|x l IH]; [apply Z.le_refl |].
  cbn [filter]. destruct (k x); rewrite !count_if_cons; destruct (f x); lia.
Qed.

Lemma count_if_filter_same {A : Type} (f k : A -> bool) (l : list A) :
  (forall x, f x = true -> k x = true) ->
  count_if f (filter k l) = count_if f l.
Proof.
  intros Hfk. induction l as [|x l IH]; [reflexivity |].
  cbn [filter]. destruct (k x) eqn:Ek; rewrite !count_if_cons, ?IH; [reflexivity |].
  destruct (f x) eqn:Ef; [| lia]. rewrite (Hfk x Ef) in Ek. discriminate.
Qed.

Lemma live_nonboss_le_live (l : list Mob) :
  count_if live_nonboss l <= count_if m_alive l.
Proof.
  induction l as [|m l IH]; [apply Z.le_refl |].
  rewrite !count_if_cons. unfold live_nonboss at 1.
  destruct (m_alive m), (not_boss m); cbn [andb]; lia.
Qed.

Lemma live_le_nonboss_plus_boss (l : list Mob) :
  count_if m_alive l
  <= count_if live_nonboss l + count_if (fun m => is_boss_kind (m_kind m)) l.
Proof.
  induction l as [|m l IH]; [unfold count_if; cbn; lia |].
  rewrite !count_if_cons. unfold live_nonboss at 1, not_boss.
  destruct (m_alive m), (is_boss_kind (m_kind m)); cbn [andb negb]; lia.
Qed.

Lemma mob_fades_refl (m : Mob) : mob_fades m m.
Proof. split; auto. Qed.

Lemma Forall2_refl {A : Type} (R : A -> A -> Prop) (l : list A) :
  (forall x, R x x) -> Forall2 R l l.
Proof. intros HR. induction l; constructor; auto. Qed.

Lemma Forall2_trans {A : Type} (R : A -> A -> Prop) (l1 l2 l3 : list A) :
  (forall x y z, R x y -> R y z -> R x z) ->
  Forall2 R l1 l2 -> Forall2 R l2 l3 -> Forall2 R l1 l3.
Proof.
  intros HR H12. revert l3. induction H12 as [|x y l1 l2 Hxy _ IH]; intros l3 H23.
  - inversion H23. constructor.
  - inversion H23 as [|y' z l2' l3' Hyz H23']; subst.
    constructor; [eapply HR; eassumption | apply IH; assumption].
Qed.

Lemma Forall2_set_nth {A : Type} (R : A -> A -> Prop) (l : list A) (i : nat)
      (x x' : A) :
  (forall y, R y y) -> nth_error l i = Some x -> R x x' ->
  Forall2 R l (set_nth l i x').
Proof.
  intros HR. revert i. induction l as [|h l IH]; intros i Hn Hx;
    [destruct i; discriminate |].
  destruct i as [|i]; cbn [nth_error set_nth] in *.
  - injection Hn as ->. constructor; [assumption | apply Forall2_refl; assumption].
  - constructor; [apply HR | apply IH; assumption].
Qed.

Lemma mobs_fade_counts (l l' : list Mob) :
  Forall2 mob_fades l l' ->
  count_if (fun m => is_boss_kind (m_kind m)) l'
  <= count_if (fun m => is_boss_kind (m_kind m)) l
  /\ count_if live_nonboss l' <= count_if live_nonboss l.
Proof.
  intros H. split; apply count_if_fades;
    (eapply Forall2_impl; [| exact H]); intros m m' [Hk Ha].
  - rewrite Hk. auto.
  - unfold live_nonboss, not_boss. rewrite Hk. intros E.
    apply andb_true_iff in E. destruct E as [E1 E2].
    rewrite (Ha E1), E2. reflexivity.
Qed.

(** ** Quiet steps *)

Lemma quiet_step_refl (g : Game) : quiet_step g g.
Proof.
  unfold quiet_step. repeat split; auto.
  - apply Forall2_refl. apply mob_fades_refl.
  - apply Forall2_refl. unfold animal_fades. auto.
Qed.

Lemma quiet_step_trans (g1 g2 g3 : Game) :
  quiet_step g1 g2 -> quiet_step g2 g3 -> quiet_step g1 g3.
Proof.
  unfold quiet_step.
  intros (T1 & P1 & M1 & A1 & R1) (T2 & P2 & M2 & A2 & R2).
  split; [congruence |]. split; [congruence |]. split; [| split].
  - eapply Forall2_trans; [| exact M1 | exact M2].
    unfold mob_fades. intros x y z [K1 L1] [K2 L2]. split; [congruence | auto].
  - eapply Forall2_trans; [| exact A1 | exact A2].
    unfold animal_fades. auto.
  - auto.
Qed.

(** A step that touches neither theme, mobs, animals nor projectiles. *)
Lemma quiet_step_same (g g' : Game) :
  theme g' = theme g -> prev_theme g' = prev_theme g -> mobs g' = mobs g ->
  animals g' = animals g -> projectiles g' = projectiles g -> quiet_step g g'.
Proof.
  intros T P M A R. unfold quiet_step. rewrite T, P, M, A, R.
  apply quiet_step_refl.
Qed.

Lemma quiet_step_invariant (g g' : Game) :
  quiet_step g g' -> game_invariant g -> game_invariant g'.
Proof.
  unfold quiet_step, game_invariant, boss_count.
  intros (T & P & M & A & R) (I1 & I2 & I3 & I4 & I5).
  destruct (mobs_fade_counts _ _ M) as [Hb Hl].
  pose proof (count_if_fades a_alive _ _ A) as Ha.
  split; [congruence |]. repeat split; try lia. auto.
Qed.

Lemma apply_damage_mob_fades (eb : bool) (m : Mob) (dmg : Z) (src : Z * Z) :
  mob_fades m (fst (apply_damage eb m dmg src)).
Proof.
  unfold apply_damage, mob_fades.
  change (d_alive m) with (m_alive m).
  destruct (m_alive m) eqn:Ha; cbn [negb fst]; [| rewrite Ha; auto].
  cbn [d_with_hp d_hp d_rect d_with_rect d_with_alive d_is_boss_mob
       Damageable_Mob].
  destruct (m_hp (m_with_rect _ _) <=? 0); cbn [fst]; split; auto.
Qed.

Lemma apply_damage_animal_fades (eb : bool) (a : Animal) (dmg : Z) (src : Z * Z) :
  animal_fades a (fst (apply_damage eb a dmg src)).
Proof.
  unfold apply_damage, animal_fades.
  change (d_alive a) with (a_alive a).
  destruct (a_alive a) eqn:Ha; cbn [negb fst]; [| rewrite Ha; auto].
  auto.
Qed.

Lemma melee_mob_quiet (g : Game) (pos : nat) (m : Mob) (r : Rng) :
  nth_error (mobs g) pos = Some m -> quiet_step g (fst (melee_mob g pos m r)).
Proof.
  intros Hn. unfold melee_mob.
  pose proof (apply_damage_mob_fades (end_boss_alive g) m (w_dmg (p_weapon (p1 g)))
                                     (center (p_rect (p1 g)))) as Hf.
  destruct (apply_damage (end_boss_alive g) m (w_dmg (p_weapon (p1 g)))
                         (center (p_rect (p1 g)))) as [obj eb].
  cbn [fst] in Hf.
  assert (Hq : forall h, theme h = theme g -> prev_theme h = prev_theme g ->
                         mobs h = set_nth (mobs g) pos obj ->
                         animals h = animals g -> projectiles h = projectiles g ->
                         quiet_step g h).
  { intros h T P M A R. unfold quiet_step. rewrite T, P, M, A, R.
    repeat split; auto.
    - eapply Forall2_set_nth; [apply mob_fades_refl | exact Hn | exact Hf].
    - apply Forall2_refl. unfold animal_fades. auto. }
  destruct (negb (m_alive obj)); [| apply Hq; reflexivity].
  cbv zeta.
  destruct (negb (is_boss_kind (m_kind obj))); [| apply Hq; reflexivity].
  unfold bind, ret. destruct (random_unit r) as [u r'].
  destruct (Qlt_bool u (drop_chance (m_kind obj))); apply Hq; reflexivity.
Qed.

Lemma melee_animal_quiet (g : Game) (pos : nat) (a : Animal) :
  nth_error (animals g) pos = Some a -> quiet_step g (melee_animal g pos a).
Proof.
  intros Hn. unfold melee_animal.
  pose proof (apply_damage_animal_fades (end_boss_alive g) a
                (w_dmg (p_weapon (p1 g))) (center (p_rect (p1 g)))) as Hf.
  destruct (apply_damage (end_boss_alive g) a (w_dmg (p_weapon (p1 g)))
                         (center (p_rect (p1 g)))) as [obj eb].
  cbn [fst] in Hf.
  assert (Hq : forall h, theme h = theme g -> prev_theme h = prev_theme g ->
                         mobs h = mobs g ->
                         animals h = set_nth (animals g) pos obj ->
                         projectiles h = projectiles g ->
                         quiet_step g h).
  { intros h T P M A R. unfold quiet_step. rewrite T, P, M, A, R.
    repeat split; auto.
    - apply Forall2_refl. apply mob_fades_refl.
    - eapply Forall2_set_nth; [unfold animal_fades; auto | exact Hn | exact Hf]. }
  destruct (negb (a_alive obj)); apply Hq; reflexivity.
Qed.

Lemma melee_hits_quiet (refs : list ObjRef) (hits_idx : list nat) (g : Game)
      (r : Rng) :
  quiet_step g (fst (melee_hits refs hits_idx g r)).
Proof.
  revert g r. induction hits_idx as [|idx rest IH]; intros g r.
  - apply quiet_step_refl.
  - cbn [melee_hits]. unfold bind.
    assert (H1 : quiet_step g (fst (melee_hit refs g idx r))).
    { unfold melee_hit.
      destruct (nth_error refs idx) as [[pos | pos]|]; try apply quiet_step_refl.
      - destruct (nth_error (mobs g) pos) as [m|] eqn:En; [| apply quiet_step_refl].
        apply melee_mob_quiet. exact En.
      - destruct (nth_error (animals g) pos) as [a|] eqn:En; [| apply quiet_step_refl].
        apply melee_animal_quiet. exact En. }
    destruct (melee_hit refs g idx r) as [g1 r1]. cbn [fst] in H1.
    eapply quiet_step_trans; [exact H1 | apply IH].
Qed.

Lemma hunter_melee_quiet (g : Game) (now : Z) (r : Rng) :
  quiet_step g (fst (hunter_melee g now r)).
Proof.
  unfold hunter_melee. set (targets := _ ++ _).
  destruct (try_attack (p1 g) now (map fst targets)) as [p hits_idx].
  eapply quiet_step_trans; [| apply melee_hits_quiet].
  apply quiet_step_same; reflexivity.
Qed.

Lemma update_player_quiet (g : Game) (inp : Inputs) (r : Rng) :
  quiet_step g (fst (update_player g inp r)).
Proof.
  unfold update_player. cbv zeta.
  destruct (if Qlt_bool 0 _ then _ else _) as [dx dy].
  destruct (consume_attack_tap (vpad (with_p1 g _))) as [vp touch].
  match goal with
  | |- quiet_step _ (fst ((if ?c then _ else _) _)) => destruct c
  end.
  - eapply quiet_step_trans; [| apply hunter_melee_quiet].
    apply quiet_step_same; reflexivity.
  - apply quiet_step_same; reflexivity.
Qed.

Lemma set_nth_middle {A : Type} (a b : list A) (x y : A) :
  set_nth (a ++ x :: b) (List.length a) y = a ++ y :: b.
Proof.
  induction a as [|h a IH]; cbn [set_nth app List.length]; [reflexivity |].
  rewrite IH. reflexivity.
Qed.

Lemma Mob_ai_fades (m : Mob) (target_pos : Z * Z) :
  m_kind (Mob_ai m target_pos) = m_kind m
  /\ m_alive (Mob_ai m target_pos) = m_alive m.
Proof.
  unfold Mob_ai. destruct (negb (m_alive m)); split; reflexivity.
Qed.

Lemma mobs_damage_p1_on_touch_cast (g : Game) (m : Mob) :
  let g' := mobs_damage_p1_on_touch g m in
  theme g' = theme g /\ prev_theme g' = prev_theme g /\ mobs g' = mobs g
  /\ animals g' = animals g /\ projectiles g' = projectiles g.
Proof.
  cbv zeta. unfold mobs_damage_p1_on_touch.
  destruct (negb (m_alive m && p_alive (p1 g))); [repeat split |].
  destruct (colliderect (m_rect m) (p_rect (p1 g))); [| repeat split].
  destruct (apply_damage _ _ _ _) as [p eb]. cbv zeta.
  destruct (p_hp (p1 (with_end_boss_alive (with_p1 g p) eb)) <=? 0); repeat split.
Qed.

Lemma arrows_ok_app (l : list Arrow) (a : Arrow) :
  arrows_ok l -> ar_dmg a = 12 -> arrows_ok (l ++ [a]).
Proof.
  intros Hl Ha. unfold arrows_ok. apply Forall_app. split; [exact Hl |].
  constructor; [exact Ha | constructor].
Qed.

Lemma update_mobs_from_quiet (todo done : list Mob) (now_ms : Z) (g : Game) :
  mobs g = done ++ todo ->
  quiet_step g (update_mobs_from todo (List.length done) now_ms g).
Proof.
  revert done g. induction todo as [|m rest IH]; intros done g Hm.
  - apply quiet_step_refl.
  - cbn [update_mobs_from].
    assert (Hnext : forall (h : Game) (m' : Mob),
               quiet_step g h -> mobs h = done ++ m' :: rest ->
               quiet_step g (update_mobs_from rest (S (List.length done)) now_ms h)).
    { intros h m' Hq Hh.
      eapply quiet_step_trans; [exact Hq |].
      specialize (IH (done ++ [m']) h).
      rewrite length_app in IH. cbn [List.length] in IH.
      rewrite Nat.add_1_r in IH. apply IH.
      rewrite <- app_assoc. exact Hh. }
    destruct (m_alive m) eqn:Ha; cbn [negb].
    + cbv zeta.
      set (m1 := Mob_ai m (center (p_rect (p1 g)))).
      destruct (Mob_ai_fades m (center (p_rect (p1 g)))) as [Hk1 Ha1].
      fold m1 in Hk1, Ha1.
      set (g1 := with_mobs g (set_nth (mobs g) (List.length done) m1)).
      pose proof (mobs_damage_p1_on_touch_cast g1 m1) as Hc. cbv zeta in Hc.
      set (g2 := mobs_damage_p1_on_touch g1 m1) in *.
      destruct Hc as (T2 & P2 & M2 & A2 & R2).
      pose proof (try_skeleton_shoot_cases g2 m1 now_ms) as Hs.
      destruct (try_skeleton_shoot g2 m1 now_ms) as [g3 m2].
      cbn [fst snd] in Hs.
      assert (Hg3 : theme g3 = theme g /\ prev_theme g3 = prev_theme g
                    /\ mobs g3 = done ++ m1 :: rest /\ animals g3 = animals g
                    /\ (arrows_ok (projectiles g) -> arrows_ok (projectiles g3))
                    /\ m_kind m2 = m_kind m /\ m_alive m2 = m_alive m).
      { assert (M1 : mobs g1 = done ++ m1 :: rest)
          by (unfold g1; game_cbn; rewrite Hm; apply set_nth_middle).
        destruct Hs as [E | (a & E3 & Hd & _ & _ & Em & _)].
        - injection E as -> ->. rewrite T2, P2, M2, A2, R2.
          repeat split; auto.
        - rewrite E3, Em. game_cbn. rewrite T2, P2, M2, A2, R2.
          repeat split; auto.
          intros Hok. apply arrows_ok_app; [exact Hok | exact Hd]. }
      destruct Hg3 as (T3 & P3 & M3 & A3 & R3 & K3 & L3).
      apply (Hnext _ m2).
      * unfold quiet_step. game_cbn. rewrite T3, P3, M3, A3, Hm, set_nth_middle.
        repeat split; auto.
        -- apply Forall2_app; [apply Forall2_refl; apply mob_fades_refl |].
           constructor; [| apply Forall2_refl; apply mob_fades_refl].
           split; [exact K3 | rewrite L3; auto].
        -- apply Forall2_refl. unfold animal_fades. auto.
      * game_cbn. rewrite M3. apply set_nth_middle.
    + apply (Hnext g m); [apply quiet_step_refl | exact Hm].
Qed.

Lemma update_mobs_quiet (g : Game) (now_ms : Z) : quiet_step g (update_mobs g now_ms).
Proof.
  unfold update_mobs. apply (update_mobs_from_quiet (mobs g) [] now_ms g). reflexivity.
Qed.

Lemma Animal_ai_fades (a : Animal) (r : Rng) : animal_fades a (fst (Animal_ai a r)).
Proof.
  unfold animal_fades. destruct (a_alive a) eqn:Ha; [auto |].
  unfold Animal_ai. rewrite Ha. cbn [negb fst ret]. unfold ret. cbn [fst].
  rewrite Ha. auto.
Qed.

Lemma animals_ai_fades (l : list Animal) (r : Rng) :
  Forall2 animal_fades l (fst (animals_ai l r)).
Proof.
  revert r. induction l as [|a l IH]; intros r; [constructor |].
  cbn [animals_ai]. unfold bind at 1.
  assert (Ha : animal_fades a
                 (fst ((if negb (a_alive a) then ret a else Animal_ai a) r))).
  { destruct (negb (a_alive a)); [unfold animal_fades; auto | apply Animal_ai_fades]. }
  destruct ((if negb (a_alive a) then ret a else Animal_ai a) r) as [a' r1].
  cbn [fst] in Ha. unfold bind, ret.
  specialize (IH r1). destruct (animals_ai l r1) as [l' r2]. cbn [fst] in *.
  constructor; assumption.
Qed.

Lemma update_animals_quiet (g : Game) (r : Rng) :
  quiet_step g (fst (update_animals g r)).
Proof.
  unfold update_animals, bind, ret.
  pose proof (animals_ai_fades (animals g) r) as H.
  destruct (animals_ai (animals g) r) as [l r']. cbn [fst] in *.
  unfold quiet_step. game_cbn. repeat split; auto.
  apply Forall2_refl. apply mob_fades_refl.
Qed.

Lemma pick_weapons_from_quiet (snapshot : list (Rect * Weapon)) (i : nat) (g : Game) :
  quiet_step g (outcome_state (pick_weapons_from snapshot i g)).
Proof.
  revert i g. induction snapshot as [|[r wpn] rest IH]; intros i g.
  - apply quiet_step_refl.
  - cbn [pick_weapons_from].
    destruct (colliderect (p_rect (p1 g)) r); [| apply IH].
    game_cbn. destruct (pop (weapon_drops g) i) as [l|].
    + eapply quiet_step_trans; [| apply IH]. apply quiet_step_same; reflexivity.
    + apply quiet_step_same; reflexivity.
Qed.

Lemma try_pick_health_from_quiet (snapshot : list (Rect * Z)) (i : nat) (g : Game) :
  quiet_step g (outcome_state (try_pick_health_from snapshot i g)).
Proof.
  revert i g. induction snapshot as [|[r amount] rest IH]; intros i g.
  - apply quiet_step_refl.
  - cbn [try_pick_health_from].
    destruct (p_alive (p1 g) && colliderect (p_rect (p1 g)) r); [| apply IH].
    game_cbn. destruct (pop (health_packs g) i) as [l|].
    + eapply quiet_step_trans; [| apply IH]. apply quiet_step_same; reflexivity.
    + apply quiet_step_same; reflexivity.
Qed.

Lemma pop_Forall {A : Type} (P : A -> Prop) (l l' : list A) (i : nat) :
  pop l i = Some l' -> Forall P l -> Forall P l'.
Proof.
  revert i l'. induction l as [|h l IH]; intros i l' Hp Hl; [discriminate |].
  inversion Hl as [|h' l0 Hh Hl']; subst.
  destruct i as [|i]; cbn [pop] in Hp.
  - injection Hp as <-. exact Hl'.
  - destruct (pop l i) as [l1|] eqn:E; [| discriminate].
    cbn [option_map] in Hp. injection Hp as <-.
    constructor; [exact Hh | eapply IH; eassumption].
Qed.

Lemma mutate_Forall (P : Arrow -> Prop) (live : Tagged) (i : nat) (a : Arrow) :
  P a -> Forall P (map snd live) -> Forall P (map snd (mutate live i a)).
Proof.
  intros Ha. unfold mutate. induction live as [|e live IH]; intros Hl; [constructor |].
  cbn [map] in *. inversion Hl as [|x l0 He Hl']; subst.
  constructor; [| apply IH; exact Hl'].
  destruct (Nat.eqb (fst e) i); [exact Ha | exact He].
Qed.

Lemma pop_map_snd (live live' : Tagged) (i : nat) :
  pop live i = Some live' -> pop (map snd live) i = Some (map snd live').
Proof.
  revert i live'. induction live as [|e live IH]; intros i live' Hp; [discriminate |].
  destruct i as [|i]; cbn [pop map] in *.
  - injection Hp as <-. reflexivity.
  - destruct (pop live i) as [l1|] eqn:E; [| discriminate].
    cbn [option_map] in Hp. injection Hp as <-.
    rewrite (IH i l1 E). reflexivity.
Qed.

Lemma update_projectiles_from_quiet (snapshot : list Arrow) (i : nat) (dt : Z)
      (live : Tagged) (g : Game) :
  let s := outcome_state (update_projectiles_from snapshot i dt live g) in
  theme (snd s) = theme g /\ prev_theme (snd s) = prev_theme g
  /\ mobs (snd s) = mobs g /\ animals (snd s) = animals g
  /\ (arrows_ok snapshot -> arrows_ok (map snd live) -> arrows_ok (map snd (fst s))).
Proof.
  cbv zeta. revert i live g.
  induction snapshot as [|pr rest IH]; intros i live g.
  - cbn [update_projectiles_from outcome_state fst snd]. repeat split; auto.
  - cbn [update_projectiles_from].
    assert (Hrest : arrows_ok (pr :: rest) -> arrows_ok rest)
      by (intros Hs; inversion Hs; assumption).
    assert (Hupd : arrows_ok (pr :: rest) -> ar_dmg (Arrow_update pr dt) = 12).
    { intros Hs. inversion Hs as [|x l0 Hd _]; subst.
      rewrite (proj1 (Arrow_update_dmg pr dt)). exact Hd. }
    assert (Hpopped : forall lv lv' : Tagged,
               pop lv i = Some lv' -> arrows_ok (map snd lv) -> arrows_ok (map snd lv')).
    { intros lv lv' Ep Hl. apply pop_map_snd in Ep.
      eapply pop_Forall; [exact Ep | exact Hl]. }
    destruct (ar_alive pr) eqn:Hal; cbn [negb].
    + cbv zeta.
      destruct (ar_alive (Arrow_update pr dt)) eqn:Hu; cbn [negb].
      * destruct (p_alive (p1 g)
                  && colliderect (ar_rect (Arrow_update pr dt)) (p_rect (p1 g))).
        -- destruct (apply_damage _ _ _ _) as [p eb].
           match goal with
           | |- context [pop ?lv i] => destruct (pop lv i) as [lv'|] eqn:Ep
           end.
           ++ match goal with
              | |- context [update_projectiles_from rest (S i) dt lv' ?x] => set (h := x)
              end.
              assert (Hh : theme h = theme g /\ prev_theme h = prev_theme g
                           /\ mobs h = mobs g /\ animals h = animals g)
                by (unfold h; match goal with
                              | |- context [if ?c then _ else _] => destruct c
                              end; repeat split).
              destruct Hh as (T & P & M & A).
              destruct (IH (S i) lv' h) as (T' & P' & M' & A' & R').
              rewrite T', P', M', A'. repeat split; auto.
              intros Hs Hl. apply R'; [auto |].
              apply (Hpopped _ _ Ep).
              apply mutate_Forall; [apply (Hupd Hs) |].
              apply mutate_Forall; [apply (Hupd Hs) | exact Hl].
           ++ cbn [outcome_state fst snd]. repeat split; auto.
              intros Hs Hl.
              apply mutate_Forall; [apply (Hupd Hs) |].
              apply mutate_Forall; [apply (Hupd Hs) | exact Hl].
        -- destruct (IH (S i) (mutate live i (Arrow_update pr dt)) g)
             as (T' & P' & M' & A' & R').
           repeat split; auto.
           intros Hs Hl. apply R'; [auto |].
           apply mutate_Forall; [apply (Hupd Hs) | exact Hl].
      * match goal with
           | |- context [pop ?lv i] => destruct (pop lv i) as [lv'|] eqn:Ep
           end.
        -- destruct (IH (S i) lv' g) as (T' & P' & M' & A' & R').
           repeat split; auto.
           intros Hs Hl. apply R'; [auto |].
           apply (Hpopped _ _ Ep).
           apply mutate_Forall; [apply (Hupd Hs) | exact Hl].
        -- cbn [outcome_state fst snd]. repeat split; auto.
           intros Hs Hl. apply mutate_Forall; [apply (Hupd Hs) | exact Hl].
    + destruct (pop live i) as [lv'|] eqn:Ep.
      * destruct (IH (S i) lv' g) as (T' & P' & M' & A' & R').
        repeat split; auto.
        intros Hs Hl. apply R'; [auto |]. apply (Hpopped _ _ Ep). exact Hl.
      * cbn [outcome_state fst snd]. repeat split; auto.
Qed.

Lemma update_projectiles_quiet (g : Game) (dt : Z) :
  quiet_step g (outcome_state (update_projectiles g dt)).
Proof.
  unfold update_projectiles.
  pose proof (update_projectiles_from_quiet (projectiles g) 0 dt
                (tag_from 0 (projectiles g)) g) as H.
  cbv zeta in H.
  assert (Hclose : forall s : Tagged * Game,
             theme (snd s) = theme g /\ prev_theme (snd s) = prev_theme g
             /\ mobs (snd s) = mobs g /\ animals (snd s) = animals g
             /\ (arrows_ok (projectiles g) ->
                 arrows_ok (map snd (tag_from 0 (projectiles g))) ->
                 arrows_ok (map snd (fst s))) ->
             quiet_step g (close_projectiles s)).
  { intros s (T & P & M & A & R).
    unfold close_projectiles, quiet_step. game_cbn. rewrite T, P, M, A.
    split; [reflexivity |]. split; [reflexivity |].
    split; [apply Forall2_refl; apply mob_fades_refl |].
    split; [apply Forall2_refl; unfold animal_fades; auto |].
    intros Hok. apply R; [exact Hok | rewrite map_snd_tag_from; exact Hok]. }
  destruct (update_projectiles_from (projectiles g) 0 dt
              (tag_from 0 (projectiles g)) g) as [s | s];
    cbn [outcome_state] in *; apply Hclose; exact H.
Qed.

Lemma cleanup_invariant (g : Game) : game_invariant g -> game_invariant (cleanup g).
Proof.
  unfold game_invariant, cleanup, boss_count. game_cbn.
  intros (I1 & I2 & I3 & I4 & I5).
  split; [exact I1 |]. split; [| split; [| split; [| exact I5]]].
  - rewrite count_if_filter_same; auto.
  - pose proof (count_if_filter_le (fun m => is_boss_kind (m_kind m)) m_alive (mobs g)).
    lia.
  - rewrite count_if_filter_same; [exact I4 |].
    unfold live_nonboss. intros m E. apply andb_true_iff in E. tauto.
Qed.

Lemma update_pickups_invariant (g : Game) (dt : Z) :
  game_invariant g -> game_invariant (outcome_state (update_pickups g dt)).
Proof.
  intros Hinv. unfold update_pickups, and_then.
  pose proof (pick_weapons_from_quiet (weapon_drops g) 0 g) as H1.
  fold (pick_weapons g) in H1.
  destruct (pick_weapons g) as [g1 | g1]; cbn [outcome_state] in *;
    [| apply (quiet_step_invariant g _ H1 Hinv)].
  pose proof (try_pick_health_from_quiet (health_packs g1) 0 g1) as H2.
  fold (try_pick_health g1) in H2.
  pose proof (quiet_step_invariant g g1 H1 Hinv) as Hinv1.
  destruct (try_pick_health g1) as [g2 | g2]; cbn [outcome_state] in *;
    [| apply (quiet_step_invariant g1 _ H2 Hinv1)].
  pose proof (quiet_step_invariant g1 g2 H2 Hinv1) as Hinv2.
  pose proof (update_projectiles_quiet g2 dt) as H3.
  destruct (update_projectiles g2 dt) as [g3 | g3]; cbn [outcome_state id] in *.
  - apply cleanup_invariant. apply (quiet_step_invariant g2 g3 H3 Hinv2).
  - apply (quiet_step_invariant g2 g3 H3 Hinv2).
Qed.

(** ** Steps that add to the cast *)

Lemma spawn_animal_cases (g : Game) (r : Rng) (P : Game -> Prop) :
  P g ->
  (count_if a_alive (animals g) < MAX_ALIVE_ANIMALS ->
   forall a : Animal, a_alive a = true -> P (with_animals g (animals g ++ [a]))) ->
  P (fst (spawn_animal g r)).
Proof.
  intros Hsame Hadd. unfold spawn_animal.
  destruct (MAX_ALIVE_ANIMALS <=? count_if a_alive (animals g)) eqn:Ec;
    [exact Hsame |].
  apply Z.leb_gt in Ec. unfold bind at 1.
  destruct (choice ANIMALS r) as [[kind|] r1]; [| exact Hsame].
  unfold bind at 1. destruct (randint 60 (WIDTH - 80) r1) as [x r2].
  unfold bind at 1. destruct (randint 100 (HEIGHT - 80) r2) as [y r3].
  unfold bind at 1. unfold Animal_init at 1. unfold bind at 1.
  destruct (random_dir r3) as [d r4].
  unfold bind at 1. destruct (randint 900 1800 r4) as [t r5].
  unfold ret, bind. cbn [fst].
  apply Hadd; [exact Ec | reflexivity].
Qed.

Lemma spawn_mob_invariant (g : Game) (r : Rng) :
  game_invariant g -> game_invariant (fst (spawn_mob g r)).
Proof.
  intros (I1 & I2 & I3 & I4 & I5).
  destruct (Z.lt_ge_cases (live_mob_count g) MAX_LIVE_MOBS) as [Hlt | Hge].
  - destruct (spawn_mob_below_cap g r Hlt) as (m & E & Hin & Ha & _).
    apply current_pool_not_boss in Hin.
    rewrite E. unfold game_invariant, boss_count in *. game_cbn.
    rewrite !count_if_app, !count_if_cons.
    unfold live_nonboss at 2, not_boss. rewrite Ha, Hin. cbn [andb negb].
    pose proof (live_nonboss_le_live (mobs g)) as Hle.
    unfold live_mob_count in Hlt.
    change (count_if (fun m0 => is_boss_kind (m_kind m0)) []) with 0.
    change (count_if live_nonboss []) with 0.
    repeat split; auto; lia.
  - rewrite (spawn_mob_at_cap g r Hge). repeat split; auto.
Qed.

Lemma spawn_animal_invariant (g : Game) (r : Rng) :
  game_invariant g -> game_invariant (fst (spawn_animal g r)).
Proof.
  intros Hinv. apply spawn_animal_cases; [exact Hinv |].
  intros Hlt a Ha. destruct Hinv as (I1 & I2 & I3 & I4 & I5).
  unfold game_invariant, boss_count in *. game_cbn.
  rewrite count_if_app, count_if_cons, Ha.
  change (count_if a_alive []) with 0.
  repeat split; auto; lia.
Qed.

Lemma update_spawns_invariant (g : Game) (dt : Z) (r : Rng) :
  game_invariant g -> game_invariant (fst (update_spawns g dt r)).
Proof.
  intros Hinv. unfold update_spawns. cbv zeta. unfold bind at 1.
  set (g0 := with_spawn_timer g (spawn_timer g + dt)).
  match goal with
  | |- context [(if ?c then spawn_mob ?x else ret ?y) r] =>
      assert (H1 : game_invariant (fst ((if c then spawn_mob x else ret y) r)));
      [ destruct c; [apply spawn_mob_invariant; exact Hinv | exact Hinv]
      | destruct ((if c then spawn_mob x else ret y) r) as [g1 r1] ]
  end.
  cbn [fst] in H1.
  set (g2 := with_animal_spawn_timer g1 _).
  destruct (animal_spawn_interval_ms g2 <=? animal_spawn_timer g2).
  - apply spawn_animal_invariant. exact H1.
  - exact H1.
Qed.

(** ** Changes of theme *)

Lemma count_boss_filter (l : list Mob) :
  count_if (fun m => is_boss_kind (m_kind m)) (filter not_boss l) = 0.
Proof. apply (count_if_filter_negb (fun m => is_boss_kind (m_kind m))). Qed.

Lemma count_live_nonboss_filter (l : list Mob) :
  count_if live_nonboss (filter not_boss l) = count_if live_nonboss l.
Proof.
  apply count_if_filter_same. unfold live_nonboss.
  intros m E. apply andb_true_iff in E. tauto.
Qed.

Lemma spawn_boss_counts (g : Game) :
  boss_count (spawn_boss g) = boss_count g + 1
  /\ count_if live_nonboss (mobs (spawn_boss g)) = count_if live_nonboss (mobs g)
  /\ theme (spawn_boss g) = theme g /\ prev_theme (spawn_boss g) = prev_theme g
  /\ animals (spawn_boss g) = animals g
  /\ projectiles (spawn_boss g) = projectiles g.
Proof.
  unfold boss_count, spawn_boss. game_cbn. rewrite !count_if_app.
  split; [reflexivity |]. split; [| repeat split].
  change (count_if live_nonboss [_]) with 0. lia.
Qed.

(** Whatever theme has just been selected, [_handle_theme_transitions]
    brings the game back to the invariant. *)
Lemma handle_theme_transitions_invariant (g : Game) (t : Theme) :
  game_invariant g -> game_invariant (handle_theme_transitions (with_theme g t)).
Proof.
  intros (I1 & I2 & I3 & I4 & I5).
  pose proof (count_if_nonneg (fun m => is_boss_kind (m_kind m)) (mobs g)) as Hb0.
  unfold game_invariant in *.
  unfold handle_theme_transitions. game_cbn. rewrite <- I1.
  destruct (Theme_eqb t (theme g)) eqn:Et; cbn [negb].
  - apply Theme_eqb_eq in Et. game_cbn. repeat split; auto; congruence.
  - cbv zeta.
    assert (Hleave : forall h : Game,
               theme h = t -> animals h = animals g -> projectiles h = projectiles g ->
               boss_count h <= 1 ->
               count_if live_nonboss (mobs h) <= MAX_LIVE_MOBS ->
               let h' := if Theme_eqb (theme h) END
                         then spawn_boss (with_mobs (with_end_boss_alive h false)
                                                    (filter not_boss (mobs h)))
                         else h in
               theme (with_prev_theme h' (theme h')) = prev_theme (with_prev_theme h' (theme h'))
               /\ count_if a_alive (animals (with_prev_theme h' (theme h'))) <= MAX_ALIVE_ANIMALS
               /\ boss_count (with_prev_theme h' (theme h')) <= 1
               /\ count_if live_nonboss (mobs (with_prev_theme h' (theme h'))) <= MAX_LIVE_MOBS
               /\ arrows_ok (projectiles (with_prev_theme h' (theme h')))).
    { intros h T A R B L. cbv zeta.
      destruct (Theme_eqb (theme h) END).
      - destruct (spawn_boss_counts (with_mobs (with_end_boss_alive h false)
                                               (filter not_boss (mobs h))))
          as (C1 & C2 & C3 & C4 & C5 & C6).
        unfold boss_count in *. game_cbn. game_cbn_in C1. game_cbn_in C2.
        game_cbn_in C5. game_cbn_in C6.
        rewrite C1, C2, C5, C6, count_boss_filter, count_live_nonboss_filter, A, R.
        repeat split; auto; lia.
      - unfold boss_count in *. game_cbn. rewrite A, R.
        repeat split; auto. }
    destruct (Theme_eqb (theme g) END && negb (Theme_eqb t END)).
    + apply Hleave; try reflexivity; unfold boss_count; game_cbn.
      * rewrite count_boss_filter. lia.
      * rewrite count_live_nonboss_filter. exact I4.
    + apply Hleave; try reflexivity; assumption.
Qed.

Lemma update_portals_invariant (g : Game) :
  game_invariant g -> game_invariant (update_portals g).
Proof.
  intros Hinv. unfold update_portals. cbv zeta.
  destruct (colliderect (p_rect (p1 g)) (portal_n g)).
  - game_cbn. destruct (colliderect (p_rect (p1 g)) (portal_e g)).
    + assert (E : with_theme (with_theme g NETHER) END = with_theme g END)
        by reflexivity.
      rewrite E. apply handle_theme_transitions_invariant. exact Hinv.
    + apply handle_theme_transitions_invariant. exact Hinv.
  - destruct (colliderect (p_rect (p1 g)) (portal_e g)).
    + apply handle_theme_transitions_invariant. exact Hinv.
    + assert (E : g = with_theme g (theme g)) by (destruct g; reflexivity).
      rewrite E. apply handle_theme_transitions_invariant. exact Hinv.
Qed.

(** ** Events and frames *)

Lemma Game_init_invariant : game_invariant Game_init.
Proof.
  unfold game_invariant. repeat split; try (vm_compute; discriminate).
  constructor.
Qed.

Lemma handle_event_invariant (g : Game) (e : Event) :
  game_invariant g -> game_invariant (handle_event g e).
Proof.
  intros Hinv. unfold handle_event. cbv zeta.
  assert (Hv : game_invariant (with_vpad g (VirtualPad_handle_event (vpad g) e)))
    by exact Hinv.
  set (g0 := with_vpad g _) in *.
  destruct e as [pos | pos | pos | | k |]; try exact Hv.
  destruct k; try exact Hv.
  - destruct (round_over g0); [apply Game_init_invariant | exact Hv].
  - apply handle_theme_transitions_invariant. exact Hv.
  - apply handle_theme_transitions_invariant. exact Hv.
  - apply handle_theme_transitions_invariant. exact Hv.
Qed.

Lemma handle_events_invariant (pending : list Event) (g : Game) :
  game_invariant g -> game_invariant (handle_events g pending).
Proof.
  unfold handle_events. revert g.
  induction pending as [|e rest IH]; intros g Hinv; [exact Hinv |].
  cbn [fold_left]. apply IH. apply handle_event_invariant. exact Hinv.
Qed.

Lemma update_invariant (inp : Inputs) (dt : Z) (g : Game) (r : Rng) :
  game_invariant g -> game_invariant (outcome_state (fst (update inp dt g r))).
Proof.
  intros Hinv. unfold update.
  destruct (paused g || round_over g); [exact Hinv |].
  unfold bind at 1.
  pose proof (update_player_quiet g inp r) as H1.
  destruct (update_player g inp r) as [g1 r1]. cbn [fst] in H1.
  pose proof (quiet_step_invariant g g1 H1 Hinv) as I1.
  pose proof (update_portals_invariant g1 I1) as I2.
  unfold bind at 1.
  pose proof (update_spawns_invariant (update_portals g1) dt r1 I2) as I3.
  destruct (update_spawns (update_portals g1) dt r1) as [g3 r3]. cbn [fst] in I3.
  pose proof (quiet_step_invariant g3 _ (update_mobs_quiet g3 (ticks_ai inp)) I3) as I4.
  unfold bind at 1.
  pose proof (update_animals_quiet (update_mobs g3 (ticks_ai inp)) r3) as H5.
  destruct (update_animals (update_mobs g3 (ticks_ai inp)) r3) as [g5 r5].
  cbn [fst] in H5.
  pose proof (quiet_step_invariant _ g5 H5 I4) as I5.
  unfold ret. cbn [fst].
  apply update_pickups_invariant. exact I5.
Qed.

(** The invariant holds at the end of every turn of the main loop. *)
Lemma reachable_invariant (g : Game) : reachable g -> game_invariant g.
Proof.
  induction 1 as [| g pending inp dt r _ IH _].
  - apply Game_init_invariant.
  - unfold frame, bind, ret.
    pose proof (update_invariant inp dt (handle_events g pending) r
                  (handle_events_invariant pending g IH)) as H.
    destruct (update inp dt (handle_events g pending) r) as [o r'].
    exact H.
Qed.

Lemma crowded_end_reachable : reachable crowded_end.
Proof.
  unfold crowded_end. apply reach_frame.
  - apply slow_frames_reachable. apply le_n.
  - vm_compute. reflexivity.
Qed.

(** ** What holds at the end of every frame *)

(** At the end of every turn of the main loop [prev_theme] equals
    [theme]: every change of theme, by a portal or by a key, has been
    followed by its transition. *)
Theorem reachable_theme_settled (g : Game) :
  reachable g -> theme g = prev_theme g.
Proof. intros H. apply (reachable_invariant g H). Qed.

Lemma reachable_theme_settled_witness : theme crowded_end = prev_theme crowded_end.
Proof. apply reachable_theme_settled. apply crowded_end_reachable. Defined.

(** The cap on animals is kept by the whole game: at the end of every
    turn of the main loop at most [MAX_ALIVE_ANIMALS] animals are alive. *)
Theorem reachable_animal_cap (g : Game) :
  reachable g -> count_if a_alive (animals g) <= MAX_ALIVE_ANIMALS.
Proof. intros H. apply (reachable_invariant g H). Qed.

Lemma reachable_animal_cap_witness :
  count_if a_alive (animals crowded_end) <= MAX_ALIVE_ANIMALS.
Proof. apply reachable_animal_cap. apply crowded_end_reachable. Defined.

(** The mobs of the game at the end of every turn of the main loop: at
    most one boss is in the list, at most [MAX_LIVE_MOBS] live mobs are
    not bosses, and so at most [MAX_LIVE_MOBS + 1] mobs are alive. *)
Theorem reachable_mob_bound (g : Game) :
  reachable g ->
  boss_count g <= 1
  /\ count_if live_nonboss (mobs g) <= MAX_LIVE_MOBS
  /\ live_mob_count g <= MAX_LIVE_MOBS + 1.
Proof.
  intros H. destruct (reachable_invariant g H) as (_ & _ & Hb & Hl & _).
  split; [exact Hb |]. split; [exact Hl |].
  pose proof (live_le_nonboss_plus_boss (mobs g)) as Hle.
  unfold live_mob_count, boss_count in *. lia.
Qed.

Lemma reachable_mob_bound_witness :
  boss_count crowded_end <= 1
  /\ count_if live_nonboss (mobs crowded_end) <= MAX_LIVE_MOBS
  /\ live_mob_count crowded_end <= MAX_LIVE_MOBS + 1.
Proof. apply reachable_mob_bound. apply crowded_end_reachable. Defined.

Lemma run_frames_reachable (script : Script) (g : Game) :
  reachable g -> runs_on script g = true -> reachable (run_frames script g).
Proof.
  revert g. induction script as [|[[[pending inp] dt] r] rest IH]; intros g Hg Hr.
  - exact Hg.
  - cbn [run_frames runs_on] in *. apply andb_true_iff in Hr. destruct Hr as [Hr1 Hr2].
    apply IH; [apply reach_frame; assumption | exact Hr2].
Qed.

Lemma skirmish_reachable : reachable skirmish.
Proof.
  apply run_frames_reachable; [apply reach_init | vm_compute; reflexivity].
Qed.

(** At the end of every turn of the main loop every arrow in
    [projectiles] carries the damage 12 of a skeleton's arrow. *)
Theorem reachable_arrows_damage (g : Game) :
  reachable g -> Forall (fun a => ar_dmg a = 12) (projectiles g).
Proof.
  intros H. destruct (reachable_invariant g H) as (_ & _ & _ & _ & Ha). exact Ha.
Qed.

(** A skeleton's first arrow in flight towards the dashing player. *)
Lemma reachable_arrows_damage_witness :
  Forall (fun a => ar_dmg a = 12) (projectiles skirmish).
Proof. apply reachable_arrows_damage. apply skirmish_reachable. Defined.

(** [try_skeleton_shoot] either does nothing or fires exactly one arrow:
    alive, of damage 12, with 3500 ms to live.  It fires only for an
    archer with shots left, at a live player within the shot range, once
    the cooldown since the last shot has passed; the shot is timed and
    costs one of the shots left. *)
Theorem try_skeleton_shoot_spec (g : Game) (m : Mob) (now_ms : Z) :
  try_skeleton_shoot g m now_ms = (g, m)
  \/ (exists a : Arrow,
        fst (try_skeleton_shoot g m now_ms)
        = with_projectiles g (projectiles g ++ [a])
        /\ ar_dmg a = 12 /\ ar_alive a = true /\ ar_ttl_ms a = 3500
        /\ snd (try_skeleton_shoot g m now_ms)
           = m_with_shot m now_ms (m_shots_left m - 1)
        /\ m_is_archer m = true /\ 0 < m_shots_left m
        /\ p_alive (p1 g) = true
        /\ distance_le (center (m_rect m)) (center (p_rect (p1 g))) (m_shot_range m)
           = true
        /\ m_shot_cooldown_ms m <= now_ms - m_last_shot_time m).
Proof. apply try_skeleton_shoot_cases. Qed.

(* ================================================================== *)
(** * Further properties of the frame *)

(** ** Shots and arrows *)

Lemma shots_spent_refl (m : Mob) : shots_spent m m.
Proof. unfold shots_spent. lia. Qed.

Lemma update_mobs_from_shots (todo done : list Mob) (now_ms : Z) (g : Game) :
  mobs g = done ++ todo ->
  let g' := update_mobs_from todo (List.length done) now_ms g in
  exists todo' : list Mob,
    mobs g' = done ++ todo'
    /\ Forall2 shots_spent todo todo'
    /\ Z.of_nat (List.length (projectiles g')) + total_shots todo'
       = Z.of_nat (List.length (projectiles g)) + total_shots todo.
Proof.
  cbv zeta. revert done g. induction todo as [|m rest IH]; intros done g Hm.
  - cbn [update_mobs_from]. exists []. repeat split; [exact Hm | constructor].
  - cbn [update_mobs_from].
    assert (Hnext : forall (h : Game) (m' : Mob),
               mobs h = done ++ m' :: rest -> shots_spent m m' ->
               Z.of_nat (List.length (projectiles h)) + m_shots_left m'
               = Z.of_nat (List.length (projectiles g)) + m_shots_left m ->
               exists todo' : list Mob,
                 mobs (update_mobs_from rest (S (List.length done)) now_ms h)
                 = done ++ todo'
                 /\ Forall2 shots_spent (m :: rest) todo'
                 /\ Z.of_nat (List.length
                      (projectiles (update_mobs_from rest (S (List.length done)) now_ms h)))
                    + total_shots todo'
                    = Z.of_nat (List.length (projectiles g)) + total_shots (m :: rest)).
    { intros h m' Hh Hs Hc.
      specialize (IH (done ++ [m']) h).
      rewrite length_app in IH. cbn [List.length] in IH.
      rewrite Nat.add_1_r in IH.
      destruct IH as (todo' & E1 & E2 & E3); [rewrite <- app_assoc; exact Hh |].
      exists (m' :: todo'). rewrite <- app_assoc in E1. cbn [app] in E1.
      split; [exact E1 |]. split; [constructor; assumption |].
      unfold total_shots in *. cbn [fold_right]. lia. }
    destruct (m_alive m) eqn:Ha; cbn [negb].
    + cbv zeta.
      set (m1 := Mob_ai m (center (p_rect (p1 g)))).
      assert (Hs1 : m_shots_left m1 = m_shots_left m)
        by (unfold m1, Mob_ai; destruct (negb (m_alive m)); reflexivity).
      set (g1 := with_mobs g (set_nth (mobs g) (List.length done) m1)).
      pose proof (mobs_damage_p1_on_touch_cast g1 m1) as Hc. cbv zeta in Hc.
      set (g2 := mobs_damage_p1_on_touch g1 m1) in *.
      destruct Hc as (_ & _ & M2 & _ & R2).
      assert (M1 : mobs g1 = done ++ m1 :: rest)
        by (unfold g1; game_cbn; rewrite Hm; apply set_nth_middle).
      pose proof (try_skeleton_shoot_cases g2 m1 now_ms) as Hs.
      destruct (try_skeleton_shoot g2 m1 now_ms) as [g3 m2].
      cbn [fst snd] in Hs.
      apply (Hnext _ m2).
      * game_cbn.
        destruct Hs as [E | (a & E3 & _ & _ & _ & Em & _)].
        -- injection E as -> ->. rewrite M2, M1. apply set_nth_middle.
        -- rewrite E3. game_cbn. rewrite M2, M1. apply set_nth_middle.
      * destruct Hs as [E | (a & E3 & _ & _ & _ & Em & _ & Hpos & _)].
        -- injection E as -> ->. unfold shots_spent. lia.
        -- rewrite Em. unfold shots_spent, m_with_shot. cbn [m_shots_left]. lia.
      * game_cbn.
        destruct Hs as [E | (a & E3 & _ & _ & _ & Em & _)].
        -- injection E as -> ->. rewrite R2. unfold g1. game_cbn. lia.
        -- rewrite E3, Em. game_cbn. rewrite R2. unfold g1. game_cbn.
           rewrite length_app. cbn [List.length m_shots_left m_with_shot]. lia.
    + apply (Hnext g m); [exact Hm | apply shots_spent_refl | reflexivity].
Qed.

(** In the mobs' loop of [update] every arrow is paid for with a shot:
    the arrows in flight and the shots the mobs have left add up to the
    same number before and after, no mob gains a shot and none goes below
    zero.  The list of mobs keeps its length. *)
Theorem update_mobs_shots (g : Game) (now_ms : Z) :
  let g' := update_mobs g now_ms in
  Forall2 shots_spent (mobs g) (mobs g')
  /\ Z.of_nat (List.length (projectiles g')) + total_shots (mobs g')
     = Z.of_nat (List.length (projectiles g)) + total_shots (mobs g).
Proof.
  cbv zeta. unfold update_mobs.
  destruct (update_mobs_from_shots (mobs g) [] now_ms g eq_refl) as (todo' & E1 & E2 & E3).
  cbn [app List.length] in *. rewrite E1. split; assumption.
Qed.

(** ** After the player's death *)

Lemma update_mobs_from_dead (todo : list Mob) (pos : nat) (now_ms : Z) (g : Game) :
  p_alive (p1 g) = false ->
  let g' := update_mobs_from todo pos now_ms g in
  p1 g' = p1 g /\ projectiles g' = projectiles g /\ round_over g' = round_over g.
Proof.
  cbv zeta. revert pos g. induction todo as [|m rest IH]; intros pos g Hd.
  - repeat split.
  - cbn [update_mobs_from].
    destruct (negb (m_alive m)); [apply IH; exact Hd |].
    cbv zeta.
    set (m1 := Mob_ai m (center (p_rect (p1 g)))).
    set (g1 := with_mobs g (set_nth (mobs g) pos m1)).
    assert (E2 : mobs_damage_p1_on_touch g1 m1 = g1).
    { unfold mobs_damage_p1_on_touch. unfold g1 at 1. game_cbn.
      rewrite Hd, andb_false_r. reflexivity. }
    rewrite E2.
    assert (E3 : try_skeleton_shoot g1 m1 now_ms = (g1, m1)).
    { unfold try_skeleton_shoot. unfold g1 at 1. game_cbn.
      rewrite Hd, andb_false_r. reflexivity. }
    rewrite E3.
    match goal with
    | |- context [update_mobs_from rest (S pos) now_ms ?h] =>
        destruct (IH (S pos) h) as (I1 & I2 & I3); [exact Hd |];
        rewrite I1, I2, I3
    end.
    repeat split.
Qed.

Lemma update_projectiles_from_dead (snapshot : list Arrow) (i : nat) (dt : Z)
      (live : Tagged) (g : Game) :
  p_alive (p1 g) = false ->
  snd (outcome_state (update_projectiles_from snapshot i dt live g)) = g.
Proof.
  revert i live. induction snapshot as [|pr rest IH]; intros i live Hd; [reflexivity |].
  cbn [update_projectiles_from].
  destruct (negb (ar_alive pr)).
  - destruct (pop live i); [apply IH; exact Hd | reflexivity].
  - cbv zeta. destruct (negb (ar_alive (Arrow_update pr dt))).
    + destruct (pop _ i); [apply IH; exact Hd | reflexivity].
    + rewrite Hd. cbn [andb]. apply IH. exact Hd.
Qed.

(** A dead player is left alone: in the mobs' loop no mob hurts the
    player and no skeleton shoots, and [update_projectiles] lets every
    arrow pass, whether or not it raises; the player and [round_over] are
    as before. *)
Theorem dead_player_is_left_alone (g : Game) (now_ms dt : Z) :
  p_alive (p1 g) = false ->
  (p1 (update_mobs g now_ms) = p1 g
   /\ projectiles (update_mobs g now_ms) = projectiles g
   /\ round_over (update_mobs g now_ms) = round_over g)
  /\ (p1 (outcome_state (update_projectiles g dt)) = p1 g
      /\ round_over (outcome_state (update_projectiles g dt)) = round_over g).
Proof.
  intros Hd. split.
  - apply (update_mobs_from_dead (mobs g) 0 now_ms g Hd).
  - unfold update_projectiles.
    pose proof (update_projectiles_from_dead (projectiles g) 0 dt
                  (tag_from 0 (projectiles g)) g Hd) as E.
    destruct (update_projectiles_from (projectiles g) 0 dt
                (tag_from 0 (projectiles g)) g) as [s | s];
      cbn [outcome_state] in *; unfold close_projectiles; game_cbn;
      rewrite E; split; reflexivity.
Qed.

(** A dead player under a skeleton and in the path of an arrow. *)
Lemma dead_player_is_left_alone_witness :
  let g := with_projectiles
             (with_mobs (with_p1 Game_init (p_with_alive (p1 Game_init) false))
                        [Mob_init (mkMobKind "Skeleton" 42 (16 # 10) 14 "mob" 9) 470 310])
             [arrow_hitting] in
  p1 (update_mobs g 5000) = p1 g
  /\ projectiles (update_mobs g 5000) = projectiles g
  /\ round_over (update_mobs g 5000) = round_over g.
Proof.
  intros g. apply (proj1 (dead_player_is_left_alone g 5000 16 eq_refl)).
Defined.

(** ** The cadence of the spawns *)


